(** * nzb-repair: a shallow embedding of the repair pipeline's pure cores

  The development follows the Go sources of javi11/nzb-repair:

  - [Config]   : internal/config       ([mergeWithDefault], [NewFromFile])
  - [Queue]    : internal/queue        ([AddJob], [UpdateJobStatus])
  - [Filepath] : Go's path/filepath with the Unix separator
  - [App]      : internal/app          ([calculateJobOutputPath])
  - [Regexp]   : the fragment of Go's regexp used by the par2 driver
  - [Par2]     : internal/repairnzb    ([splitParWithRest], [Repair])
  - [Article]  : internal/repairnzb    ([EncodeBytes], CRC32 footer)
  - [Download] : internal/repairnzb    ([downloadWorker])

  Go strings are byte strings and are modelled by [string]; Go's [int] and
  [int64] are modelled by [Z] with the two's complement wrap-around written
  out where the code does arithmetic. *)

From Stdlib Require Import ZArith NArith Lia Ascii String List Permutation Bool.
From stdpp Require Import base tactics option list strings gmap pretty.

Local Open Scope Z_scope.

(** ** Go machine integers *)

Module GoInt.

(** Go's [int] on the 64-bit targets the tool is released for. *)
Definition minInt : Z := - 2 ^ 63.
Definition maxInt : Z := 2 ^ 63 - 1.

Definition inRange (z : Z) : Prop := minInt <= z <= maxInt.

(** Two's complement wrap-around of a mathematical integer. *)
Definition wrap (z : Z) : Z := (z + 2 ^ 63) mod 2 ^ 64 - 2 ^ 63.

(** [a + b] on [int]. *)
Definition add (a b : Z) : Z := wrap (a + b).

(** [a * b] on [int]. *)
Definition mul (a b : Z) : Z := wrap (a * b).

End GoInt.

(** ** Errors *)

(** A Go [(T, error)] result. *)
Inductive result (A : Type) : Type :=
| Ok (a : A)
| Err (msg : string).
Arguments Ok {A} a.
Arguments Err {A} msg.

(** ** internal/config *)

Module Config.

(** nntppool.UsenetProviderConfig, with the fields of the data model. *)
Record Provider : Type := mkProvider {
  Host : string;
  Port : Z;
  Username : string;
  Password : string;
  MaxConnections : Z;
  MaxConnectionIdleTimeInSeconds : Z;
  TLS : bool
}.

Definition ObfuscationPolicy : Type := string.
Definition ObfuscationPolicyNone : ObfuscationPolicy := "none".
Definition ObfuscationPolicyFull : ObfuscationPolicy := "full".

Record UploadConfig : Type := mkUploadConfig {
  ObfuscationPolicyOf : ObfuscationPolicy
}.

Record Config : Type := mkConfig {
  DownloadWorkers : Z;
  UploadWorkers : Z;
  DownloadFolder : string;
  DownloadProviders : list Provider;
  UploadProviders : list Provider;
  Par2Exe : string;
  Upload : UploadConfig;
  ScanInterval : Z;          (* time.Duration, nanoseconds *)
  MaxRetries : Z;
  BrokenFolder : string
}.

(** The zero value [Config{}]. *)
Definition zeroConfig : Config :=
  mkConfig 0 0 "" [] [] "" (mkUploadConfig "") 0 0 "".

Definition providerConfigDefault_MaxConnections : Z := 10.
Definition providerConfigDefault_MaxConnectionIdleTimeInSeconds : Z := 2400.
Definition downloadWorkersDefault : Z := 10.
Definition uploadWorkersDefault : Z := 10.
Definition scanIntervalDefault : Z := 5 * 60 * 1000000000.
Definition maxRetriesDefault : Z := 3.
Definition brokenFolderDefault : string := "broken".

Definition setMaxConnections (p : Provider) (n : Z) : Provider :=
  mkProvider (Host p) (Port p) (Username p) (Password p) n
             (MaxConnectionIdleTimeInSeconds p) (TLS p).

Definition setMaxConnectionIdleTimeInSeconds (p : Provider) (n : Z) : Provider :=
  mkProvider (Host p) (Port p) (Username p) (Password p) (MaxConnections p)
             n (TLS p).

(** The body of the two provider loops, up to the write-back
    [cfg.Providers[i] = p]. *)
Definition defaultProvider (p : Provider) : Provider :=
  let p1 := if MaxConnections p =? 0
            then setMaxConnections p providerConfigDefault_MaxConnections
            else p in
  if MaxConnectionIdleTimeInSeconds p1 =? 0
  then setMaxConnectionIdleTimeInSeconds p1
         providerConfigDefault_MaxConnectionIdleTimeInSeconds
  else p1.

(** [for i, p := range providers { ...; providers[i] = p; workers += p.MaxConnections }]
    started with the accumulator [workers]; returns the rewritten slice
    and the final accumulator. *)
Fixpoint providerLoop (ps : list Provider) (workers : Z) : list Provider * Z :=
  match ps with
  | [] => ([], workers)
  | p :: rest =>
      let p' := defaultProvider p in
      let r := providerLoop rest (GoInt.add workers (MaxConnections p')) in
      (p' :: fst r, snd r)
  end.

(** [mergeWithDefault(config ...Config)]. *)
Definition mergeWithDefault (config : list Config) : Config :=
  match config with
  | [] =>
      mkConfig downloadWorkersDefault uploadWorkersDefault "./" [] [] ""
               (mkUploadConfig "") scanIntervalDefault maxRetriesDefault
               brokenFolderDefault
  | cfg :: _ =>
      let d := providerLoop (DownloadProviders cfg) 0 in
      let u := providerLoop (UploadProviders cfg) 0 in
      mkConfig
        (if DownloadWorkers cfg =? 0 then snd d else DownloadWorkers cfg)
        (if UploadWorkers cfg =? 0 then snd u else UploadWorkers cfg)
        (DownloadFolder cfg)
        (fst d)
        (fst u)
        (Par2Exe cfg)
        (Upload cfg)
        (if ScanInterval cfg =? 0 then scanIntervalDefault else ScanInterval cfg)
        (if MaxRetries cfg =? 0 then maxRetriesDefault else MaxRetries cfg)
        (if String.eqb (BrokenFolder cfg) "" then brokenFolderDefault
         else BrokenFolder cfg)
  end.

(** [NewFromFile(path)]: [readFile] stands for [os.ReadFile] and
    [unmarshal] for [yaml.Unmarshal] into a zero [Config]. *)
Definition NewFromFile (readFile : string -> result string)
           (unmarshal : string -> result Config) (path : string)
  : result Config :=
  match readFile path with
  | Err e => Err e
  | Ok data =>
      match unmarshal data with
      | Err e => Err e
      | Ok cfg => Ok (mergeWithDefault [cfg])
      end
  end.

(** The sum the loops accumulate: Go's [+=] over the providers'
    [MaxConnections], left to right. *)
Definition sumMaxConnections (ps : list Provider) : Z :=
  fold_left (fun w p => GoInt.add w (MaxConnections p)) ps 0.

(** The mathematical sum, for comparison. *)
Fixpoint totalMaxConnections (ps : list Provider) : Z :=
  match ps with
  | [] => 0
  | p :: rest => MaxConnections p + totalMaxConnections rest
  end.

End Config.

(** ** internal/queue *)

Module Queue.

(** [type JobStatus string]: the column is TEXT, so any string can occur. *)
Definition JobStatus : Type := string.
Definition StatusPending : JobStatus := "pending".
Definition StatusProcessing : JobStatus := "processing".
Definition StatusCompleted : JobStatus := "completed".
Definition StatusFailed : JobStatus := "failed".
Definition StatusMoved : JobStatus := "moved".

(** A row of the [jobs] table. [ErrorMsg] is the nullable [error_msg]
    column ([sql.NullString]); times are instants on an integer clock. *)
Record Job : Type := mkJob {
  ID : Z;
  FilePath : string;
  RelativePath : string;
  Status : JobStatus;
  ErrorMsg : option string;
  RetryCount : Z;
  CreatedAt : Z;
  UpdatedAt : Z
}.

(** The table: its rows in insertion order and the AUTOINCREMENT counter. *)
Record Table : Type := mkTable {
  rows : list Job;
  lastID : Z
}.

(** What the SQL driver may report for the statements of one call:
    [Some e] makes the corresponding step fail with error [e]. *)
Record Faults : Type := mkFaults {
  beginErr : option string;
  queryErr : option string;
  execErr : option string;
  commitErr : option string
}.

Definition noFaults : Faults := mkFaults None None None None.

(** [SELECT id, status FROM jobs WHERE filepath = ?] read by [QueryRow]:
    the first matching row, [None] for [sql.ErrNoRows]. *)
Definition selectByFilepath (rs : list Job) (filePath : string) : option Job :=
  List.find (fun j => String.eqb (FilePath j) filePath) rs.

(** [INSERT INTO jobs (filepath, relative_path, status, created_at, updated_at)];
    the other columns take their declared defaults. *)
Definition insertJob (t : Table) (filePath relativePath : string)
           (status : JobStatus) (now : Z) : Table :=
  mkTable (rows t ++ [mkJob (lastID t + 1) filePath relativePath status None 0 now now])
          (lastID t + 1).

(** [SET status = ?, error_msg = NULL, updated_at = ?, relative_path = ?]. *)
Definition resetRow (status : JobStatus) (now : Z) (relativePath : string)
           (j : Job) : Job :=
  mkJob (ID j) (FilePath j) relativePath status None (RetryCount j)
        (CreatedAt j) now.

(** [UPDATE jobs SET ... WHERE filepath = ?]. *)
Definition updateByFilepath (t : Table) (filePath : string) (f : Job -> Job) : Table :=
  mkTable (map (fun j => if String.eqb (FilePath j) filePath then f j else j) (rows t))
          (lastID t).

(** [UPDATE jobs SET ... WHERE id = ?]. *)
Definition updateByID (t : Table) (jobID : Z) (f : Job -> Job) : Table :=
  mkTable (map (fun j => if ID j =? jobID then f j else j) (rows t))
          (lastID t).

(** [tx.Commit()]; on failure the deferred rollback restores [before]. *)
Definition commit (flt : Faults) (before after : Table) (what : string)
  : Table * option string :=
  match commitErr flt with
  | Some e => (before, Some (what +:+ e))
  | None => (after, None)
  end.

(** [func (q *Queue) AddJob(filePath string, relativePath string) error]. *)
Definition AddJob (flt : Faults) (t : Table) (filePath relativePath : string)
           (now : Z) : Table * option string :=
  match beginErr flt with
  | Some e => (t, Some ("failed to begin transaction: " +:+ e))
  | None =>
      match queryErr flt with
      | Some e => (t, Some ("failed to check for existing job: " +:+ e))
      | None =>
          match selectByFilepath (rows t) filePath with
          | None =>
              match execErr flt with
              | Some e => (t, Some ("failed to insert new job: " +:+ e))
              | None =>
                  commit flt t (insertJob t filePath relativePath StatusPending now)
                         "failed to commit transaction for AddJob: "
              end
          | Some row =>
              let currentStatus := Status row in
              if String.eqb currentStatus StatusFailed
                 || String.eqb currentStatus StatusCompleted
              then
                match execErr flt with
                | Some e => (t, Some ("failed to reset existing job to pending: " +:+ e))
                | None =>
                    commit flt t
                           (updateByFilepath t filePath
                              (resetRow StatusPending now relativePath))
                           "failed to commit transaction for AddJob: "
                end
              else commit flt t t "failed to commit transaction for AddJob: "
          end
      end
  end.

(** [SET status = ?, error_msg = ?, updated_at = ?, retry_count = retry_count + 1].
    SQLite's integer addition does not wrap around (past the 64-bit range
    the sum is kept as a real of the same value), so the count is an
    unbounded integer. *)
Definition setFailedRow (status : JobStatus) (errMsg : option string) (now : Z)
           (j : Job) : Job :=
  mkJob (ID j) (FilePath j) (RelativePath j) status errMsg (RetryCount j + 1)
        (CreatedAt j) now.

(** [SET status = ?, error_msg = ?, updated_at = ?]. *)
Definition setStatusRow (status : JobStatus) (errMsg : option string) (now : Z)
           (j : Job) : Job :=
  mkJob (ID j) (FilePath j) (RelativePath j) status errMsg (RetryCount j)
        (CreatedAt j) now.

(** [func (q *Queue) UpdateJobStatus(jobID int64, status JobStatus, errorMsg string) error]. *)
Definition UpdateJobStatus (flt : Faults) (t : Table) (jobID : Z)
           (status : JobStatus) (errorMsg : string) (now : Z)
  : Table * option string :=
  let errMsg := if String.eqb errorMsg "" then None else Some errorMsg in
  let f := if String.eqb status StatusFailed
           then setFailedRow status errMsg now
           else setStatusRow status errMsg now in
  match execErr flt with
  | Some e => (t, Some ("failed to update job status: " +:+ e))
  | None => (updateByID t jobID f, None)
  end.

End Queue.

(** ** path/filepath (Unix) and strings helpers *)

Module Filepath.

Definition Separator : ascii := "/"%char.

(** [strings.HasPrefix]. *)
Definition HasPrefix (s p : string) : bool := String.prefix p s.

(** The elements of a path: the pieces between separators, in order. *)
Fixpoint elements (path : string) : list string :=
  match path with
  | EmptyString => [EmptyString]
  | String c rest =>
      if Ascii.eqb c Separator then EmptyString :: elements rest
      else match elements rest with
           | [] => [String c EmptyString]
           | e :: es => String c e :: es
           end
  end.

(** [strings.Join(elems, "/")]. *)
Fixpoint joinSep (elems : list string) : string :=
  match elems with
  | [] => EmptyString
  | [e] => e
  | e :: es => e +:+ "/" +:+ joinSep es
  end.

(** One turn of the loop of [Clean], which consumes one path element. The
    output buffer is kept as the stack of the elements written so far, the
    last one first; [rooted] says that the buffer starts with a separator. *)
Definition cleanStep (rooted : bool) (stack : list string) (e : string)
  : list string :=
  if String.eqb e "" then stack                    (* empty path element *)
  else if String.eqb e "." then stack              (* . element *)
  else if String.eqb e ".." then                   (* .. element *)
    match stack with
    | top :: below =>
        if String.eqb top ".." then e :: stack     (* cannot backtrack *)
        else below                                 (* can backtrack *)
    | [] => if rooted then [] else [e]
    end
  else e :: stack.                                 (* real path element *)

(** [filepath.Clean]. *)
Definition Clean (path : string) : string :=
  match path with
  | EmptyString => "."
  | String c _ =>
      let rooted := Ascii.eqb c Separator in
      let stack := fold_left (cleanStep rooted) (elements path) [] in
      let out := (if rooted then "/" else "") +:+ joinSep (rev stack) in
      if String.eqb out "" then "." else out
  end.

(** [filepath.IsAbs]. *)
Definition IsAbs (path : string) : bool := HasPrefix path "/".

(** [filepath.Join(elem...)]. *)
Fixpoint Join (elem : list string) : string :=
  match elem with
  | [] => ""
  | e :: es => if String.eqb e "" then Join es else Clean (joinSep elem)
  end.

(** [filepath.Base]. *)
Definition Base (path : string) : string :=
  match path with
  | EmptyString => "."
  | _ =>
      match rev (filter (fun e => negb (String.eqb e "")) (elements path)) with
      | [] => "/"
      | e :: _ => e
      end
  end.

(** [filepath.Dir]: [Clean] of the path up to its last separator. *)
Definition Dir (path : string) : string :=
  match rev (elements path) with
  | [] => Clean ""
  | _ :: before => Clean (joinSep (rev (EmptyString :: before)))
  end.

End Filepath.

(** ** internal/app *)

Module App.

(** [calculateJobOutputPath]. [quote] is [fmt]'s [%q], [mkdirAll] is
    [os.MkdirAll] (an error message when it fails). The result carries the
    queue after the call, the directories created, and the returned
    [(string, error)]. *)
Definition calculateJobOutputPath (quote : string -> string)
           (mkdirAll : string -> option string)
           (flt : Queue.Faults) (now : Z)
           (outputBaseDir : string) (job : Queue.Job) (dbQueue : Queue.Table)
  : Queue.Table * list string * result string :=
  let cleanRelativePath := Filepath.Clean (Queue.RelativePath job) in
  if Filepath.HasPrefix cleanRelativePath ".."
     || String.eqb cleanRelativePath "."
     || String.eqb cleanRelativePath ""
     || Filepath.IsAbs cleanRelativePath
  then
    let errMsg := "invalid relative path calculated: " +:+ quote (Queue.RelativePath job) in
    let q := fst (Queue.UpdateJobStatus flt dbQueue (Queue.ID job)
                                        Queue.StatusFailed errMsg now) in
    (q, [], Err errMsg)
  else
    let outputFilePath := Filepath.Join [outputBaseDir; cleanRelativePath] in
    let outputSubDir := Filepath.Dir outputFilePath in
    match mkdirAll outputSubDir with
    | Some err =>
        let errMsg := "failed to create output subdirectory "
                        +:+ quote outputSubDir +:+ ": " +:+ err in
        let q := fst (Queue.UpdateJobStatus flt dbQueue (Queue.ID job)
                                            Queue.StatusFailed errMsg now) in
        (q, [], Err errMsg)
    | None => (dbQueue, [outputSubDir], Ok outputFilePath)
    end.

End App.

(** ** The fragment of Go's regexp the par2 driver uses *)

Module Regexp.

(** Regular expressions over bytes. A character class is a predicate. *)
Inductive re : Type :=
| Void
| Eps
| Class (p : ascii -> bool)
| Cat (a b : re)
| Alt (a b : re)
| Star (a : re).

Fixpoint nullable (r : re) : bool :=
  match r with
  | Void => false
  | Eps => true
  | Class _ => false
  | Cat a b => nullable a && nullable b
  | Alt a b => nullable a || nullable b
  | Star _ => true
  end.

(** Brzozowski derivative of [r] by the byte [c]. *)
Fixpoint deriv (c : ascii) (r : re) : re :=
  match r with
  | Void => Void
  | Eps => Void
  | Class p => if p c then Eps else Void
  | Cat a b =>
      if nullable a then Alt (Cat (deriv c a) b) (deriv c b)
      else Cat (deriv c a) b
  | Alt a b => Alt (deriv c a) (deriv c b)
  | Star a => Cat (deriv c a) (Star a)
  end.

(** Does [r] match the whole of [s]? *)
Fixpoint matchAll (r : re) (s : string) : bool :=
  match s with
  | EmptyString => nullable r
  | String c rest => matchAll (deriv c r) rest
  end.

(** The language of a regular expression: [matches r s] when [r] matches
    the whole of [s]. *)
Inductive matches : re -> string -> Prop :=
| MEps : matches Eps ""
| MClass p c : p c = true -> matches (Class p) (String c "")
| MCat a b s1 s2 : matches a s1 -> matches b s2 -> matches (Cat a b) (s1 +:+ s2)
| MAltL a b s : matches a s -> matches (Alt a b) s
| MAltR a b s : matches b s -> matches (Alt a b) s
| MStarNil a : matches (Star a) ""
| MStarCons a s1 s2 :
    matches a s1 -> matches (Star a) s2 -> matches (Star a) (s1 +:+ s2).

(** ASCII case folding, as [(?i)] does on the letters used here. *)
Definition toLower (c : ascii) : ascii :=
  let n := nat_of_ascii c in
  if (65 <=? n)%nat && (n <=? 90)%nat then ascii_of_nat (n + 32) else c.

Definition isDigit (c : ascii) : bool :=
  let n := nat_of_ascii c in (48 <=? n)%nat && (n <=? 57)%nat.

(** [x+], [x?], [\d], [.] (any byte but a newline), a literal and a
    literal under [(?i)]. *)
Definition Plus (r : re) : re := Cat r (Star r).
Definition Opt (r : re) : re := Alt r Eps.
Definition Digit : re := Class isDigit.
Definition Dot : re := Class (fun c => negb (Ascii.eqb c "010"%char)).
Definition AnyByte : re := Class (fun _ => true).

Fixpoint Lit (s : string) : re :=
  match s with
  | EmptyString => Eps
  | String c rest => Cat (Class (Ascii.eqb c)) (Lit rest)
  end.

Fixpoint LitFold (s : string) : re :=
  match s with
  | EmptyString => Eps
  | String c rest =>
      Cat (Class (fun x => Ascii.eqb (toLower x) (toLower c))) (LitFold rest)
  end.

(** A compiled pattern: its body and whether it starts with [^] and ends
    with [$]. *)
Record Regexp : Type := mkRegexp {
  anchoredBegin : bool;
  body : re;
  anchoredEnd : bool
}.

(** [Regexp.MatchString] of Go: some substring matches the body, starting at
    the beginning of the text under [^] and ending at its end under [$]. *)
Definition MatchString (p : Regexp) (s : string) : bool :=
  matchAll (Cat (if anchoredBegin p then Eps else Star AnyByte)
                (Cat (body p)
                     (if anchoredEnd p then Eps else Star AnyByte))) s.

End Regexp.

(** ** github.com/Tensai75/nzbparser: the manifest *)

Module Nzb.

Record NzbSegment : Type := mkSegment {
  Bytes : Z;
  Number : Z;
  Id : string
}.

Record NzbFile : Type := mkFile {
  Groups : list string;
  Segments : list NzbSegment;
  Poster : string;
  Date : Z;
  FileNumber : Z;
  Filename : string;
  Basefilename : string;
  TotalSegments : Z;
  FileBytes : Z
}.

Record NzbT : Type := mkNzb {
  Files : list NzbFile;
  TotalFiles : Z
}.

End Nzb.

(** ** internal/repairnzb: the par2 driver *)

Module Par2.

Import Regexp.

(** [regexp.MustCompile(`(?i)(\.vol\d+\+(\d+))?\.par2$`)]. *)
Definition parregexp : Regexp :=
  mkRegexp false
    (Cat (Opt (Cat (LitFold ".vol")
                   (Cat (Plus Digit) (Cat (LitFold "+") (Plus Digit)))))
         (LitFold ".par2"))
    true.

(** [par2ExitCodes]. *)
Definition par2ExitCodes : gmap Z string :=
  list_to_map
    [ (0, "Success");
      (1, "Repair possible");
      (2, "Repair not possible");
      (3, "Invalid command line arguments");
      (4, "Insufficient critical data to verify");
      (5, "Repair failed");
      (6, "FileIO Error");
      (7, "Logic Error");
      (8, "Out of memory") ].

(** [splitParWithRest]: one pass, appending to either slice. *)
Definition splitStep (acc : list Nzb.NzbFile * list Nzb.NzbFile) (f : Nzb.NzbFile)
  : list Nzb.NzbFile * list Nzb.NzbFile :=
  if MatchString parregexp (Nzb.Filename f)
  then (fst acc ++ [f], snd acc)
  else (fst acc, snd acc ++ [f]).

Definition splitParWithRest (nfile : Nzb.NzbT)
  : list Nzb.NzbFile * list Nzb.NzbFile :=
  fold_left splitStep (Nzb.Files nfile) ([], []).

Record Par2CmdExecutor : Type := mkExecutor {
  ExePath : string
}.

(** [regexp.Compile(`^.+\.par2`)], the pattern of the directory walk. *)
Definition walkExp : Regexp :=
  mkRegexp true (Cat (Plus Dot) (Lit ".par2")) false.

(** What [filepath.Walk] hands to its callback at one visited entry. *)
Record Visit : Type := mkVisit {
  Name : string;            (* info.Name() *)
  IsDir : bool;             (* info.IsDir() *)
  visitErr : option string  (* the callback's err argument *)
}.

(** The callback passed to [filepath.Walk]; the state is [par2FileName]. *)
Definition walkFn (par2FileName : string) (v : Visit) : result string :=
  match visitErr v with
  | Some e => Err e
  | None =>
      if negb (IsDir v) && MatchString walkExp (Filepath.Base (Name v))
      then if String.eqb par2FileName "" then Ok (Name v) else Ok par2FileName
      else Ok par2FileName
  end.

(** [filepath.Walk] over the entries it visits, in its order; the first
    error returned by the callback ends the walk. *)
Fixpoint Walk (visits : list Visit) (par2FileName : string) : result string :=
  match visits with
  | [] => Ok par2FileName
  | v :: rest =>
      match walkFn par2FileName v with
      | Err e => Err e
      | Ok name => Walk rest name
      end
  end.

(** An [exec.Cmd] as the driver sets it up. *)
Record Cmd : Type := mkCmd {
  CmdPath : string;
  CmdArgs : list string;
  CmdDir : string
}.

(** [cmd.String()]. *)
Definition cmdString (c : Cmd) : string :=
  String.concat " " (CmdPath c :: CmdArgs c).

(** What [cmd.Run()] returns: [nil], an [*exec.ExitError] with its exit
    code, or another error. *)
Inductive RunResult : Type :=
| RunOk
| RunExitError (code : Z)
| RunOtherError (msg : string).

(** The subprocess machinery: pipe creation may fail; [run] gives the
    result of [cmd.Run()] and the contents of [stderrOutput] at that time. *)
Record Process : Type := mkProcess {
  stderrPipeErr : option string;
  stdoutPipeErr : option string;
  run : Cmd -> RunResult * string
}.

(** What a call of [Repair] did: the command it ran, if any, and the
    error it returned, if any. *)
Record Outcome : Type := mkOutcome {
  invoked : option Cmd;
  returned : option string
}.

(** The tail of [Repair], from [cmd.Run()] on. *)
Definition runAndReport (proc : Process) (cmd : Cmd) : Outcome :=
  match run proc cmd with
  | (RunOk, _) => mkOutcome (Some cmd) None
  | (RunExitError code, stderrOutput) =>
      match par2ExitCodes !! code with
      | Some errMsg =>
          mkOutcome (Some cmd)
            (Some ("par2 exited with code " +:+ pretty code +:+ ": " +:+ errMsg
                     +:+ ". Stderr: " +:+ stderrOutput))
      | None =>
          mkOutcome (Some cmd)
            (Some ("par2 exited with unknown code " +:+ pretty code
                     +:+ ". Stderr: " +:+ stderrOutput))
      end
  | (RunOtherError err, stderrOutput) =>
      mkOutcome (Some cmd)
        (Some ("failed to run par2 command '" +:+ cmdString cmd +:+ "': " +:+ err
                 +:+ ". Stderr: " +:+ stderrOutput))
  end.

(** [func (p *Par2CmdExecutor) Repair(ctx, tmpPath string) error]. *)
Definition Repair (p : Par2CmdExecutor) (visits : list Visit) (proc : Process)
           (tmpPath : string) : Outcome :=
  let par2Exe := if String.eqb (ExePath p) "" then "par2" else ExePath p in
  match Walk visits "" with
  | Err e =>
      mkOutcome None
        (Some ("error finding .par2 file in " +:+ tmpPath +:+ ": " +:+ e))
  | Ok par2FileName =>
      if String.eqb par2FileName "" then mkOutcome None None
      else
        let parameters := ["r"; "-q"; "-p"; Filepath.Join [tmpPath; par2FileName]] in
        let cmd := mkCmd par2Exe parameters tmpPath in
        match stderrPipeErr proc with
        | Some e => mkOutcome None (Some ("failed to get stderr pipe for par2: " +:+ e))
        | None =>
            match stdoutPipeErr proc with
            | Some e => mkOutcome None (Some ("failed to get stdout pipe for par2: " +:+ e))
            | None => runAndReport proc cmd
            end
        end
  end.

(** The test [splitParWithRest] applies to a file of the manifest. *)
Definition isPar (f : Nzb.NzbFile) : bool :=
  MatchString parregexp (Nzb.Filename f).

(** The test the walk applies to a visited entry. *)
Definition isPar2Entry (v : Visit) : bool :=
  negb (IsDir v) && MatchString walkExp (Filepath.Base (Name v)).

(** The name the walk settles on when nothing fails: that of the first
    matching entry, or the empty string. *)
Definition firstPar2 (visits : list Visit) : string :=
  match List.find isPar2Entry visits with
  | Some v => Name v
  | None => ""
  end.

(** How [cmd.Run()] reports a subprocess that ran and exited with [code]. *)
Definition exited (code : Z) : RunResult :=
  if code =? 0 then RunOk else RunExitError code.

End Par2.

(** ** hash/crc32 and the verbs of fmt used by the article codec *)

Module CRC32.

(** [crc32.IEEE], the reversed polynomial. *)
Definition IEEE : Z := 0xedb88320.

Definition mask32 : Z := 0xFFFFFFFF.

(** One turn of the inner loop of [simplePopulateTable]. *)
Definition shiftStep (poly crc : Z) : Z :=
  if Z.testbit crc 0 then Z.lxor (Z.shiftr crc 1) poly else Z.shiftr crc 1.

(** [t[i]] of the table [simpleMakeTable(poly)]. *)
Definition tableEntry (poly i : Z) : Z :=
  Nat.iter 8 (shiftStep poly) i.

Definition byteOf (c : ascii) : Z := Z.of_nat (nat_of_ascii c).

(** The loop of [simpleUpdate]: [crc = tab[byte(crc)^v] ^ (crc >> 8)]. *)
Fixpoint updateLoop (poly crc : Z) (p : string) : Z :=
  match p with
  | EmptyString => crc
  | String v rest =>
      updateLoop poly
        (Z.lxor (tableEntry poly (Z.lxor (Z.land crc 0xFF) (byteOf v)))
                (Z.shiftr crc 8))
        rest
  end.

(** [simpleUpdate(crc, tab, p)]; [^crc] on [uint32] is the xor with
    [0xFFFFFFFF]. *)
Definition simpleUpdate (poly crc : Z) (p : string) : Z :=
  Z.lxor (updateLoop poly (Z.lxor crc mask32) p) mask32.

(** [h := crc32.NewIEEE(); h.Write(p); h.Sum32()]. *)
Definition ChecksumIEEE (p : string) : Z := simpleUpdate IEEE 0 p.

End CRC32.

Module Fmt.

(** [%d] of a signed integer. *)
Definition d (z : Z) : string := pretty z.

Definition upperDigits : string := "0123456789ABCDEF".

Definition hexDigit (v : Z) : ascii :=
  match String.get (Z.to_nat v) upperDigits with
  | Some c => c
  | None => "0"%char
  end.

(** The digit loop of [fmtInteger] for base 16:
    [for u >= 16 { buf[i] = digits[u&0xF]; u >>= 4 }; buf[i] = digits[u]],
    which fills the buffer from its end. A 64-bit value leaves the loop
    after at most 15 turns. *)
Fixpoint hexLoop (fuel : nat) (u : Z) (acc : string) : string :=
  match fuel with
  | O => String (hexDigit (Z.land u 0xF)) acc
  | S f =>
      if 16 <=? u
      then hexLoop f (Z.shiftr u 4) (String (hexDigit (Z.land u 0xF)) acc)
      else String (hexDigit u) acc
  end.

Fixpoint zeros (n : nat) : string :=
  match n with
  | O => EmptyString
  | S k => String "0"%char (zeros k)
  end.

(** [%08X] of an unsigned integer: upper-case digits, padded with zeros
    on the left to a width of eight. *)
Definition X08 (u : Z) : string :=
  let digits := hexLoop 15 u EmptyString in
  zeros (8 - String.length digits) +:+ digits.

(** Reading a hexadecimal numeral back. *)
Definition hexDigitValue (c : ascii) : option Z :=
  let n := Z.of_nat (nat_of_ascii c) in
  if (48 <=? n) && (n <=? 57) then Some (n - 48)
  else if (65 <=? n) && (n <=? 70) then Some (n - 55)
  else None.

Fixpoint parseHexFrom (acc : Z) (s : string) : option Z :=
  match s with
  | EmptyString => Some acc
  | String c rest =>
      match hexDigitValue c with
      | Some v => parseHexFrom (16 * acc + v) rest
      | None => None
      end
  end.

Definition parseUpperHex (s : string) : option Z := parseHexFrom 0 s.

(** One of [0-9A-F]. *)
Definition isUpperHexDigit (c : ascii) : bool :=
  match hexDigitValue c with
  | Some _ => true
  | None => false
  end.

End Fmt.

(** ** internal/repairnzb: the article codec *)

Module Article.

Definition CRLF : string :=
  String (ascii_of_nat 13) (String (ascii_of_nat 10) EmptyString).

Record articleData : Type := mkArticle {
  PartNum : Z;
  PartTotal : Z;
  PartSize : Z;
  PartBegin : Z;
  PartEnd : Z;
  FileNum : Z;
  FileTotal : Z;
  FileSize : Z;
  Subject : string;
  Poster : string;
  Groups : list string;
  MsgId : string;
  XNxgHeader : string;
  Filename : string;
  CustomHeaders : option (gmap string string);
  Date : option Z;
  body : string
}.

(** The header map built at the start of [EncodeBytes]. [rfc1123] formats a
    time as [time.RFC1123] in UTC and [now] is [time.Now()]. *)
Definition buildHeaders (rfc1123 : Z -> string) (now : Z) (a : articleData)
  : gmap string string :=
  let h0 : gmap string string :=
    match CustomHeaders a with
    | Some custom => custom
    | None => ∅
    end in
  let h1 := <["Subject" := Subject a]> h0 in
  let h2 := <["From" := Poster a]> h1 in
  let h3 := <["Newsgroups" := String.concat "," (Groups a)]> h2 in
  let h4 := <["Message-ID" := "<" +:+ MsgId a +:+ ">"]> h3 in
  let h5 := if String.eqb (XNxgHeader a) "" then h4
            else <["X-Nxg" := XNxgHeader a]> h4 in
  match Date a with
  | None => <["Date" := rfc1123 now]> h5
  | Some t => <["Date" := rfc1123 t]> h5
  end.

(** [for k, v := range headers { header += k + ": " + v + CRLF }], over the
    order [range] in which the runtime iterates the map. *)
Fixpoint headerLines (kvs : list (string * string)) : string :=
  match kvs with
  | [] => EmptyString
  | (k, v) :: rest => k +:+ ": " +:+ v +:+ CRLF +:+ headerLines rest
  end.

Definition yencHeader (a : articleData) : string :=
  CRLF +:+ "=ybegin part=" +:+ Fmt.d (PartNum a)
       +:+ " total=" +:+ Fmt.d (PartTotal a)
       +:+ " line=128 size=" +:+ Fmt.d (FileSize a)
       +:+ " name=" +:+ Filename a +:+ CRLF
       +:+ "=ypart begin=" +:+ Fmt.d (GoInt.add (PartBegin a) 1)
       +:+ " end=" +:+ Fmt.d (PartEnd a) +:+ CRLF.

(** The [=yend] line; [sum32] is the value of [h.Sum32()]. *)
Definition yendFooter (a : articleData) (sum32 : Z) : string :=
  CRLF +:+ "=yend size=" +:+ Fmt.d (PartSize a)
       +:+ " part=" +:+ Fmt.d (PartNum a)
       +:+ " pcrc32=" +:+ Fmt.X08 sum32 +:+ CRLF.

(** [func (a *articleData) EncodeBytes(encoder Encoder) (io.Reader, error)]:
    the bytes of the returned reader. Neither the hash nor the buffer
    writes can fail, so the error is always [nil]. *)
Definition EncodeBytes (rfc1123 : Z -> string) (now : Z)
           (range : gmap string string -> list (string * string))
           (encoder : string -> string) (a : articleData) : string :=
  let headers := buildHeaders rfc1123 now a in
  let header := headerLines (range headers) +:+ yencHeader a in
  let encoded := encoder (body a) in
  let footer := yendFooter a (CRC32.ChecksumIEEE (body a)) in
  header +:+ encoded +:+ footer.

End Article.

(** ** internal/repairnzb: downloading one file *)

Module Download.

Record brokenSegment : Type := mkBroken {
  segment : Nzb.NzbSegment;
  file : Nzb.NzbFile
}.

(** What [downloadPool.Body(c, id, buff, groups)] did: the error it
    returned, classified as [downloadWorker] classifies it, and the bytes
    it left in [buff]. *)
Inductive BodyResult : Type :=
| BodyOk (data : string)
| BodyNotFound (data : string)   (* nntppool.ErrArticleNotFoundInProviders *)
| BodyCanceled                   (* context.Canceled *)
| BodyFailed (msg : string).

Definition len (s : string) : Z := Z.of_nat (String.length s).

(** [WriteAt(b, off)] of an [os.File], on the bytes of the file: a negative offset
    is refused, a write past the end leaves a hole of zero bytes. *)
Definition WriteAt (content : list ascii) (b : string) (off : Z)
  : result (list ascii) :=
  if off <? 0 then Err "negative offset"
  else
    match b with
    | EmptyString => Ok content
    | _ =>
        let o := Z.to_nat off in
        let data := list_ascii_of_string b in
        let padded := content ++ replicate (o - length content) zero in
        Ok (take o padded ++ data ++ drop (o + length data) padded)
    end.

(** The state the tasks of one [downloadWorker] call share. *)
Record State : Type := mkState {
  content : list ascii;             (* the bytes behind [fileWriter] *)
  writes : list (Z * string);       (* the [WriteAt] calls made, in order *)
  sent : list brokenSegment;        (* what went into [brokenSegmentCh] *)
  segments : list Nzb.NzbSegment;   (* [file.Segments] *)
  onceDone : bool;                  (* [once] has fired *)
  cancelled : bool;                 (* [cancel()] was called *)
  progress : Z                      (* the bar *)
}.

(** The function passed to [once.Do]:
    [for _, s := range file.Segments { s.Bytes = buff.Len() }].
    The assignment goes to the loop variable, a copy of the element, so
    the slice comes out as it went in. *)
Definition recalculate (segs : list Nzb.NzbSegment) (size : Z)
  : list Nzb.NzbSegment :=
  fold_left
    (fun (slice : list Nzb.NzbSegment) (i : nat) =>
       match slice !! i with
       | Some s =>
           let s := Nzb.mkSegment size (Nzb.Number s) (Nzb.Id s) in
           slice
       | None => slice
       end)
    (seq 0 (length segs)) segs.

(** The task [p.Go] runs for the segment [s]; [bodyOf] answers the fetch
    and [hasCh] says that [brokenSegmentCh] is not nil. Returns the new
    state and the task's error. *)
Definition segmentTask (bodyOf : string -> BodyResult) (hasCh : bool)
           (f : Nzb.NzbFile) (st : State) (s : Nzb.NzbSegment)
  : State * option string :=
  match bodyOf (Nzb.Id s) with
  | BodyNotFound buff =>
      if hasCh then
        (mkState (content st) (writes st) (sent st ++ [mkBroken s f])
                 (if onceDone st then segments st
                  else recalculate (segments st) (len buff))
                 true (cancelled st) (progress st),
         None)
      else (st, Some ("segment " +:+ Nzb.Id s +:+ " not found"))
  | BodyCanceled => (st, None)
  | BodyFailed msg =>
      (mkState (content st) (writes st) (sent st) (segments st) (onceDone st)
               true (progress st),
       Some msg)
  | BodyOk buff =>
      let start := GoInt.mul (Nzb.Number s - 1) (len buff) in
      match WriteAt (content st) buff start with
      | Err e => (st, Some e)
      | Ok c =>
          (mkState c (writes st ++ [(start, buff)]) (sent st) (segments st)
                   (onceDone st) (cancelled st)
                   (GoInt.add (progress st) (Nzb.Bytes s)),
           None)
      end
  end.

(** How the segment loop ended: it ran to [p.Wait()], or it returned
    early on a cancelled context. *)
Inductive LoopEnd : Type :=
| Waited (poolErr : option string)
| ReturnedEarly.

(** The loop over [file.Segments] under the schedule in which every task
    finishes before the next one is submitted (the schedule of
    [DownloadWorkers = 1]). [poolErr] is the first error a task returned;
    once it is set the pool's context is cancelled and the fetches of the
    later tasks come back as [context.Canceled]. *)
Fixpoint segmentLoop (bodyOf : string -> BodyResult) (hasCh ctxDone : bool)
         (f : Nzb.NzbFile) (todo : list Nzb.NzbSegment) (st : State)
         (poolErr : option string) : State * LoopEnd :=
  match todo with
  | [] => (st, Waited poolErr)
  | s :: rest =>
      if cancelled st || ctxDone then (st, ReturnedEarly)
      else
        match poolErr with
        | Some _ =>
            let r := segmentTask (fun _ => BodyCanceled) hasCh f st s in
            segmentLoop bodyOf hasCh ctxDone f rest (fst r) poolErr
        | None =>
            let r := segmentTask bodyOf hasCh f st s in
            segmentLoop bodyOf hasCh ctxDone f rest (fst r) (snd r)
        end
  end.

(** What a call of [downloadWorker] left behind. *)
Record Result : Type := mkResult {
  created : bool;             (* the file was created by this call *)
  final : State;
  ret : option string         (* the returned error *)
}.

Definition initial (f : Nzb.NzbFile) : State :=
  mkState [] [] [] (Nzb.Segments f) false false 0.

(** [downloadWorker]: [exists] is the outcome of [os.Stat(filePath)],
    [createErr] and [closeErr] those of [os.Create] and [fileWriter.Close]. *)
Definition downloadWorker (exists_ : bool) (createErr closeErr : option string)
           (bodyOf : string -> BodyResult) (hasCh ctxDone : bool)
           (f : Nzb.NzbFile) : Result :=
  if exists_ then mkResult false (initial f) None
  else
    match createErr with
    | Some e => mkResult false (initial f) (Some ("failed to create file: " +:+ e))
    | None =>
        match segmentLoop bodyOf hasCh ctxDone f (Nzb.Segments f) (initial f) None with
        | (st, ReturnedEarly) => mkResult true st None
        | (st, Waited (Some e)) => mkResult true st (Some e)
        | (st, Waited None) => mkResult true st closeErr
        end
    end.

(** The addressing the specification describes: the observed size is the
    body length of the first segment actually downloaded, and segment [n]
    belongs at [(n - 1) * observed size]. *)
Fixpoint observedSize (bodyOf : string -> BodyResult)
         (segs : list Nzb.NzbSegment) : option Z :=
  match segs with
  | [] => None
  | s :: rest =>
      match bodyOf (Nzb.Id s) with
      | BodyOk buff => Some (len buff)
      | _ => observedSize bodyOf rest
      end
  end.

Definition specOffset (observed : Z) (s : Nzb.NzbSegment) : Z :=
  (Nzb.Number s - 1) * observed.

End Download.

(** ** Reading back from a file *)

Module FileIO.

(** [ReadAt(b, off)] of an [os.File] with [len(b) = n], on the bytes of
    the file: the bytes read, or the error ([io.EOF] when the file ends
    before [n] bytes were read). *)
Definition ReadAt (content : list ascii) (n : nat) (off : Z) : result (list ascii) :=
  if off <? 0 then Err "negative offset"
  else
    let got := take n (drop (Z.to_nat off) content) in
    if (length got <? n)%nat then Err "EOF" else Ok got.

End FileIO.

(** ** strings: suffixes *)

Module Strings.

(** [strings.HasSuffix]:
    [len(s) >= len(suffix) && s[len(s)-len(suffix):] == suffix]. *)
Definition HasSuffix (s suffix : string) : bool :=
  (String.length suffix <=? String.length s)%nat &&
  String.eqb (substring (String.length s - String.length suffix)
                        (String.length suffix) s) suffix.

(** [strings.TrimSuffix]. *)
Definition TrimSuffix (s suffix : string) : string :=
  if HasSuffix s suffix
  then substring 0 (String.length s - String.length suffix) s
  else s.

End Strings.

(** ** pkg/par2exedownloader *)

Module Par2Downloader.

Record Asset : Type := mkAsset {
  Name : string;
  BrowserDownloadURL : string
}.

(** The two nested switches of [findAssetForSystem]. *)
Definition assetNameFor (goos goarch : string) : result string :=
  if String.eqb goos "linux" then
    if String.eqb goarch "amd64" then Ok "linux-amd64.xz"
    else if String.eqb goarch "arm64" then Ok "linux-arm64.xz"
    else if String.eqb goarch "arm" then Ok "linux-armhf.xz"
    else Err ("unsupported architecture: " +:+ goarch)
  else if String.eqb goos "darwin" then
    if String.eqb goarch "amd64" then Ok "macos-x64.xz"
    else if String.eqb goarch "arm64" then Ok "macos-arm64.xz"
    else Err ("unsupported architecture: " +:+ goarch)
  else if String.eqb goos "windows" then
    if String.eqb goarch "amd64" then Ok "win-x64.zip"
    else if String.eqb goarch "386" then Ok "win-x86.zip"
    else if String.eqb goarch "arm64" then Ok "win-arm64.zip"
    else Err ("unsupported architecture: " +:+ goarch)
  else Err ("unsupported operating system: " +:+ goos).

(** The loop over [release.Assets]. *)
Fixpoint firstWithSuffix (assets : list Asset) (assetName : string) : option Asset :=
  match assets with
  | [] => None
  | asset :: rest =>
      if Strings.HasSuffix (Name asset) assetName then Some asset
      else firstWithSuffix rest assetName
  end.

(** [findAssetForSystem(release, goos, goarch)], on the assets of the
    release. *)
Definition findAssetForSystem (assets : list Asset) (goos goarch : string)
  : result Asset :=
  match assetNameFor goos goarch with
  | Err e => Err e
  | Ok assetName =>
      match firstWithSuffix assets assetName with
      | Some asset => Ok asset
      | None => Err ("no asset found for " +:+ goos +:+ "/" +:+ goarch)
      end
  end.

(** [DownloadPar2Cmd()]: [fetchLatestRelease] is the outcome of the call
    of that name, [goos] and [goarch] are [runtime.GOOS] and
    [runtime.GOARCH], and [downloadFile filename url] is the error of
    [downloadFile], if any. *)
Definition DownloadPar2Cmd (fetchLatestRelease : result (list Asset))
           (goos goarch : string) (downloadFile : string -> string -> option string)
  : result string :=
  let executable := "par2cmd" in
  match fetchLatestRelease with
  | Err e => Err e
  | Ok release =>
      match findAssetForSystem release goos goarch with
      | Err e => Err e
      | Ok asset =>
          match downloadFile "par2cmd" (BrowserDownloadURL asset) with
          | Some e => Err e
          | None => Ok executable
          end
      end
  end.

End Par2Downloader.

(** ** internal/app: the output path of a single repair *)

Module SingleOutput.

(** The loop of [filepath.Ext], with [i = n - 1]:
    [for i := len(path) - 1; i >= 0 && !os.IsPathSeparator(path[i]); i--
       { if path[i] == '.' { return path[i:] } }; return ""]. *)
Fixpoint extLoop (path : string) (n : nat) : string :=
  match n with
  | O => ""
  | S i =>
      match String.get i path with
      | None => ""
      | Some c =>
          if Ascii.eqb c Filepath.Separator then ""
          else if Ascii.eqb c "." then substring i (String.length path - i) path
          else extLoop path i
      end
  end.

(** [filepath.Ext]. *)
Definition Ext (path : string) : string := extLoop path (String.length path).

(** What [os.Stat] reports about a path. *)
Inductive StatResult : Type :=
| StatDir
| StatFile
| StatNotExist
| StatError (msg : string).

(** [getSingleOutputFilePath(inputFile, outputFileOrDir)]; [quote] is
    [fmt]'s [%q] and [stat] is [os.Stat]. *)
Definition getSingleOutputFilePath (quote : string -> string)
           (stat : string -> StatResult) (inputFile outputFileOrDir : string)
  : result string :=
  if String.eqb outputFileOrDir "" then
    let ext := Ext inputFile in
    Ok (Strings.TrimSuffix inputFile ext +:+ "_repaired" +:+ ext)
  else
    match stat outputFileOrDir with
    | StatNotExist =>
        let parentDir := Filepath.Dir outputFileOrDir in
        match stat parentDir with
        | StatNotExist =>
            Err ("output directory " +:+ quote parentDir +:+ " does not exist")
        | StatError e =>
            Err ("failed to stat output directory " +:+ quote parentDir +:+ ": " +:+ e)
        | _ => Ok outputFileOrDir
        end
    | StatError e =>
        Err ("failed to stat output path " +:+ quote outputFileOrDir +:+ ": " +:+ e)
    | StatDir => Ok (Filepath.Join [outputFileOrDir; Filepath.Base inputFile])
    | StatFile => Ok outputFileOrDir
    end.

End SingleOutput.

(** ** Shapes of paths *)

Module PathShape.

Fixpoint hasSeparator (s : string) : bool :=
  match s with
  | EmptyString => false
  | String c rest => Ascii.eqb c Filepath.Separator || hasSeparator rest
  end.

(** A path element that names an entry: not empty, not ".", not "..",
    and without a separator. *)
Definition isName (e : string) : bool :=
  negb (String.eqb e "") && negb (String.eqb e ".") && negb (String.eqb e "..")
  && negb (hasSeparator e).

(** [p] is the path [rel] taken from the clean directory [dir]. *)
Definition under (dir rel p : string) : Prop :=
  (dir = "." /\ p = rel) \/
  (dir = "/" /\ p = "/" +:+ rel) \/
  p = dir +:+ "/" +:+ rel.

(** The stack [Clean] keeps for a path that is not rooted: names on top
    of a run of ".." elements. *)
Definition shaped (stack : list string) : Prop :=
  exists names ups,
    stack = names ++ ups /\
    Forall (fun e => isName e = true) names /\
    Forall (fun e => e = "..") ups.

End PathShape.

(** ** internal/repairnzb: message ids *)

Module MessageID.

Definition charset : string :=
  "ABCDEFGHIJKLMNOPQRSTUVWXYZabcdefghijklmnopqrstuvwxyz0123456789".

(** The loop [for i := range result { result[i] = charset[seededRand.Intn(len(charset))] }]
    from index [i] on, [size] bytes to go; [intn k] is what the [k]-th
    call of [Intn] on the generator returns. An index outside the
    charset panics ([None]). *)
Fixpoint fill (intn : nat -> nat) (i size : nat) : option string :=
  match size with
  | O => Some EmptyString
  | S n =>
      match String.get (intn i) charset with
      | None => None
      | Some c =>
          match fill intn (S i) n with
          | None => None
          | Some rest => Some (String c rest)
          end
      end
  end.

(** [generateRandomString(size)] with the generator seeded by the clock
    reading [seed]; [stream seed] is the sequence that generator draws. *)
Definition generateRandomString (stream : Z -> nat -> nat) (seed : Z) (size : nat)
  : option string :=
  fill (stream seed) 0 size.

(** [generateRandomMessageID()]; [t1], [t2] and [t3] are the readings of
    [time.Now().UnixNano()] in the three calls. *)
Definition generateRandomMessageID (stream : Z -> nat -> nat) (t1 t2 t3 : Z)
  : option string :=
  match generateRandomString stream t1 32 with
  | None => None
  | Some a =>
      match generateRandomString stream t2 8 with
      | None => None
      | Some b =>
          match generateRandomString stream t3 3 with
          | None => None
          | Some c => Some (a +:+ "@" +:+ b +:+ "." +:+ c)
          end
      end
  end.

(** An ASCII letter or digit. *)
Definition isAlnum (c : ascii) : bool :=
  let n := nat_of_ascii c in
  ((65 <=? n) && (n <=? 90) || (97 <=? n) && (n <=? 122) || (48 <=? n) && (n <=? 57))%nat.

Fixpoint allAlnum (s : string) : bool :=
  match s with
  | EmptyString => true
  | String c rest => isAlnum c && allAlnum rest
  end.

End MessageID.

(** ** internal/repairnzb: splitting the output of par2 into lines *)

Module Scanner.

Definition cr : ascii := ascii_of_nat 13.
Definition lf : ascii := ascii_of_nat 10.

Definition isLineEnd (c : ascii) : bool := Ascii.eqb c cr || Ascii.eqb c lf.

(** [bytes.IndexAny(data, "\r\n")]: the index of the first carriage
    return or line feed. *)
Fixpoint IndexAny (data : list ascii) : option nat :=
  match data with
  | [] => None
  | c :: rest => if isLineEnd c then Some 0%nat else option_map S (IndexAny rest)
  end.

Definition byteIs (data : list ascii) (i : nat) (c : ascii) : bool :=
  match data !! i with
  | Some b => Ascii.eqb b c
  | None => false
  end.

(** [scanLines(data, atEOF)]: the advance and the token ([None] for a nil
    token); the error is always nil. *)
Definition scanLines (data : list ascii) (atEOF : bool) : nat * option (list ascii) :=
  if atEOF && (length data =? 0)%nat then (0%nat, None)
  else
    match IndexAny data with
    | Some i =>
        if byteIs data i lf then ((i + 1)%nat, Some (take i data))
        else
          let advance := (i + 1)%nat in
          let advance :=
            if (i + 1 <? length data)%nat && byteIs data (i + 1) lf
            then (advance + 1)%nat else advance in
          (advance, Some (take i data))
    | None => if atEOF then (length data, Some data) else (0%nat, None)
    end.

End Scanner.

(** ** internal/repairnzb: posting the repaired segments *)

Module Upload.

Import Nzb.

(** How a task ended: with nil, with an error, or in a panic. *)
Inductive TaskEnd : Type :=
| TaskDone
| TaskError (msg : string)
| TaskPanic (msg : string).

(** What the tasks of one file share. *)
Record State : Type := mkState {
  segments : list NzbSegment;          (* the array behind [nzbFile.Segments] *)
  posted : list Article.articleData;   (* the articles [Post] accepted *)
  drawn : nat;                         (* message ids generated so far *)
  texts : nat                          (* calls of [rand.Text] so far *)
}.

Definition quoteMark : string := String (ascii_of_nat 34) EmptyString.

(** The subject line [fmt.Sprintf] builds for a segment. *)
Definition subjectOf (totalFiles : Z) (s : Download.brokenSegment) : string :=
  "[" +:+ Fmt.d (FileNumber (Download.file s)) +:+ "/" +:+ Fmt.d totalFiles
      +:+ "] " +:+ Filename (Download.file s) +:+ " - " +:+ quoteMark +:+ quoteMark
      +:+ " yEnc (" +:+ Fmt.d (Number (Download.segment s)) +:+ "/"
      +:+ Fmt.d (TotalSegments (Download.file s)) +:+ ")".

Definition setId (s : NzbSegment) (id : string) : NzbSegment :=
  mkSegment (Bytes s) (Number s) id.

(** The index [s.segment.Number-1] of the assignment to [nzbFile.Segments]. *)
Definition slot (s : Download.brokenSegment) : nat :=
  Z.to_nat (Number (Download.segment s) - 1).

Inductive Outcome : Type :=
| Finished (st : State) (err : option string)
| Panicked (msg : string).

Section Task.

(** [content] holds the bytes of the opened file, [policy] is
    [cfg.Upload.ObfuscationPolicy], [totalFiles] is [nzb.TotalFiles],
    [UnixMilli] is [time.UnixMilli], [msgId k] is the [k]-th message id
    generated, [randText k] the [k]-th result of [rand.Text] and [post]
    the error of [uploadPool.Post], if any. *)
Variable content : list ascii.
Variable policy : Config.ObfuscationPolicy.
Variable totalFiles : Z.
Variable nzbFile : NzbFile.
Variable UnixMilli : Z -> Z.
Variable msgId : nat -> string.
Variable randText : nat -> string.
Variable post : Article.articleData -> option string.

Definition fileSize : Z := Z.of_nat (length content).

Definition obfuscated : bool :=
  negb (String.eqb policy Config.ObfuscationPolicyNone).

(** The [articleData] literal of the task, for the bytes [buff] read
    from the file. Not evaluated when the segment has no bytes (the
    division panics). *)
Definition article (st : State) (s : Download.brokenSegment) (buff : list ascii)
  : Article.articleData :=
  let seg := Download.segment s in
  let partSize := Bytes seg in
  Article.mkArticle
    (Number seg)
    (Z.quot fileSize partSize)
    partSize
    (GoInt.mul (Number seg - 1) (Bytes seg))
    (GoInt.mul (Number seg) (Bytes seg))
    (FileNumber (Download.file s))
    1
    fileSize
    (if obfuscated then randText (S (texts st)) else subjectOf totalFiles s)
    (Poster nzbFile)
    (Groups nzbFile)
    (msgId (drawn st))
    ""
    (if obfuscated then randText (texts st) else Filename (Download.file s))
    None
    (Some (UnixMilli (Date nzbFile)))
    (string_of_list_ascii buff).

(** The task [p.Go] runs for the broken segment [s], on a context that
    is not cancelled. *)
Definition uploadTask (st : State) (s : Download.brokenSegment) : State * TaskEnd :=
  let seg := Download.segment s in
  if Bytes seg <? 0 then (st, TaskPanic "makeslice: len out of range")
  else
    match FileIO.ReadAt content (Z.to_nat (Bytes seg))
                        (GoInt.mul (Number seg - 1) (Bytes seg)) with
    | Err e => (st, TaskError e)
    | Ok buff =>
        let st1 := mkState (segments st) (posted st) (S (drawn st))
                           (if obfuscated then S (S (texts st)) else texts st) in
        if Bytes seg =? 0 then (st1, TaskPanic "integer divide by zero")
        else
          let ar := article st s buff in
          match post ar with
          | Some e => (st1, TaskError e)
          | None =>
              let st2 := mkState (segments st1) (posted st1 ++ [ar])
                                 (drawn st1) (texts st1) in
              match (if Number seg - 1 <? 0 then None
                     else segments st2 !! slot s) with
              | None => (st2, TaskPanic "index out of range")
              | Some old =>
                  (mkState (<[slot s := setId old (msgId (drawn st))]> (segments st2))
                           (posted st2) (drawn st2) (texts st2),
                   TaskDone)
              end
          end
    end.

(** The loop over the broken segments of the file and [p.Wait()], task
    after task. Once a task has returned an error the context of the pool
    is cancelled and the later tasks return nil at once; a panic of a task
    resurfaces from [p.Wait()]. *)
Fixpoint uploadLoop (bs : list Download.brokenSegment) (st : State)
         (poolErr : option string) : Outcome :=
  match bs with
  | [] => Finished st poolErr
  | s :: rest =>
      match poolErr with
      | Some _ => uploadLoop rest st poolErr
      | None =>
          match uploadTask st s with
          | (st', TaskDone) => uploadLoop rest st' None
          | (st', TaskError e) => uploadLoop rest st' (Some e)
          | (_, TaskPanic m) => Panicked m
          end
      end
  end.

(** Every entry of the segment array is the entry of [segs] at its
    index, up to an id that is the Message-ID of a posted article for
    that part. *)
Definition accountedFor (segs : list NzbSegment) (st : State) : Prop :=
  map Number (segments st) = map Number segs /\
  map Bytes (segments st) = map Bytes segs /\
  forall (i : nat) new,
    segments st !! i = Some new ->
    segs !! i = Some new \/
    exists ar, In ar (posted st) /\ Article.MsgId ar = Id new /\
               Article.PartNum ar = Z.of_nat i + 1.

(** The segment can be read from the file and has a place in the array
    of [n] segments. *)
Definition uploadable (n : nat) (s : Download.brokenSegment) : Prop :=
  let seg := Download.segment s in
  0 < Bytes seg /\ 1 <= Number seg <= Z.of_nat n /\
  Number seg * Bytes seg <= fileSize /\ Number seg * Bytes seg <= GoInt.maxInt.

End Task.

End Upload.

(** ** internal/repairnzb: the repair of one manifest *)

Module RepairFlow.

Import Nzb.

(** The calls [RepairNzb] makes on the file system, the pools and the
    par2 driver. *)
Inductive Event : Type :=
| MkdirAll (path : string)
| Download (f : NzbFile) (withChannel : bool)
| Par2Repair (tmpDir : string)
| Upload
| Create (name : string)
| WriteFile (name : string) (data : string)
| RemoveAll (path : string).

(** What the surroundings answer. [cancelled k] says that the [k]-th
    call of [ctx.Err()] reports an error; [mkdirAll] gives the error of
    [os.MkdirAll], if any, with the value of [errors.Is(err, os.ErrExist)];
    [brokenFiles] is [len(brokenSegments)] when it is read; [upload] is
    [replaceBrokenSegments], which rewrites the manifest it is given. *)
Record Env : Type := mkEnv {
  openErr : option string;
  parse : result NzbT;
  cancelled : nat -> bool;
  mkdirAll : string -> option (string * bool);
  brokenFiles : nat;
  upload : NzbT -> NzbT * option string;
  write : NzbT -> result string;
  create : string -> option string;
  fileWrite : string -> string -> option string
}.

(** A download loop: [downloadWorker] for every file, unless the context
    is found cancelled first. Returns the calls made and, when the loop
    ran to its end, the number of [ctx.Err()] calls made so far. *)
Fixpoint downloadAll (env : Env) (withChannel : bool) (fs : list NzbFile) (k : nat)
  : list Event * option nat :=
  match fs with
  | [] => ([], Some k)
  | f :: rest =>
      if cancelled env k then ([], None)
      else
        let r := downloadAll env withChannel rest (S k) in
        (Download f withChannel :: fst r, snd r)
  end.

(** The name of the manifest to write. *)
Definition outputName (nzbFile outputFile : string) (firstFile : NzbFile) : string :=
  if String.eqb outputFile "" then
    Filepath.Join [Filepath.Dir nzbFile; Basefilename firstFile +:+ ".repaired.nzb"]
  else outputFile.

(** The part of [RepairNzb] after the downloads of the par2 files. *)
Definition repairAndWrite (env : Env) (nzb : NzbT) (firstFile : NzbFile)
           (nzbFile outputFile tmpDir : string) : list Event * option string :=
  match upload env nzb with
  | (_, Some e) => ([Par2Repair tmpDir; Upload], Some e)
  | (nzb', None) =>
      let nzbFileName := outputName nzbFile outputFile firstFile in
      let outputDirPath := Filepath.Dir nzbFileName in
      let start := [Par2Repair tmpDir; Upload; MkdirAll outputDirPath] in
      match mkdirAll env outputDirPath with
      | Some (e, false) => (start, Some e)
      | _ =>
          match write env nzb' with
          | Err e => (start, Some e)
          | Ok b =>
              match create env nzbFileName with
              | Some e => (start ++ [Create nzbFileName], Some e)
              | None =>
                  (start ++ [Create nzbFileName; WriteFile nzbFileName b],
                   fileWrite env nzbFileName b)
              end
          end
      end
  end.

(** [RepairNzb]: the calls made, in order, and the error returned. *)
Definition RepairNzb (env : Env) (nzbFile outputFile tmpDir : string)
  : list Event * option string :=
  match openErr env with
  | Some e => ([], Some e)
  | None =>
      match parse env with
      | Err e => ([], Some e)
      | Ok nzb =>
          let split := Par2.splitParWithRest nzb in
          match fst split, snd split with
          | [], _ => ([], None)
          | _, [] => ([], None)
          | parFiles, firstFile :: _ =>
              let restFiles := snd split in
              match mkdirAll env tmpDir with
              | Some (e, false) => ([MkdirAll tmpDir], Some e)
              | _ =>
                  let cleanup := [RemoveAll tmpDir] in
                  let d := downloadAll env true restFiles 0 in
                  let start := MkdirAll tmpDir :: fst d in
                  match snd d with
                  | None => (start ++ cleanup, None)
                  | Some k =>
                      if cancelled env k then (start ++ cleanup, None)
                      else if (brokenFiles env =? 0)%nat then (start ++ cleanup, None)
                      else
                        let p := downloadAll env false parFiles (S k) in
                        match snd p with
                        | None => (start ++ fst p ++ cleanup, None)
                        | Some _ =>
                            let r := repairAndWrite env nzb firstFile nzbFile
                                                    outputFile tmpDir in
                            (start ++ fst p ++ fst r ++ cleanup, snd r)
                        end
                  end
              end
          end
      end
  end.

End RepairFlow.

(** ** What defaulting keeps of a provider *)

Module ConfigShape.

Import Config.

(** The two providers name the same server and credentials. *)
Definition sameServer (p q : Provider) : Prop :=
  Host p = Host q /\ Port p = Port q /\ Username p = Username q /\
  Password p = Password q /\ TLS p = TLS q.

(** Both defaulted fields of a provider are set. *)
Definition provisioned (p : Provider) : Prop :=
  MaxConnections p <> 0 /\ MaxConnectionIdleTimeInSeconds p <> 0.

End ConfigShape.

(** ** What a fetch left behind *)

Module DownloadOutcome.

Import Download.

(** The fetch ended in [nntppool.ErrArticleNotFoundInProviders]. *)
Definition isNotFound (r : BodyResult) : bool :=
  match r with BodyNotFound _ => true | _ => false end.

(** The body a successful fetch hands to [WriteAt]. *)
Definition fetchedBody (r : BodyResult) : option string :=
  match r with BodyOk b => Some b | _ => None end.

(** The bodies [downloadWorker] writes for the segments [segs], in order. *)
Definition bodiesOf (bodyOf : string -> BodyResult) (segs : list Nzb.NzbSegment)
  : list string :=
  omap (fun s => fetchedBody (bodyOf (Nzb.Id s))) segs.

(** Segment [s] was fetched, with a body of [L] bytes, and its offset
    fits a Go [int]. *)
Definition fetched (bodyOf : string -> BodyResult) (L : nat) (s : Nzb.NzbSegment)
  : Prop :=
  (exists buff, bodyOf (Nzb.Id s) = BodyOk buff /\ String.length buff = L) /\
  1 <= Nzb.Number s /\ (Nzb.Number s - 1) * Z.of_nat L <= GoInt.maxInt.

(** The bytes of every segment in [done] can be read at its place. *)
Definition placed (bodyOf : string -> BodyResult) (L : nat)
           (content : list ascii) (done : list Nzb.NzbSegment) : Prop :=
  forall s buff (i : nat),
    In s done -> bodyOf (Nzb.Id s) = BodyOk buff -> (i < L)%nat ->
    content !! (Z.to_nat ((Nzb.Number s - 1) * Z.of_nat L) + i)%nat
    = list_ascii_of_string buff !! i.

End DownloadOutcome.

(** ** The header names the article codec sets itself *)

Module ArticleShape.

Definition ownHeaders : list string :=
  ["Subject"; "From"; "Newsgroups"; "Message-ID"; "X-Nxg"; "Date"].

(** The custom headers of an article; a nil map has none. *)
Definition customOf (a : Article.articleData) : gmap string string :=
  match Article.CustomHeaders a with
  | Some custom => custom
  | None => ∅
  end.

(** The time the Date header shows. *)
Definition dateOf (now : Z) (a : Article.articleData) : Z :=
  match Article.Date a with
  | Some t => t
  | None => now
  end.

End ArticleShape.

(** ** internal/queue: the remaining operations *)

Module QueueOps.

Import Queue.

(** What [GetNextJob] returns: the sentinel [sql.ErrNoRows], another
    error, or the job. *)
Inductive NextJob : Type :=
| NoRows
| NextFailed (msg : string)
| Next (job : Job).

Definition isPending (j : Job) : bool := String.eqb (Status j) StatusPending.

(** [ORDER BY created_at ASC LIMIT 1] over the candidate rows: the least
    [created_at], the earliest row of the table among equal ones. *)
Fixpoint oldest (best : Job) (rs : list Job) : Job :=
  match rs with
  | [] => best
  | r :: rest =>
      if CreatedAt r <? CreatedAt best then oldest r rest else oldest best rest
  end.

(** [SELECT ... FROM jobs WHERE status = ? ORDER BY created_at ASC LIMIT 1]. *)
Definition selectOldestPending (rs : list Job) : option Job :=
  match List.filter isPending rs with
  | [] => None
  | r :: rest => Some (oldest r rest)
  end.

(** [SET status = ?, updated_at = ?] *)
Definition setProcessing (now : Z) (j : Job) : Job :=
  mkJob (ID j) (FilePath j) (RelativePath j) StatusProcessing (ErrorMsg j)
        (RetryCount j) (CreatedAt j) now.

(** The [Job] handed to the caller: the scanned columns ([retry_count] is
    not among them and stays at the zero value), with the status
    overwritten after the commit. *)
Definition scannedJob (row : Job) : Job :=
  mkJob (ID row) (FilePath row) (RelativePath row) StatusProcessing
        (ErrorMsg row) 0 (CreatedAt row) (UpdatedAt row).

(** [func (q *Queue) GetNextJob()], returning a job and an error. *)
Definition GetNextJob (flt : Faults) (t : Table) (now : Z) : Table * NextJob :=
  match beginErr flt with
  | Some e => (t, NextFailed ("failed to begin transaction: " +:+ e))
  | None =>
      match queryErr flt with
      | Some e => (t, NextFailed ("failed to scan job row: " +:+ e))
      | None =>
          match selectOldestPending (rows t) with
          | None => (t, NoRows)
          | Some row =>
              match execErr flt with
              | Some e =>
                  (t, NextFailed ("failed to update job status to processing: " +:+ e))
              | None =>
                  match commitErr flt with
                  | Some e => (t, NextFailed ("failed to commit transaction: " +:+ e))
                  | None =>
                      (updateByID t (ID row) (setProcessing now),
                       Next (scannedJob row))
                  end
              end
          end
      end
  end.

Definition isProcessing (j : Job) : bool := String.eqb (Status j) StatusProcessing.

(** [SET status = ?, updated_at = ?] with the pending status. *)
Definition setPending (now : Z) (j : Job) : Job :=
  mkJob (ID j) (FilePath j) (RelativePath j) StatusPending (ErrorMsg j)
        (RetryCount j) (CreatedAt j) now.

(** [func (q *Queue) CleanupProcessingJobs() (int64, error)];
    [rowsAffectedErr] is the error of [result.RowsAffected()]. *)
Definition CleanupProcessingJobs (flt : Faults) (rowsAffectedErr : option string)
           (t : Table) (now : Z) : Table * Z * option string :=
  match execErr flt with
  | Some e => (t, 0, Some ("failed to update processing jobs to failed: " +:+ e))
  | None =>
      let t' := mkTable (map (fun j => if isProcessing j then setPending now j else j)
                             (rows t))
                        (lastID t) in
      match rowsAffectedErr with
      | Some _ => (t', 0, None)
      | None => (t', Z.of_nat (length (List.filter isProcessing (rows t))), None)
      end
  end.

(** [WHERE status = ? AND retry_count >= ?] with the failed status. *)
Definition exceeded (maxRetries : Z) (j : Job) : bool :=
  String.eqb (Status j) StatusFailed && (maxRetries <=? RetryCount j).

(** The file part of [filepath.Split]: what follows the last separator. *)
Definition splitFile (path : string) : string :=
  match rev (Filepath.elements path) with
  | [] => ""
  | e :: _ => e
  end.

(** [SET status = 'moved', updated_at = datetime('now')]. *)
Definition setMoved (now : Z) (j : Job) : Job :=
  mkJob (ID j) (FilePath j) (RelativePath j) StatusMoved (ErrorMsg j)
        (RetryCount j) (CreatedAt j) now.

Section MoveFailedFiles.

(** The file system is any state [World] with [os.MkdirAll] and
    [os.Rename] acting on it; [updateErr id] is the error, if any, of the
    status update of job [id], [scanErr id] that of [rows.Scan] on the row
    of job [id], and [iterErr = Some (n, e)] says that [rows.Next] stops
    after [n] rows with the error [e], which [rows.Err] then reports. *)
Variable World : Type.
Variable mkdirAll : World -> string -> result World.
Variable rename : World -> string -> string -> result World.
Variable updateErr : Z -> option string.
Variable scanErr : Z -> option string.
Variable iterErr : option (nat * string).

(** The loop over the rows of the query; [renamed] logs the successful
    renames. A row that cannot be scanned ends the call with that error;
    a rename or an update that fails is logged and the loop goes on. *)
Fixpoint moveLoop (brokenFolder : string) (now : Z) (found : list Job)
         (w : World) (t : Table) (renamed : list (string * string))
         (movedCount : Z)
  : World * Table * list (string * string) * Z * option string :=
  match found with
  | [] => (w, t, renamed, movedCount, None)
  | job :: rest =>
      match scanErr (ID job) with
      | Some e =>
          (w, t, renamed, movedCount, Some ("failed to scan job row: " +:+ e))
      | None =>
          let filename := splitFile (FilePath job) in
          if String.eqb filename "" then
            moveLoop brokenFolder now rest w t renamed movedCount
          else
            let destPath := Filepath.Join [brokenFolder; filename] in
            match rename w (FilePath job) destPath with
            | Err _ => moveLoop brokenFolder now rest w t renamed movedCount
            | Ok w' =>
                let renamed' := renamed ++ [(FilePath job, destPath)] in
                match updateErr (ID job) with
                | Some _ => moveLoop brokenFolder now rest w' t renamed' movedCount
                | None =>
                    moveLoop brokenFolder now rest w'
                             (updateByID t (ID job) (setMoved now)) renamed'
                             (movedCount + 1)
                end
            end
      end
  end.

(** [func (q *Queue) MoveFailedFiles(maxRetries int64, brokenFolder string) (int64, error)]:
    the world and the table after the call, the renames done, the count
    and the error returned. *)
Definition MoveFailedFiles (flt : Faults) (w : World) (t : Table)
           (maxRetries : Z) (brokenFolder : string) (now : Z)
  : World * Table * list (string * string) * Z * option string :=
  match mkdirAll w brokenFolder with
  | Err e => (w, t, [], 0, Some ("failed to create broken folder: " +:+ e))
  | Ok w1 =>
      match queryErr flt with
      | Some e => (w1, t, [], 0, Some ("failed to query failed jobs: " +:+ e))
      | None =>
          let found := List.filter (exceeded maxRetries) (rows t) in
          match iterErr with
          | None => moveLoop brokenFolder now found w1 t [] 0
          | Some (n, e) =>
              match moveLoop brokenFolder now (take n found) w1 t [] 0 with
              | (r, Some scanned) => (r, Some scanned)
              | (r, None) => (r, Some ("error iterating failed jobs: " +:+ e))
              end
          end
      end
  end.

End MoveFailedFiles.

(** Where the sweep puts the file of the job [j]. *)
Definition destOf (brokenFolder : string) (j : Job) : string :=
  Filepath.Join [brokenFolder; splitFile (FilePath j)].

(** What the sweep may have done to a row [j] of the table it started
    from, given the log of renames: nothing, or the move. *)
Definition swept (brokenFolder : string) (now maxRetries : Z)
           (renamed : list (string * string)) (j : Job) (after : option Job)
  : Prop :=
  after = Some j \/
  (after = Some (setMoved now j) /\
   exceeded maxRetries j = true /\
   splitFile (FilePath j) <> "" /\
   In (FilePath j, destOf brokenFolder j) renamed).

(** The integrity constraints of the table: [id] is the primary key,
    [filepath] is UNIQUE, and AUTOINCREMENT has handed out every id. *)
Definition wellFormed (t : Table) : Prop :=
  NoDup (map ID (rows t)) /\
  NoDup (map FilePath (rows t)) /\
  Forall (fun j => ID j <= lastID t) (rows t).

End QueueOps.

(** ** internal/app: one turn of the repair worker *)

Module Worker.

Import Queue QueueOps.

(** What one tick of the worker did. *)
Inductive Turn : Type :=
| Idle                                   (* sql.ErrNoRows *)
| QueueError (msg : string)              (* GetNextJob failed *)
| PathRejected (job : Job) (msg : string)
| RepairFailed (job : Job) (msg : string)
| Repaired (job : Job) (output : string).

(** The body of [case <-workerTicker.C:] in [RunWatcher]. [repairNzb] is
    the call of [repairnzb.RepairNzb] with the job's input file, output
    file and working directory; the three instants are the clock readings
    of the three queue calls. *)
Definition workerTurn (quote : string -> string)
           (mkdirAll : string -> option string)
           (repairNzb : string -> string -> string -> option string)
           (flt : Faults) (now1 now2 : Z)
           (outputBaseDir absTmpDir : string) (dbQueue : Table)
  : Table * Turn :=
  match GetNextJob flt dbQueue now1 with
  | (q, NoRows) => (q, Idle)
  | (q, NextFailed e) => (q, QueueError e)
  | (q, Next job) =>
      match App.calculateJobOutputPath quote mkdirAll flt now2 outputBaseDir job q with
      | (q', _, Err e) => (q', PathRejected job e)
      | (q', _, Ok outputFilePath) =>
          let tmpDir := Filepath.Join [absTmpDir; Filepath.Base (FilePath job)] in
          match repairNzb (FilePath job) outputFilePath tmpDir with
          | Some errMsg =>
              (fst (UpdateJobStatus flt q' (ID job) StatusFailed errMsg now2),
               RepairFailed job errMsg)
          | None =>
              (fst (UpdateJobStatus flt q' (ID job) StatusCompleted "" now2),
               Repaired job outputFilePath)
          end
      end
  end.

End Worker.

(** ** The state of the queue between two turns of the worker *)

Module QueueInvariant.

(** No job is marked as being processed. *)
Definition noneProcessing (t : Queue.Table) : Prop :=
  Forall (fun j => Queue.Status j <> Queue.StatusProcessing) (Queue.rows t).

End QueueInvariant.

(** ** Sample data used to exercise the statements *)

Module Samples.

Import Config Queue Download.

Definition sampleProvider (conns : Z) : Provider :=
  mkProvider "news.example.com" 563 "user" "secret" conns 0 true.

Definition sampleConfig : Config :=
  mkConfig 0 0 "" [sampleProvider 0; sampleProvider 20] [sampleProvider 5] ""
           (mkUploadConfig "") 0 0 "".

Definition sampleJob (status : JobStatus) : Job :=
  mkJob 1 "/watch/a.nzb" "a.nzb" status (Some "boom") 2 100 200.

Definition sampleTable (status : JobStatus) : Table :=
  mkTable [sampleJob status] 1.

(** [%q] on a string that needs no escaping. *)
Definition goQuote (s : string) : string :=
  String (ascii_of_nat 34) (s +:+ String (ascii_of_nat 34) EmptyString).

Definition sampleFile : Nzb.NzbFile :=
  Nzb.mkFile ["alt.binaries.test"]
             [Nzb.mkSegment 3 1 "part1@test"; Nzb.mkSegment 3 2 "part2@test"]
             "poster@example.com" 1678886400 1 "test.bin" "test" 2 5.

Definition sampleBodies (id : string) : BodyResult :=
  if String.eqb id "part1@test" then BodyOk "abc"
  else if String.eqb id "part2@test" then BodyOk "de"
  else BodyNotFound "".

End Samples.

(** ** More sample data *)

Module MoreSamples.

Import Queue.

Definition twoJobs : Table :=
  mkTable [mkJob 1 "/watch/a.nzb" "a.nzb" StatusPending None 4 200 200;
           mkJob 2 "/watch/b.nzb" "b.nzb" StatusPending None 0 100 100] 2.

(** A job that has failed three times. *)
Definition exhaustedTable : Table :=
  mkTable [mkJob 1 "/watch/a.nzb" "a.nzb" StatusFailed (Some "boom") 3 100 200;
           mkJob 2 "/watch/sub/b.nzb" "sub/b.nzb" StatusFailed (Some "boom") 1 110 210] 2.

(** A file system that accepts every call. *)
Definition obliging (w : unit) (path : string) : result unit := Ok w.
Definition obligingRename (w : unit) (src dst : string) : result unit := Ok w.

(** A file of two segments listed in reverse, and fetches that return
    three bytes each; fetches that lose the second segment; fetches that
    fail on the first. *)
Definition reversedFile : Nzb.NzbFile :=
  Nzb.mkFile ["alt.binaries.test"]
             [Nzb.mkSegment 3 2 "part2@test"; Nzb.mkSegment 3 1 "part1@test"]
             "poster@example.com" 1678886400 1 "test.bin" "test" 2 6.

Definition evenBodies (id : string) : Download.BodyResult :=
  if String.eqb id "part1@test" then Download.BodyOk "abc"
  else if String.eqb id "part2@test" then Download.BodyOk "def"
  else Download.BodyNotFound "".

Definition lossyBodies (id : string) : Download.BodyResult :=
  if String.eqb id "part1@test" then Download.BodyOk "abc"
  else Download.BodyNotFound "".

Definition failingBodies (id : string) : Download.BodyResult :=
  if String.eqb id "part1@test" then Download.BodyFailed "connection reset"
  else Download.BodyOk "de".

(** The assets of a release of par2cmdline-turbo. *)
(** The repaired file, its second segment reported broken, and the
    message ids and the server of an upload that goes well. *)
Definition repairedContent : list ascii := list_ascii_of_string "abcdef".

Definition brokenSecond : Download.brokenSegment :=
  Download.mkBroken (Nzb.mkSegment 3 2 "part2@test") Samples.sampleFile.

Definition freshIds (k : nat) : string :=
  if (k =? 0)%nat then "first@new.id" else "later@new.id".

Definition accepting (ar : Article.articleData) : option string := None.

(** A manifest with a par2 file and a payload file, and surroundings in
    which nothing fails and one file has broken segments. *)
Definition sampleManifest : Nzb.NzbT :=
  Nzb.mkNzb [Samples.sampleFile;
             Nzb.mkFile ["alt.binaries.test"] [Nzb.mkSegment 3 1 "par@test"]
                        "poster@example.com" 1678886400 2 "test.par2" "test" 1 3] 2.

Definition calmEnv : RepairFlow.Env :=
  RepairFlow.mkEnv None (Ok sampleManifest) (fun _ => false) (fun _ => None) 1
                   (fun nzb => (nzb, None)) (fun _ => Ok "<nzb/>") (fun _ => None)
                   (fun _ _ => None).

Definition sampleRelease : list Par2Downloader.Asset :=
  [Par2Downloader.mkAsset "par2cmdline-turbo-1.2.0-win-x64.zip" "https://example.com/win";
   Par2Downloader.mkAsset "par2cmdline-turbo-1.2.0-linux-amd64.xz" "https://example.com/linux";
   Par2Downloader.mkAsset "par2cmdline-turbo-1.2.0-linux-arm64.xz" "https://example.com/arm"].

End MoreSamples.

(** ** The specification's wording, for comparison with the code *)

Module Wording.

(** [strings.Contains]. *)
Fixpoint Contains (s substr : string) : bool :=
  String.prefix substr s
  || match s with
     | EmptyString => false
     | String _ rest => Contains rest substr
     end.

Fixpoint lower (s : string) : string :=
  match s with
  | EmptyString => EmptyString
  | String c rest => String (Regexp.toLower c) (lower rest)
  end.

(** "a file whose name ends in .par2 (case-insensitive)". *)
Definition endsInPar2 (name : string) : bool :=
  let l := lower name in
  let n := String.length l in
  (5 <=? n)%nat && String.eqb (String.substring (n - 5) 5 l) ".par2".

(** The IEEE CRC32 by its bit-serial definition: every byte is xored into
    the low end of the register, which is then shifted out bit by bit,
    the reversed polynomial being xored in for every 1 that leaves; the
    register starts as all ones and is complemented at the end. *)
Fixpoint crcBitSerial (crc : Z) (p : string) : Z :=
  match p with
  | EmptyString => crc
  | String v rest =>
      crcBitSerial
        (Nat.iter 8 (CRC32.shiftStep CRC32.IEEE) (Z.lxor crc (CRC32.byteOf v)))
        rest
  end.

Definition ieeeCRC32 (p : string) : Z :=
  Z.lxor (crcBitSerial CRC32.mask32 p) CRC32.mask32.

(** No byte of [s] is a newline. *)
Fixpoint noNewline (s : string) : bool :=
  match s with
  | EmptyString => true
  | String c rest => negb (Ascii.eqb c "010"%char) && noNewline rest
  end.

(** The exit-code table as the specification words it. *)
Definition exitCodeNames : gmap Z string :=
  list_to_map
    [ (1, "Repair possible");
      (2, "Repair not possible");
      (3, "Bad arguments");
      (4, "Insufficient critical data");
      (5, "Repair failed");
      (6, "File I/O error");
      (7, "Logic error");
      (8, "Out of memory") ].

End Wording.

(** * Properties *)

(** ** Machine integers *)

Module GoIntFacts.

Import GoInt.

Lemma wrap_inRange z : inRange (wrap z).
Proof.
  unfold inRange, wrap, minInt, maxInt.
  pose proof (Z.mod_pos_bound (z + 2 ^ 63) (2 ^ 64) ltac:(lia)). lia.
Qed.

Lemma wrap_id z : inRange z -> wrap z = z.
Proof.
  unfold inRange, wrap, minInt, maxInt. intros H.
  rewrite Z.mod_small by lia. lia.
Qed.

End GoIntFacts.

(** ** Byte strings *)

Module StringFacts.

Lemma append_nil_l (s : string) : "" +:+ s = s.
Proof. reflexivity. Qed.

Lemma append_cons c (a b : string) : String c a +:+ b = String c (a +:+ b).
Proof. reflexivity. Qed.

Lemma append_nil_r (s : string) : s +:+ "" = s.
Proof. induction s as [|c s IH]; [reflexivity|]. now rewrite append_cons, IH. Qed.

Lemma append_assoc (a b c : string) : (a +:+ b) +:+ c = a +:+ (b +:+ c).
Proof.
  induction a as [|x a IH]; [reflexivity|]. now rewrite !append_cons, IH.
Qed.

Lemma length_append (a b : string) :
  String.length (a +:+ b) = (String.length a + String.length b)%nat.
Proof.
  induction a as [|c a IH]; [reflexivity|].
  rewrite append_cons. cbn [String.length]. now rewrite IH.
Qed.

Lemma append_eq_nil (a b : string) : a +:+ b = "" -> a = "" /\ b = "".
Proof. destruct a; [now rewrite append_nil_l|rewrite append_cons; discriminate]. Qed.

Lemma append_eq_cons (a b : string) c s :
  a +:+ b = String c s ->
  (a = "" /\ b = String c s) \/ (exists a', a = String c a' /\ s = a' +:+ b).
Proof.
  destruct a as [|x a].
  - rewrite append_nil_l. now left.
  - rewrite append_cons. intros [= -> <-]. right. now exists a.
Qed.

End StringFacts.

(** ** Configuration defaulting *)

Module ConfigFacts.

Import Config Samples.

Lemma defaultProvider_MaxConnections p :
  MaxConnections (defaultProvider p) =
  if MaxConnections p =? 0 then 10 else MaxConnections p.
Proof.
  unfold defaultProvider.
  destruct (MaxConnections p =? 0) eqn:E; cbn;
    destruct (MaxConnectionIdleTimeInSeconds p =? 0); cbn; reflexivity.
Qed.

Lemma defaultProvider_idle p :
  MaxConnectionIdleTimeInSeconds (defaultProvider p) =
  if MaxConnectionIdleTimeInSeconds p =? 0 then 2400
  else MaxConnectionIdleTimeInSeconds p.
Proof.
  unfold defaultProvider.
  destruct (MaxConnections p =? 0) eqn:E; cbn;
    destruct (MaxConnectionIdleTimeInSeconds p =? 0); cbn; reflexivity.
Qed.

(** A provider that already has both fields set is left alone. *)
Lemma defaultProvider_fixed p :
  MaxConnections p <> 0 -> MaxConnectionIdleTimeInSeconds p <> 0 ->
  defaultProvider p = p.
Proof.
  intros H1 H2. unfold defaultProvider.
  apply Z.eqb_neq in H1. rewrite H1.
  apply Z.eqb_neq in H2. rewrite H2. reflexivity.
Qed.

Lemma defaultProvider_idem p :
  defaultProvider (defaultProvider p) = defaultProvider p.
Proof.
  apply defaultProvider_fixed.
  - rewrite defaultProvider_MaxConnections.
    destruct (MaxConnections p =? 0) eqn:E; [discriminate|].
    now apply Z.eqb_neq.
  - rewrite defaultProvider_idle.
    destruct (MaxConnectionIdleTimeInSeconds p =? 0) eqn:E; [discriminate|].
    now apply Z.eqb_neq.
Qed.

Lemma providerLoop_fst ps w :
  fst (providerLoop ps w) = map defaultProvider ps.
Proof.
  revert w. induction ps as [|p ps IH]; intros w; cbn; [reflexivity|].
  now rewrite IH.
Qed.

Lemma providerLoop_snd ps w :
  snd (providerLoop ps w) =
  fold_left (fun w p => GoInt.add w (MaxConnections p)) (map defaultProvider ps) w.
Proof.
  revert w. induction ps as [|p ps IH]; intros w; cbn; [reflexivity|].
  now rewrite IH.
Qed.

Lemma map_defaultProvider_idem ps :
  map defaultProvider (map defaultProvider ps) = map defaultProvider ps.
Proof.
  induction ps as [|p ps IH]; cbn; [reflexivity|].
  now rewrite defaultProvider_idem, IH.
Qed.

(** Without overflow the accumulated sum is the mathematical one. *)
Lemma fold_add_total ps w :
  Forall (fun p => 0 <= MaxConnections p) ps ->
  0 <= w -> w + totalMaxConnections ps <= GoInt.maxInt ->
  fold_left (fun w p => GoInt.add w (MaxConnections p)) ps w
  = w + totalMaxConnections ps.
Proof.
  intros Hpos. revert w.
  induction Hpos as [|p ps Hp Hps IH]; intros w Hw Hmax.
  - cbn. lia.
  - assert (Htot : 0 <= totalMaxConnections ps).
    { clear -Hps. induction Hps as [|q qs Hq Hqs IHq]; cbn in *; lia. }
    cbn [totalMaxConnections] in Hmax |- *. cbn [fold_left]. unfold GoInt.add at 2. rewrite GoIntFacts.wrap_id.
    + rewrite IH; lia.
    + unfold GoInt.inRange, GoInt.minInt, GoInt.maxInt in *. lia.
Qed.

Lemma sumMaxConnections_total ps :
  Forall (fun p => 0 <= MaxConnections p) ps ->
  totalMaxConnections ps <= GoInt.maxInt ->
  sumMaxConnections ps = totalMaxConnections ps.
Proof.
  intros H1 H2. unfold sumMaxConnections.
  rewrite fold_add_total; auto with zarith.
Qed.

(** A field defaulted by [if x == 0 { x = s }] is stable under a second pass. *)
Lemma workers_stable (a s : Z) :
  (if (if a =? 0 then s else a) =? 0 then s else (if a =? 0 then s else a))
  = (if a =? 0 then s else a).
Proof.
  destruct (a =? 0) eqn:Ea.
  - destruct (s =? 0) eqn:Es; [|reflexivity]. apply Z.eqb_eq in Es. now subst.
  - now rewrite Ea.
Qed.

(** C9 fails as stated: a configuration file that names no download
    provider and no [download_workers] is loaded with [DownloadWorkers = 0],
    the sum over no providers, and not with the fallback 10. *)
Lemma C9_counterexample :
  DownloadWorkers zeroConfig = 0 /\
  DownloadProviders zeroConfig = [] /\
  exists c,
    NewFromFile (fun _ => Ok "") (fun _ => Ok zeroConfig) "config.yaml" = Ok c /\
    DownloadWorkers c = 0 /\
    UploadWorkers c = 0 /\
    DownloadWorkers c <> downloadWorkersDefault.
Proof.
  repeat split; try reflexivity.
  exists (mergeWithDefault [zeroConfig]).
  repeat split; try reflexivity. discriminate.
Qed.

(** C9 (amended): when a configuration file is parsed into [cfg], the
    loaded configuration has every provider defaulted, and a
    [download_workers] (respectively [upload_workers]) that was omitted or
    zero becomes the sum, accumulated with Go's [+=], of the download
    (respectively upload) providers' [max_connections] after that
    defaulting; this is the mathematical sum when it does not overflow, and
    0 when there is no provider. The value 10 is used only when
    [mergeWithDefault] is called without a configuration, which
    [NewFromFile] never does. *)
Theorem C9_workers_default_to_sum
        (readFile : string -> result string) (unmarshal : string -> result Config)
        (path data : string) (cfg : Config) :
  readFile path = Ok data ->
  unmarshal data = Ok cfg ->
  let c := mergeWithDefault [cfg] in
  NewFromFile readFile unmarshal path = Ok c /\
  DownloadProviders c = map defaultProvider (DownloadProviders cfg) /\
  UploadProviders c = map defaultProvider (UploadProviders cfg) /\
  DownloadWorkers c =
    (if DownloadWorkers cfg =? 0 then sumMaxConnections (DownloadProviders c)
     else DownloadWorkers cfg) /\
  UploadWorkers c =
    (if UploadWorkers cfg =? 0 then sumMaxConnections (UploadProviders c)
     else UploadWorkers cfg) /\
  (Forall (fun p => 0 <= MaxConnections p) (DownloadProviders cfg) ->
   totalMaxConnections (DownloadProviders c) <= GoInt.maxInt ->
   sumMaxConnections (DownloadProviders c) = totalMaxConnections (DownloadProviders c)) /\
  (Forall (fun p => 0 <= MaxConnections p) (UploadProviders cfg) ->
   totalMaxConnections (UploadProviders c) <= GoInt.maxInt ->
   sumMaxConnections (UploadProviders c) = totalMaxConnections (UploadProviders c)) /\
  (DownloadProviders cfg = [] -> sumMaxConnections (DownloadProviders c) = 0) /\
  (UploadProviders cfg = [] -> sumMaxConnections (UploadProviders c) = 0) /\
  DownloadWorkers (mergeWithDefault []) = 10 /\
  UploadWorkers (mergeWithDefault []) = 10.
Proof.
  intros Hread Hparse c.
  assert (Hpos : forall ps, Forall (fun p => 0 <= MaxConnections p) ps ->
                       Forall (fun p => 0 <= MaxConnections p) (map defaultProvider ps)).
  { intros ps H. induction H as [|p ps Hp Hps IH]; cbn; constructor; auto.
    rewrite defaultProvider_MaxConnections. destruct (MaxConnections p =? 0); lia. }
  assert (Hd : DownloadProviders c = map defaultProvider (DownloadProviders cfg))
    by apply providerLoop_fst.
  assert (Hu : UploadProviders c = map defaultProvider (UploadProviders cfg))
    by apply providerLoop_fst.
  split; [unfold NewFromFile; now rewrite Hread, Hparse|].
  split; [exact Hd|]. split; [exact Hu|].
  split; [rewrite Hd; subst c; cbn; now rewrite providerLoop_snd|].
  split; [rewrite Hu; subst c; cbn; now rewrite providerLoop_snd|].
  split; [intros H1 H2; apply sumMaxConnections_total; [rewrite Hd; auto|exact H2]|].
  split; [intros H1 H2; apply sumMaxConnections_total; [rewrite Hu; auto|exact H2]|].
  split; [intros E; rewrite Hd, E; reflexivity|].
  split; [intros E; rewrite Hu, E; reflexivity|].
  split; reflexivity.
Qed.

Lemma C9_workers_default_to_sum_witness :
  DownloadWorkers (mergeWithDefault [sampleConfig]) = 30 /\
  UploadWorkers (mergeWithDefault [sampleConfig]) = 5 /\
  NewFromFile (fun _ => Ok "yaml") (fun _ => Ok sampleConfig) "config.yaml"
  = Ok (mergeWithDefault [sampleConfig]).
Proof.
  pose proof (C9_workers_default_to_sum
                (fun _ => Ok "yaml") (fun _ => Ok sampleConfig) "config.yaml"
                "yaml" sampleConfig eq_refl eq_refl) as H.
  cbv zeta in H. destruct H as (H0 & _ & _ & H1 & H2 & _).
  split; [rewrite H1; reflexivity|].
  split; [rewrite H2; reflexivity|exact H0].
Defined.

(** C10: configuration defaulting is idempotent: applying
    [mergeWithDefault] to an already defaulted configuration changes
    nothing. *)
Theorem C10_mergeWithDefault_idempotent (c : Config) :
  mergeWithDefault [mergeWithDefault [c]] = mergeWithDefault [c].
Proof.
  unfold mergeWithDefault. cbn [DownloadProviders UploadProviders DownloadWorkers
    UploadWorkers DownloadFolder Par2Exe Upload ScanInterval MaxRetries BrokenFolder].
  rewrite !providerLoop_fst, !providerLoop_snd, !map_defaultProvider_idem.
  rewrite !workers_stable.
  f_equal.
  destruct (String.eqb (BrokenFolder c) "") eqn:E; [reflexivity|].
  now rewrite E.
Qed.

End ConfigFacts.

(** ** The job queue *)

Module QueueFacts.

Import Queue Samples.

(** A statement that rewrites rows without touching the column a lookup
    tests finds the rewritten row. *)
Lemma find_map_preserved {A} (p : A -> bool) (g : A -> A) (l : list A) :
  (forall x, p (g x) = p x) ->
  List.find p (map g l) = option_map g (List.find p l).
Proof.
  intros Hp. induction l as [|x l IH]; cbn; [reflexivity|].
  rewrite Hp. destruct (p x); [reflexivity|exact IH].
Qed.

Lemma find_append {A} (p : A -> bool) (l l' : list A) :
  List.find p (l ++ l') =
  match List.find p l with
  | Some x => Some x
  | None => List.find p l'
  end.
Proof.
  induction l as [|x l IH]; cbn; [reflexivity|].
  destruct (p x); [reflexivity|exact IH].
Qed.

Lemma selectByFilepath_FilePath rs filePath row :
  selectByFilepath rs filePath = Some row -> FilePath row = filePath.
Proof.
  intros H. apply List.find_some in H as [_ H]. now apply String.eqb_eq.
Qed.

Lemma selectByFilepath_In rs filePath row :
  selectByFilepath rs filePath = Some row -> In row rs.
Proof. intros H. now apply List.find_some in H as [H _]. Qed.

Lemma selectByFilepath_None rs filePath :
  selectByFilepath rs filePath = None <->
  (forall j, In j rs -> FilePath j <> filePath).
Proof.
  unfold selectByFilepath. split.
  - intros H j Hin E. apply (List.find_none _ _ H) in Hin.
    apply String.eqb_neq in Hin. contradiction.
  - intros H. destruct (List.find _ rs) as [j|] eqn:E; [|reflexivity].
    apply List.find_some in E as [Hin E]. apply String.eqb_eq in E.
    now apply H in Hin.
Qed.

(** A call that reports an error leaves the table as it was. *)
Lemma AddJob_error_unchanged flt t filePath relativePath now e :
  snd (AddJob flt t filePath relativePath now) = Some e ->
  fst (AddJob flt t filePath relativePath now) = t.
Proof.
  unfold AddJob, commit.
  destruct (beginErr flt); [reflexivity|].
  destruct (queryErr flt); [reflexivity|].
  destruct (selectByFilepath (rows t) filePath) as [row|].
  - destruct (String.eqb (Status row) StatusFailed || String.eqb (Status row) StatusCompleted).
    + destruct (execErr flt); [reflexivity|].
      destruct (commitErr flt); [reflexivity|discriminate].
    + destruct (commitErr flt); [reflexivity|discriminate].
  - destruct (execErr flt); [reflexivity|].
    destruct (commitErr flt); [reflexivity|discriminate].
Qed.

(** Without driver faults the call succeeds. *)
Lemma AddJob_noFaults_ok t filePath relativePath now :
  snd (AddJob noFaults t filePath relativePath now) = None.
Proof.
  unfold AddJob, commit; cbn.
  destruct (selectByFilepath (rows t) filePath) as [row|]; [|reflexivity].
  now destruct (String.eqb (Status row) StatusFailed || String.eqb (Status row) StatusCompleted).
Qed.

(** The three branches of a successful [AddJob], by what the lookup finds. *)
Lemma AddJob_absent flt t filePath relativePath now :
  snd (AddJob flt t filePath relativePath now) = None ->
  selectByFilepath (rows t) filePath = None ->
  fst (AddJob flt t filePath relativePath now)
  = insertJob t filePath relativePath StatusPending now.
Proof.
  unfold AddJob, commit. intros Hok Hsel. revert Hok. rewrite Hsel.
  destruct (beginErr flt); [discriminate|].
  destruct (queryErr flt); [discriminate|].
  destruct (execErr flt); [discriminate|].
  destruct (commitErr flt); [discriminate|reflexivity].
Qed.

Lemma AddJob_reset flt t filePath relativePath now row :
  snd (AddJob flt t filePath relativePath now) = None ->
  selectByFilepath (rows t) filePath = Some row ->
  Status row = StatusFailed \/ Status row = StatusCompleted ->
  fst (AddJob flt t filePath relativePath now)
  = updateByFilepath t filePath (resetRow StatusPending now relativePath).
Proof.
  unfold AddJob, commit. intros Hok Hsel Hst. revert Hok. rewrite Hsel.
  assert (E : String.eqb (Status row) StatusFailed
              || String.eqb (Status row) StatusCompleted = true).
  { destruct Hst as [-> | ->]; reflexivity. }
  rewrite E.
  destruct (beginErr flt); [discriminate|].
  destruct (queryErr flt); [discriminate|].
  destruct (execErr flt); [discriminate|].
  destruct (commitErr flt); [discriminate|reflexivity].
Qed.

Lemma AddJob_ignored flt t filePath relativePath now row :
  selectByFilepath (rows t) filePath = Some row ->
  Status row <> StatusFailed -> Status row <> StatusCompleted ->
  fst (AddJob flt t filePath relativePath now) = t.
Proof.
  unfold AddJob, commit. intros Hsel H1 H2. rewrite Hsel.
  apply String.eqb_neq in H1, H2. rewrite H1, H2. cbn.
  destruct (beginErr flt); [reflexivity|].
  destruct (queryErr flt); [reflexivity|].
  destruct (commitErr flt); reflexivity.
Qed.

(** C2: a successful [AddJob(absPath, relPath)] inserts a pending row when
    no row has that absolute path; when the row found is failed or
    completed it sets its status to pending, clears [error_msg], refreshes
    [relative_path] and keeps [retry_count] (and every other row); when
    the row found is pending, processing or moved it changes nothing. *)
Theorem C2_AddJob_cases (flt : Faults) (t : Table)
        (filePath relativePath : string) (now : Z) :
  snd (AddJob flt t filePath relativePath now) = None ->
  let t' := fst (AddJob flt t filePath relativePath now) in
  (selectByFilepath (rows t) filePath = None ->
   exists new,
     rows t' = rows t ++ [new] /\
     FilePath new = filePath /\ RelativePath new = relativePath /\
     Status new = StatusPending /\ ErrorMsg new = None /\ RetryCount new = 0 /\
     selectByFilepath (rows t') filePath = Some new) /\
  (forall row,
     selectByFilepath (rows t) filePath = Some row ->
     Status row = StatusFailed \/ Status row = StatusCompleted ->
     exists row',
       selectByFilepath (rows t') filePath = Some row' /\
       Status row' = StatusPending /\ ErrorMsg row' = None /\
       RelativePath row' = relativePath /\
       RetryCount row' = RetryCount row /\
       ID row' = ID row /\ FilePath row' = FilePath row /\
       CreatedAt row' = CreatedAt row /\
       length (rows t') = length (rows t) /\
       (forall i j, rows t !! i = Some j -> FilePath j <> filePath ->
                    rows t' !! i = Some j)) /\
  (forall row,
     selectByFilepath (rows t) filePath = Some row ->
     Status row = StatusPending \/ Status row = StatusProcessing
     \/ Status row = StatusMoved ->
     t' = t).
Proof.
  intros Hok t'. split; [|split].
  - intros Hsel. subst t'. rewrite (AddJob_absent _ _ _ _ _ Hok Hsel).
    eexists. split; [reflexivity|]. repeat split.
    cbn. unfold selectByFilepath in *. rewrite find_append, Hsel. cbn.
    now rewrite String.eqb_refl.
  - intros row Hsel Hst. subst t'. rewrite (AddJob_reset _ _ _ _ _ _ Hok Hsel Hst).
    exists (resetRow StatusPending now relativePath row).
    split; [|repeat split].
    + unfold selectByFilepath, updateByFilepath in *. cbn [rows].
      rewrite find_map_preserved.
      * rewrite Hsel. cbn. apply List.find_some in Hsel as [_ E].
        now rewrite E.
      * intros x. now destruct (String.eqb (FilePath x) filePath) eqn:E.
    + cbn. now rewrite length_map.
    + intros i j Hi Hne. cbn [rows updateByFilepath].
      change (map ?f ?l) with (f <$> l). rewrite list_lookup_fmap, Hi. cbn.
      apply String.eqb_neq in Hne. now rewrite Hne.
  - intros row Hsel Hst. subst t'.
    apply (AddJob_ignored _ _ _ _ _ _ Hsel);
      destruct Hst as [-> | [-> | ->]]; discriminate.
Qed.

Lemma C2_AddJob_cases_witness :
  fst (AddJob noFaults (sampleTable StatusFailed) "/watch/a.nzb" "sub/a.nzb" 300)
  = mkTable [mkJob 1 "/watch/a.nzb" "sub/a.nzb" StatusPending None 2 100 300] 1 /\
  fst (AddJob noFaults (sampleTable StatusMoved) "/watch/a.nzb" "sub/a.nzb" 300)
  = sampleTable StatusMoved /\
  exists new,
    rows (fst (AddJob noFaults (sampleTable StatusFailed) "/watch/b.nzb" "b.nzb" 300))
    = rows (sampleTable StatusFailed) ++ [new] /\ Status new = StatusPending.
Proof.
  split; [reflexivity|]. split.
  - exact (proj2 (proj2 (C2_AddJob_cases noFaults (sampleTable StatusMoved)
                           "/watch/a.nzb" "sub/a.nzb" 300 eq_refl))
                 (sampleJob StatusMoved) eq_refl (or_intror (or_intror eq_refl))).
  - destruct (proj1 (C2_AddJob_cases noFaults (sampleTable StatusFailed)
                       "/watch/b.nzb" "b.nzb" 300 eq_refl) eq_refl)
      as (new & H1 & _ & _ & H2 & _).
    exists new. split; assumption.
Defined.

(** The duplicate-add scenario: add twice, fail the job, add again. The
    row exists once, is pending, has lost its error message and kept its
    retry count of 1. *)
Example AddJob_after_failure :
  let t0 := mkTable [] 0 in
  let t1 := fst (AddJob noFaults t0 "/watch/a.nzb" "a.nzb" 10) in
  let t2 := fst (AddJob noFaults t1 "/watch/a.nzb" "a.nzb" 20) in
  let t3 := fst (UpdateJobStatus noFaults t2 1 StatusFailed "par2 exited with code 2" 30) in
  let t4 := fst (AddJob noFaults t3 "/watch/a.nzb" "a.nzb" 40) in
  t2 = t1 /\
  rows t3 = [mkJob 1 "/watch/a.nzb" "a.nzb" StatusFailed
                   (Some "par2 exited with code 2") 1 10 30] /\
  rows t4 = [mkJob 1 "/watch/a.nzb" "a.nzb" StatusPending None 1 10 40].
Proof. vm_compute. repeat split. Qed.

(** A call that reports an error leaves the table as it was. *)
Lemma UpdateJobStatus_error_unchanged flt t jobID status errorMsg now e :
  snd (UpdateJobStatus flt t jobID status errorMsg now) = Some e ->
  fst (UpdateJobStatus flt t jobID status errorMsg now) = t.
Proof. unfold UpdateJobStatus. destruct (execErr flt); [reflexivity|discriminate]. Qed.

Lemma UpdateJobStatus_ok flt t jobID status errorMsg now :
  snd (UpdateJobStatus flt t jobID status errorMsg now) = None ->
  fst (UpdateJobStatus flt t jobID status errorMsg now)
  = updateByID t jobID
      (if String.eqb status StatusFailed
       then setFailedRow status (if String.eqb errorMsg "" then None else Some errorMsg) now
       else setStatusRow status (if String.eqb errorMsg "" then None else Some errorMsg) now).
Proof. unfold UpdateJobStatus. destruct (execErr flt); [discriminate|reflexivity]. Qed.

Lemma updateByID_lookup t jobID f i :
  rows (updateByID t jobID f) !! i
  = (fun j => if ID j =? jobID then f j else j) <$> (rows t !! i).
Proof.
  cbn [rows updateByID]. change (map ?g ?l) with (g <$> l).
  apply list_lookup_fmap.
Qed.

(** C7: a successful [UpdateJobStatus(id, failed, msg)] increases the
    [retry_count] of the job with that id by exactly one, and with any
    other status it leaves [retry_count] unchanged; no other row changes. *)
Theorem C7_UpdateJobStatus_retry_count (flt : Faults) (t : Table) (jobID : Z)
        (status : JobStatus) (errorMsg : string) (now : Z) :
  snd (UpdateJobStatus flt t jobID status errorMsg now) = None ->
  let t' := fst (UpdateJobStatus flt t jobID status errorMsg now) in
  length (rows t') = length (rows t) /\
  forall i j,
    rows t !! i = Some j ->
    exists j',
      rows t' !! i = Some j' /\
      ID j' = ID j /\
      (ID j = jobID -> status = StatusFailed -> RetryCount j' = RetryCount j + 1) /\
      (ID j = jobID -> status <> StatusFailed ->
       RetryCount j' = RetryCount j /\ Status j' = status) /\
      (ID j <> jobID -> j' = j).
Proof.
  intros Hok t'. subst t'. rewrite (UpdateJobStatus_ok _ _ _ _ _ _ Hok).
  split; [cbn; now rewrite length_map|].
  intros i j Hi. rewrite updateByID_lookup, Hi. cbn.
  eexists. split; [reflexivity|].
  destruct (ID j =? jobID) eqn:E.
  - apply Z.eqb_eq in E. destruct (String.eqb status StatusFailed) eqn:Es.
    + apply String.eqb_eq in Es. repeat split; cbn; congruence.
    + apply String.eqb_neq in Es. repeat split; cbn; congruence.
  - apply Z.eqb_neq in E. repeat split; congruence.
Qed.

Lemma C7_UpdateJobStatus_retry_count_witness :
  rows (fst (UpdateJobStatus noFaults (sampleTable StatusProcessing) 1
                             StatusFailed "par2 exited with code 2" 300)) !! 0%nat
  = Some (mkJob 1 "/watch/a.nzb" "a.nzb" StatusFailed
                (Some "par2 exited with code 2") 3 100 300) /\
  exists j',
    rows (fst (UpdateJobStatus noFaults (sampleTable StatusProcessing) 1
                               StatusCompleted "" 300)) !! 0%nat = Some j' /\
    RetryCount j' = 2.
Proof.
  split; [reflexivity|].
  destruct (proj2 (C7_UpdateJobStatus_retry_count noFaults
                     (sampleTable StatusProcessing) 1 StatusCompleted "" 300 eq_refl)
                  0%nat (sampleJob StatusProcessing) eq_refl)
    as (j' & H1 & _ & _ & H2 & _).
  exists j'. split; [exact H1|].
  exact (proj1 (H2 eq_refl ltac:(discriminate))).
Defined.

End QueueFacts.

(** ** Paths and the output path of a job *)

Module AppFacts.

Import Filepath Queue App Samples.

Lemma HasPrefix_slash path :
  HasPrefix path "/" = true <-> exists rest, path = String Separator rest.
Proof.
  unfold HasPrefix. split.
  - destruct path as [|c rest]; cbn [String.prefix]; [discriminate|].
    destruct (Ascii.ascii_dec "/" c) as [E|E]; [|discriminate].
    intros _. exists rest. now rewrite <- E.
  - intros [rest ->]. cbn [String.prefix].
    destruct (Ascii.ascii_dec "/" Separator) as [_|E]; [|now elim E].
    now destruct rest.
Qed.

(** [Clean] keeps a rooted path rooted. *)
Lemma Clean_rooted rest :
  exists out, Clean (String Separator rest) = String Separator out.
Proof.
  unfold Clean. change (Ascii.eqb Separator Separator) with true. cbv iota.
  set (stack := fold_left (cleanStep true) (elements (String Separator rest)) []).
  cbn [String.append String.eqb]. change (Ascii.eqb "/" "/") with true.
  cbv iota. cbn. eexists. reflexivity.
Qed.

Lemma Clean_IsAbs path : IsAbs path = true -> IsAbs (Clean path) = true.
Proof.
  unfold IsAbs. intros H. apply HasPrefix_slash in H as [rest ->].
  destruct (Clean_rooted rest) as [out ->].
  apply HasPrefix_slash. now exists out.
Qed.

Example Clean_empty : Clean "" = ".".
Proof. reflexivity. Qed.

Example Clean_dot : Clean "." = ".".
Proof. reflexivity. Qed.

Example Clean_traversal :
  map Clean ["../x.nzb"; "a/../../x.nzb"; "a/./b//c.nzb"; "/etc/../x"]
  = ["../x.nzb"; "../x.nzb"; "a/b/c.nzb"; "/x"].
Proof. reflexivity. Qed.

(** The guard of [calculateJobOutputPath] fires on every path C8 lists. *)
Lemma guard_fires relativePath :
  relativePath = "" \/ relativePath = "." \/ IsAbs relativePath = true
  \/ HasPrefix (Clean relativePath) ".." = true ->
  HasPrefix (Clean relativePath) ".."
  || String.eqb (Clean relativePath) "."
  || String.eqb (Clean relativePath) ""
  || IsAbs (Clean relativePath) = true.
Proof.
  intros [-> | [-> | [H | H]]]; try reflexivity.
  - rewrite (Clean_IsAbs _ H). apply orb_true_r.
  - now rewrite H.
Qed.

(** C8: for every job whose [relative_path] is empty, ".", absolute, or
    begins with ".." after cleaning, [calculateJobOutputPath] returns the
    diagnostic error instead of an output path, creates no directory, and
    calls [UpdateJobStatus(job.ID, failed, message)]; when that update
    succeeds the job's row is failed, carries the message, and has its
    retry count incremented. *)
Theorem C8_invalid_relative_path_marks_failed
        (quote : string -> string) (mkdirAll : string -> option string)
        (flt : Faults) (now : Z) (outputBaseDir : string) (job : Job)
        (dbQueue : Table) :
  RelativePath job = "" \/ RelativePath job = "."
  \/ IsAbs (RelativePath job) = true
  \/ HasPrefix (Clean (RelativePath job)) ".." = true ->
  let errMsg := "invalid relative path calculated: " +:+ quote (RelativePath job) in
  let r := calculateJobOutputPath quote mkdirAll flt now outputBaseDir job dbQueue in
  snd r = Err errMsg /\
  snd (fst r) = [] /\
  fst (fst r) = fst (UpdateJobStatus flt dbQueue (ID job) StatusFailed errMsg now) /\
  (execErr flt = None ->
   forall i j, rows dbQueue !! i = Some j -> ID j = ID job ->
     exists j',
       rows (fst (fst r)) !! i = Some j' /\
       ID j' = ID job /\
       Status j' = StatusFailed /\
       ErrorMsg j' = Some errMsg /\
       RetryCount j' = RetryCount j + 1).
Proof.
  intros Hbad errMsg r. subst r. unfold calculateJobOutputPath.
  rewrite (guard_fires _ Hbad). cbv zeta. cbn [fst snd].
  repeat split.
  intros Hexec i j Hi Hid. fold errMsg.
  unfold UpdateJobStatus. rewrite Hexec. cbn [fst].
  rewrite QueueFacts.updateByID_lookup, Hi. cbn.
  apply Z.eqb_eq in Hid. rewrite Hid.
  eexists. split; [reflexivity|]. apply Z.eqb_eq in Hid.
  repeat split; assumption.
Qed.

Lemma C8_invalid_relative_path_marks_failed_witness :
  let job := mkJob 1 "/watch/a.nzb" "sub/../../a.nzb" StatusProcessing None 0 100 200 in
  let r := calculateJobOutputPath goQuote (fun _ => None) noFaults 300 "/out" job
             (mkTable [job] 1) in
  snd r = Err ("invalid relative path calculated: " +:+ goQuote "sub/../../a.nzb") /\
  rows (fst (fst r))
  = [mkJob 1 "/watch/a.nzb" "sub/../../a.nzb" StatusFailed
           (Some ("invalid relative path calculated: " +:+ goQuote "sub/../../a.nzb"))
           1 100 300].
Proof.
  intros job r.
  pose proof (C8_invalid_relative_path_marks_failed goQuote (fun _ => None)
                noFaults 300 "/out" job (mkTable [job] 1)
                (or_intror (or_intror (or_intror eq_refl)))) as H.
  cbv zeta in H. destruct H as (H1 & _).
  split; [exact H1|reflexivity].
Defined.

(** A well-formed relative path is accepted and placed under the output
    base directory. *)
Example calculateJobOutputPath_accepts :
  let job := mkJob 1 "/watch/sub/a.nzb" "sub/a.nzb" StatusProcessing None 0 100 200 in
  calculateJobOutputPath goQuote (fun _ => None) noFaults 300 "/out" job
                         (mkTable [job] 1)
  = (mkTable [job] 1, ["/out/sub"], Ok "/out/sub/a.nzb").
Proof. reflexivity. Qed.

End AppFacts.

(** ** The regular expression matcher *)

Module RegexpFacts.

Import Regexp StringFacts.

Lemma matches_Void_inv s : matches Void s -> False.
Proof. intros H. inversion H. Qed.

Lemma matches_Eps_inv s : matches Eps s -> s = "".
Proof. intros H. now inversion H. Qed.

Lemma matches_Class_inv p s :
  matches (Class p) s -> exists c, s = String c "" /\ p c = true.
Proof. intros H. inversion H; subst. eauto. Qed.

Lemma matches_Cat_inv a b s :
  matches (Cat a b) s ->
  exists s1 s2, s = s1 +:+ s2 /\ matches a s1 /\ matches b s2.
Proof. intros H. inversion H; subst. eauto. Qed.

Lemma matches_Alt_inv a b s : matches (Alt a b) s -> matches a s \/ matches b s.
Proof. intros H. inversion H; subst; auto. Qed.

Lemma nullable_matches r : nullable r = true <-> matches r "".
Proof.
  split.
  - induction r as [| |p|a IHa b IHb|a IHa b IHb|a IHa]; cbn; intros H;
      try discriminate.
    + constructor.
    + apply andb_true_iff in H as [Ha Hb].
      change "" with ("" +:+ ""). constructor; auto.
    + apply orb_true_iff in H as [H|H]; [apply MAltL|apply MAltR]; auto.
    + constructor.
  - induction r as [| |p|a IHa b IHb|a IHa b IHb|a IHa]; cbn; intros H.
    + now apply matches_Void_inv in H.
    + reflexivity.
    + apply matches_Class_inv in H as (c & E & _). discriminate.
    + apply matches_Cat_inv in H as (s1 & s2 & E & H1 & H2).
      symmetry in E. apply append_eq_nil in E as [-> ->].
      now rewrite IHa, IHb.
    + apply matches_Alt_inv in H as [H|H].
      * now rewrite IHa.
      * rewrite IHb by assumption. apply orb_true_r.
    + reflexivity.
Qed.

Lemma deriv_sound c r s : matches (deriv c r) s -> matches r (String c s).
Proof.
  revert s. induction r as [| |p|a IHa b IHb|a IHa b IHb|a IHa]; cbn; intros s H.
  - now apply matches_Void_inv in H.
  - now apply matches_Void_inv in H.
  - destruct (p c) eqn:E.
    + apply matches_Eps_inv in H as ->. now constructor.
    + now apply matches_Void_inv in H.
  - destruct (nullable a) eqn:En.
    + apply matches_Alt_inv in H as [H|H].
      * apply matches_Cat_inv in H as (s1 & s2 & -> & H1 & H2).
        rewrite <- append_cons. constructor; auto.
      * rewrite <- (append_nil_l (String c s)). constructor; auto.
        now apply nullable_matches.
    + apply matches_Cat_inv in H as (s1 & s2 & -> & H1 & H2).
      rewrite <- append_cons. constructor; auto.
  - apply matches_Alt_inv in H as [H|H]; [apply MAltL|apply MAltR]; auto.
  - apply matches_Cat_inv in H as (s1 & s2 & -> & H1 & H2).
    rewrite <- append_cons. constructor; auto.
Qed.

Lemma deriv_star_complete c a s :
  (forall s', matches a (String c s') -> matches (deriv c a) s') ->
  matches (Star a) (String c s) -> matches (Cat (deriv c a) (Star a)) s.
Proof.
  intros Ha H. remember (Star a) as r eqn:Er. remember (String c s) as w eqn:Ew.
  revert s Ew.
  induction H as [|p x Hx|a' b s1 s2 H1 IH1 H2 IH2|a' b s' H IH|a' b s' H IH|a'
                  |a' s1 s2 H1 IH1 H2 IH2]; intros s Ew; try discriminate.
  injection Er as ->.
  apply append_eq_cons in Ew as [[-> ->]|(s1' & -> & ->)].
  - now apply IH2.
  - constructor; auto.
Qed.

Lemma deriv_complete c r s : matches r (String c s) -> matches (deriv c r) s.
Proof.
  revert s. induction r as [| |p|a IHa b IHb|a IHa b IHb|a IHa]; cbn; intros s H.
  - now apply matches_Void_inv in H.
  - apply matches_Eps_inv in H. discriminate.
  - apply matches_Class_inv in H as (x & [= -> ->] & Hx). rewrite Hx. constructor.
  - apply matches_Cat_inv in H as (s1 & s2 & E & H1 & H2).
    symmetry in E. apply append_eq_cons in E as [[-> ->]|(s1' & -> & ->)].
    + apply nullable_matches in H1. rewrite H1. apply MAltR. auto.
    + destruct (nullable a); [apply MAltL|]; constructor; auto.
  - apply matches_Alt_inv in H as [H|H]; [apply MAltL|apply MAltR]; auto.
  - now apply deriv_star_complete.
Qed.

(** The matcher decides the language. *)
Theorem matchAll_matches r s : matchAll r s = true <-> matches r s.
Proof.
  revert r. induction s as [|c s IH]; intros r; cbn.
  - apply nullable_matches.
  - rewrite IH. split; [apply deriv_sound|apply deriv_complete].
Qed.

Lemma matches_any s : matches (Star AnyByte) s.
Proof.
  induction s as [|c s IH]; [constructor|].
  change (String c s) with (String c "" +:+ s). constructor; [|exact IH].
  now constructor.
Qed.

(** A search ending at [$]: some suffix matches the body. *)
Lemma MatchString_suffix body s :
  MatchString (mkRegexp false body true) s = true <->
  exists pre m, s = pre +:+ m /\ matches body m.
Proof.
  unfold MatchString. cbn [anchoredBegin anchoredEnd Regexp.body].
  rewrite matchAll_matches. split.
  - intros H. apply matches_Cat_inv in H as (pre & rest & -> & _ & H).
    apply matches_Cat_inv in H as (m & e & -> & H & He).
    apply matches_Eps_inv in He as ->. rewrite append_nil_r. eauto.
  - intros (pre & m & -> & H). constructor; [apply matches_any|].
    rewrite <- (append_nil_r m). constructor; [exact H|constructor].
Qed.

(** A literal under [(?i)] matches the strings equal to it up to case. *)
Lemma matches_LitFold t s :
  matches (LitFold t) s <-> Wording.lower s = Wording.lower t.
Proof.
  revert s. induction t as [|c t IH]; intros s; cbn [LitFold Wording.lower].
  - split.
    + intros H. now apply matches_Eps_inv in H as ->.
    + destruct s; [constructor|discriminate].
  - split.
    + intros H. apply matches_Cat_inv in H as (s1 & s2 & -> & H1 & H2).
      apply matches_Class_inv in H1 as (x & -> & Hx).
      rewrite append_cons, append_nil_l. cbn [Wording.lower].
      apply Ascii.eqb_eq in Hx. rewrite Hx. f_equal. now apply IH.
    + destruct s as [|x s]; [discriminate|]. cbn [Wording.lower].
      intros [= Hx Hs].
      change (String x s) with (String x "" +:+ s). constructor.
      * constructor. now apply Ascii.eqb_eq.
      * now apply IH.
Qed.

Lemma matches_Lit t s : matches (Lit t) s <-> s = t.
Proof.
  revert s. induction t as [|c t IH]; intros s; cbn [Lit].
  - split; [apply matches_Eps_inv|intros ->; constructor].
  - split.
    + intros H. apply matches_Cat_inv in H as (s1 & s2 & -> & H1 & H2).
      apply matches_Class_inv in H1 as (x & -> & Hx).
      apply Ascii.eqb_eq in Hx. apply IH in H2. now subst.
    + intros ->. change (String c t) with (String c "" +:+ t). constructor.
      * constructor. apply Ascii.eqb_refl.
      * now apply IH.
Qed.

Lemma matches_Star_Dot s : matches (Star Dot) s <-> Wording.noNewline s = true.
Proof.
  split.
  - intros H. remember (Star Dot) as r eqn:Er.
    induction H as [|p x Hx|a b s1 s2 H1 IH1 H2 IH2|a b s' H IH|a b s' H IH|a
                    |a s1 s2 H1 IH1 H2 IH2]; try discriminate; [reflexivity|].
    injection Er as ->. apply matches_Class_inv in H1 as (x & -> & Hx).
    rewrite append_cons, append_nil_l. cbn [Wording.noNewline].
    rewrite Hx. now apply IH2.
  - induction s as [|c s IH]; cbn [Wording.noNewline]; intros H; [constructor|].
    apply andb_true_iff in H as [Hc Hs].
    change (String c s) with (String c "" +:+ s). constructor; [|now apply IH].
    now constructor.
Qed.

(** A search from [^] with an open end: some prefix matches the body. *)
Lemma MatchString_prefix body s :
  MatchString (mkRegexp true body false) s = true <->
  exists m post, s = m +:+ post /\ matches body m.
Proof.
  unfold MatchString. cbn [anchoredBegin anchoredEnd Regexp.body].
  rewrite matchAll_matches. split.
  - intros H. apply matches_Cat_inv in H as (e & rest & -> & He & H).
    apply matches_Eps_inv in He as ->.
    apply matches_Cat_inv in H as (m & post & -> & H & _).
    exists m, post. split; [reflexivity|exact H].
  - intros (m & post & -> & H). rewrite <- (append_nil_l (m +:+ post)).
    constructor; [constructor|]. constructor; [exact H|apply matches_any].
Qed.

End RegexpFacts.

(** ** The par2 driver *)

Module Par2Facts.

Import Regexp Par2 Wording StringFacts.

(** *** What [parregexp] matches *)

Lemma lower_append a b : lower (a +:+ b) = lower a +:+ lower b.
Proof.
  induction a as [|c a IH]; [reflexivity|].
  rewrite append_cons. cbn [lower].
  now rewrite append_cons, IH.
Qed.

Lemma length_lower s : String.length (lower s) = String.length s.
Proof. induction s as [|c s IH]; cbn; [reflexivity|now rewrite IH]. Qed.

Lemma substring_all s : String.substring 0 (String.length s) s = s.
Proof. induction s as [|c s IH]; cbn; [reflexivity|now rewrite IH]. Qed.

Lemma substring_skip a b m :
  String.substring (String.length a) m (a +:+ b) = String.substring 0 m b.
Proof.
  induction a as [|c a IH]; [reflexivity|].
  rewrite append_cons. cbn [String.length String.substring]. exact IH.
Qed.

Lemma split_at (k : nat) : forall s,
  (k <= String.length s)%nat ->
  exists pre l, s = pre +:+ l /\ String.length pre = k.
Proof.
  induction k as [|k IH]; intros s Hk.
  - exists "", s. split; reflexivity.
  - destruct s as [|c s]; cbn in Hk; [lia|].
    destruct (IH s ltac:(lia)) as (pre & l & -> & Hlen).
    exists (String c pre), l. split; [reflexivity|]. cbn. now rewrite Hlen.
Qed.

(** The wording "ends in .par2, case-insensitively", unfolded. *)
Lemma endsInPar2_spec s :
  endsInPar2 s = true <-> exists pre l, s = pre +:+ l /\ lower l = ".par2".
Proof.
  unfold endsInPar2. rewrite andb_true_iff, Nat.leb_le, String.eqb_eq. split.
  - intros [Hn Hsub]. rewrite length_lower in Hn, Hsub.
    destruct (split_at (String.length s - 5) s ltac:(lia)) as (pre & l & -> & Hpre).
    exists pre, l. split; [reflexivity|].
    rewrite length_append in Hn, Hsub, Hpre. rewrite lower_append in Hsub.
    replace (String.length pre + String.length l - 5)%nat
      with (String.length (lower pre)) in Hsub by (rewrite length_lower; lia).
    rewrite substring_skip in Hsub.
    replace 5%nat with (String.length (lower l)) in Hsub at 1
      by (rewrite length_lower; lia).
    now rewrite substring_all in Hsub.
  - intros (pre & l & -> & Hl).
    assert (Hlen : String.length l = 5%nat).
    { rewrite <- length_lower, Hl. reflexivity. }
    rewrite lower_append, length_append, !length_lower, Hlen, Hl. split; [lia|].
    replace (String.length pre + 5 - 5)%nat with (String.length (lower pre))
      by (rewrite length_lower; lia).
    rewrite substring_skip. reflexivity.
Qed.

(** [parregexp] matches exactly the names that end in .par2 up to case:
    its optional volume group never decides a match. *)
Theorem parregexp_ends_in_par2 s : MatchString parregexp s = endsInPar2 s.
Proof.
  apply eq_true_iff_eq. unfold parregexp.
  rewrite RegexpFacts.MatchString_suffix, endsInPar2_spec. split.
  - intros (pre & m & -> & H).
    apply RegexpFacts.matches_Cat_inv in H as (g & l & -> & _ & Hl).
    apply RegexpFacts.matches_LitFold in Hl.
    exists (pre +:+ g), l. split; [now rewrite append_assoc|exact Hl].
  - intros (pre & l & -> & Hl). exists pre, l. split; [reflexivity|].
    rewrite <- (append_nil_l l). constructor.
    + apply MAltR. constructor.
    + now apply RegexpFacts.matches_LitFold.
Qed.

(** *** What the pattern of the walk matches *)

(** [^.+\.par2] matches a name iff the text .par2 occurs in it after a
    non-empty stretch without newlines: upper-case extensions are not
    recognised, and the name need not end there. *)
Theorem walkExp_spec s :
  MatchString walkExp s = true <->
  exists stem post, s = stem +:+ ".par2" +:+ post /\ stem <> "" /\ noNewline stem = true.
Proof.
  unfold walkExp. rewrite RegexpFacts.MatchString_prefix. split.
  - intros (m & post & -> & H).
    apply RegexpFacts.matches_Cat_inv in H as (stem & lit & -> & Hstem & Hlit).
    apply RegexpFacts.matches_Lit in Hlit as ->.
    apply RegexpFacts.matches_Cat_inv in Hstem as (c & q & -> & Hc & Hq).
    apply RegexpFacts.matches_Class_inv in Hc as (x & -> & Hx).
    apply RegexpFacts.matches_Star_Dot in Hq.
    exists (String x q), post. rewrite append_cons, append_nil_l.
    split; [now rewrite append_assoc|]. split; [discriminate|].
    cbn [noNewline]. now rewrite Hx, Hq.
  - intros (stem & post & -> & Hne & Hnl).
    exists (stem +:+ ".par2"), post. split; [now rewrite append_assoc|].
    constructor; [|now apply RegexpFacts.matches_Lit].
    destruct stem as [|x q]; [contradiction|]. cbn [noNewline] in Hnl.
    apply andb_true_iff in Hnl as [Hx Hq].
    change (String x q) with (String x "" +:+ q). constructor.
    + now constructor.
    + now apply RegexpFacts.matches_Star_Dot.
Qed.

(** *** Partition of the manifest *)

Lemma fold_splitStep l par rest :
  fold_left splitStep l (par, rest)
  = (par ++ List.filter isPar l, rest ++ List.filter (fun f => negb (isPar f)) l).
Proof.
  revert par rest. induction l as [|f l IH]; intros par rest; cbn [fold_left List.filter].
  - now rewrite !app_nil_r.
  - unfold splitStep at 2. fold (isPar f). destruct (isPar f); cbn [fst snd negb].
    + rewrite IH. now rewrite <- app_assoc.
    + rewrite IH. now rewrite <- app_assoc.
Qed.

Lemma splitParWithRest_filter nfile :
  splitParWithRest nfile
  = (List.filter isPar (Nzb.Files nfile),
     List.filter (fun f => negb (isPar f)) (Nzb.Files nfile)).
Proof. unfold splitParWithRest. now rewrite fold_splitStep. Qed.

Lemma filter_partition_Permutation {A} (p : A -> bool) (l : list A) :
  Permutation (List.filter p l ++ List.filter (fun x => negb (p x)) l) l.
Proof.
  induction l as [|x l IH]; cbn; [constructor|].
  destruct (p x); cbn.
  - now constructor.
  - symmetry. apply Permutation_cons_app. now symmetry.
Qed.

(** C5: [splitParWithRest] partitions the files of the manifest: a file is
    in [parFiles] iff it is a file of the manifest whose name matches
    [parregexp], in [restFiles] iff it is one whose name does not; no file
    is in both, and the two lists together are the manifest's files (each
    in manifest order). *)
Theorem C5_splitParWithRest_partition (nfile : Nzb.NzbT) :
  let parFiles := fst (splitParWithRest nfile) in
  let restFiles := snd (splitParWithRest nfile) in
  (forall f, In f parFiles <->
             In f (Nzb.Files nfile) /\ MatchString parregexp (Nzb.Filename f) = true) /\
  (forall f, In f restFiles <->
             In f (Nzb.Files nfile) /\ MatchString parregexp (Nzb.Filename f) = false) /\
  (forall f, ~ (In f parFiles /\ In f restFiles)) /\
  Permutation (parFiles ++ restFiles) (Nzb.Files nfile) /\
  (length parFiles + length restFiles)%nat = length (Nzb.Files nfile) /\
  (forall name, MatchString parregexp name = endsInPar2 name).
Proof.
  intros parFiles restFiles. subst parFiles restFiles.
  rewrite splitParWithRest_filter. cbn [fst snd].
  assert (Hpar : forall f, In f (List.filter isPar (Nzb.Files nfile)) <->
                           In f (Nzb.Files nfile) /\ isPar f = true)
    by (intros f; apply List.filter_In).
  assert (Hrest : forall f, In f (List.filter (fun f => negb (isPar f)) (Nzb.Files nfile)) <->
                            In f (Nzb.Files nfile) /\ isPar f = false).
  { intros f. rewrite List.filter_In. now rewrite negb_true_iff. }
  split; [exact Hpar|]. split; [exact Hrest|]. split; [|split].
  - intros f [H1 H2]. apply Hpar in H1 as [_ H1]. apply Hrest in H2 as [_ H2].
    congruence.
  - apply filter_partition_Permutation.
  - split; [|exact parregexp_ends_in_par2].
    rewrite <- length_app. apply Permutation_length, filter_partition_Permutation.
Qed.

Example parregexp_samples :
  map (MatchString parregexp)
      ["test.mkv.par2"; "TEST.MKV.PAR2"; "movie.vol01+02.par2";
       "movie.Vol001+002.Par2"; ".par2"; "test.mkv"; "a.par2.bak"; "par2"]
  = [true; true; true; true; true; false; false; false].
Proof. vm_compute. reflexivity. Qed.

Example splitParWithRest_sample :
  let file name := Nzb.mkFile ["alt.binaries.test"] [] "poster" 0 1 name name 0 0 in
  splitParWithRest
    (Nzb.mkNzb [file "a.mkv"; file "a.mkv.par2"; file "b.nfo"; file "a.mkv.vol0+1.PAR2"] 4)
  = ([file "a.mkv.par2"; file "a.mkv.vol0+1.PAR2"], [file "a.mkv"; file "b.nfo"]).
Proof. vm_compute. reflexivity. Qed.

(** *** Discovery of the par2 file and the command line *)

Lemma isPar2Entry_named v : isPar2Entry v = true -> Name v <> "".
Proof.
  unfold isPar2Entry. intros H E. rewrite E in H.
  rewrite andb_true_iff in H. destruct H as [_ H]. vm_compute in H. discriminate.
Qed.

(** A walk without errors ends with the name of the first matching entry,
    unless a name was already chosen. *)
Lemma Walk_without_errors visits :
  Forall (fun v => visitErr v = None) visits ->
  forall chosen,
    Walk visits chosen
    = Ok (if String.eqb chosen "" then firstPar2 visits else chosen).
Proof.
  induction 1 as [|v visits Hv Hvs IH]; intros chosen.
  - cbn. unfold firstPar2. cbn. now destruct (String.eqb chosen "") eqn:E;
      [apply String.eqb_eq in E; subst|].
  - cbn [Walk]. unfold walkFn. rewrite Hv. fold (isPar2Entry v).
    unfold firstPar2. cbn [List.find].
    destruct (isPar2Entry v) eqn:Em.
    + destruct (String.eqb chosen "") eqn:Ec.
      * rewrite IH. apply isPar2Entry_named in Em.
        apply String.eqb_neq in Em. now rewrite Em.
      * rewrite IH. now rewrite Ec.
    + rewrite IH. reflexivity.
Qed.

Lemma firstPar2_empty visits :
  firstPar2 visits = "" <-> (forall v, In v visits -> isPar2Entry v = false).
Proof.
  unfold firstPar2. destruct (List.find isPar2Entry visits) as [v|] eqn:E; split.
  - intros Hn. apply List.find_some in E as [_ E].
    now apply isPar2Entry_named in E.
  - intros H. apply List.find_some in E as [Hin E]. apply H in Hin. congruence.
  - intros _ v Hin. exact (List.find_none _ _ E v Hin).
  - reflexivity.
Qed.

Lemma isPar2Entry_spec v :
  isPar2Entry v = true <->
  IsDir v = false /\
  exists stem post,
    Filepath.Base (Name v) = stem +:+ ".par2" +:+ post /\
    stem <> "" /\ noNewline stem = true.
Proof.
  unfold isPar2Entry. now rewrite andb_true_iff, negb_true_iff, walkExp_spec.
Qed.

(** C3 (the code at the failing inputs). A working directory whose only
    par2 file is named in upper case holds a regular file whose name ends
    in .par2 case-insensitively, and [parregexp], by which
    [splitParWithRest] tells the par2 files of the manifest, matches the
    name; yet [Repair] returns success without running par2. A directory
    whose only candidate is [notes.par2.txt] holds no such file, and
    [parregexp] does not match the name; yet par2 is run on it. The
    pattern of the walk lacks the case folding and the end anchor of
    [parregexp]. *)
Theorem C3_Repair_walk_pattern_misses_par2_files :
  let proc := mkProcess None None (fun _ => (RunOk, "")) in
  MatchString parregexp "MOVIE.PAR2" = true /\
  MatchString parregexp "notes.par2.txt" = false /\
  endsInPar2 "MOVIE.PAR2" = true /\
  Repair (mkExecutor "par2")
         [mkVisit "work" true None; mkVisit "MOVIE.PAR2" false None]
         proc "/tmp/work"
  = mkOutcome None None /\
  endsInPar2 "notes.par2.txt" = false /\
  Repair (mkExecutor "par2")
         [mkVisit "work" true None; mkVisit "notes.par2.txt" false None]
         proc "/tmp/work"
  = mkOutcome (Some (mkCmd "par2" ["r"; "-q"; "-p"; "/tmp/work/notes.par2.txt"]
                           "/tmp/work"))
              None.
Proof. vm_compute. repeat split. Qed.

(** What [Repair] does in general: when the walk of the working
    directory reports no error and the pipes can be created, [Repair]
    returns success without running
    the par2 binary if and only if the walk visits no non-directory entry
    whose name matches the driver's pattern [^.+\.par2] (case-sensitive: the
    text .par2 preceded by at least one character, anywhere in the name);
    otherwise it runs the par2 binary (the configured path, or "par2" when
    that is empty) with arguments ["r", "-q", "-p", join(dir, name)], where
    name is the first such entry in walk order, and with the subprocess
    directory set to the working directory. *)
Lemma Repair_runs_par2_iff_walk_match (p : Par2CmdExecutor) (visits : list Visit)
        (proc : Process) (tmpPath : string) :
  Forall (fun v => visitErr v = None) visits ->
  stderrPipeErr proc = None ->
  stdoutPipeErr proc = None ->
  let out := Repair p visits proc tmpPath in
  (out = mkOutcome None None <->
   (forall v, In v visits -> isPar2Entry v = false)) /\
  (forall v, List.find isPar2Entry visits = Some v ->
     invoked out
     = Some (mkCmd (if String.eqb (ExePath p) "" then "par2" else ExePath p)
                   ["r"; "-q"; "-p"; Filepath.Join [tmpPath; Name v]]
                   tmpPath)) /\
  (forall v, isPar2Entry v = true <->
     IsDir v = false /\
     exists stem post,
       Filepath.Base (Name v) = stem +:+ ".par2" +:+ post /\
       stem <> "" /\ noNewline stem = true).
Proof.
  intros Hwalk Herr Hout out. subst out. unfold Repair.
  rewrite (Walk_without_errors _ Hwalk). cbn [String.eqb].
  rewrite Herr, Hout. split; [|split]; [| |exact isPar2Entry_spec].
  - rewrite <- firstPar2_empty.
    destruct (String.eqb (firstPar2 visits) "") eqn:E.
    + apply String.eqb_eq in E. split; [intros _; exact E|reflexivity].
    + apply String.eqb_neq in E. split; [|intros H; contradiction].
      unfold runAndReport.
      destruct (run proc _) as [[| |] ?]; [| destruct (par2ExitCodes !! code) |];
        discriminate.
  - intros v Hfind. assert (Hname : firstPar2 visits = Name v)
      by (unfold firstPar2; now rewrite Hfind).
    rewrite Hname.
    apply List.find_some in Hfind as [_ Hm]. apply isPar2Entry_named in Hm.
    apply String.eqb_neq in Hm. rewrite Hm.
    unfold runAndReport.
    destruct (run proc _) as [[| |] ?]; [| destruct (par2ExitCodes !! code) |];
      reflexivity.
Qed.

Lemma Repair_runs_par2_iff_walk_match_witness :
  invoked (Repair (mkExecutor "")
                  [mkVisit "work" true None; mkVisit "test.mkv" false None;
                   mkVisit "test.mkv.par2" false None;
                   mkVisit "test.mkv.vol0+1.par2" false None]
                  (mkProcess None None (fun _ => (RunOk, ""))) "/tmp/work")
  = Some (mkCmd "par2" ["r"; "-q"; "-p"; "/tmp/work/test.mkv.par2"] "/tmp/work").
Proof.
  exact (proj1 (proj2 (Repair_runs_par2_iff_walk_match (mkExecutor "")
                  [mkVisit "work" true None; mkVisit "test.mkv" false None;
                   mkVisit "test.mkv.par2" false None;
                   mkVisit "test.mkv.vol0+1.par2" false None]
                  (mkProcess None None (fun _ => (RunOk, ""))) "/tmp/work"
                  ltac:(repeat constructor) eq_refl eq_refl))
               (mkVisit "test.mkv.par2" false None) eq_refl).
Defined.

(** *** Exit codes *)

Lemma prefix_append x rest : String.prefix x (x +:+ rest) = true.
Proof.
  induction x as [|c x IH].
  - change ("" +:+ rest) with rest. now destruct rest.
  - change (String c x +:+ rest) with (String c (x +:+ rest)).
    cbn [String.prefix].
    destruct (Ascii.ascii_dec c c) as [_|E]; [exact IH|now elim E].
Qed.

Lemma Contains_unfold s substr :
  Contains s substr
  = String.prefix substr s
    || match s with
       | EmptyString => false
       | String _ rest => Contains rest substr
       end.
Proof. now destruct s. Qed.

Lemma Contains_here x rest : Contains (x +:+ rest) x = true.
Proof. rewrite Contains_unfold, prefix_append. reflexivity. Qed.

Lemma Contains_later pre s x :
  Contains s x = true -> Contains (pre +:+ s) x = true.
Proof.
  intros H. induction pre as [|c pre IH]; [exact H|].
  change (String c pre +:+ s) with (String c (pre +:+ s)).
  cbn [Contains]. rewrite IH. apply orb_true_r.
Qed.

Lemma Contains_self x : Contains x x = true.
Proof.
  rewrite Contains_unfold.
  assert (H : String.prefix x x = true).
  { induction x as [|c x IH]; [reflexivity|]. cbn [String.prefix].
    destruct (Ascii.ascii_dec c c) as [_|E]; [exact IH|now elim E]. }
  now rewrite H.
Qed.

Lemma Contains_middle pre x post : Contains (pre +:+ x +:+ post) x = true.
Proof. apply Contains_later, Contains_here. Qed.

(** The driver's table names exactly the codes 0 to 8. *)
Lemma par2ExitCodes_domain code :
  is_Some (par2ExitCodes !! code) <-> 0 <= code <= 8.
Proof.
  split.
  - intros [name H]. unfold par2ExitCodes in H.
    apply elem_of_list_to_map_2 in H.
    repeat (apply elem_of_cons in H as [H|H]; [injection H as -> _; lia|]).
    now apply elem_of_nil in H.
  - intros H.
    assert (code = 0 \/ code = 1 \/ code = 2 \/ code = 3 \/ code = 4 \/ code = 5
            \/ code = 6 \/ code = 7 \/ code = 8) as Hc by lia.
    repeat (destruct Hc as [-> | Hc]; [vm_compute; eauto|]).
    subst. vm_compute. eauto.
Qed.

(** C4 fails as stated. On exit code 3 the message carries the driver's
    own name for the code, not the name of the specification's table; the
    same holds for codes 6 and 7; and a nonzero code outside the table,
    such as 99, yields a message with no name at all. *)
Lemma C4_counterexample :
  let visits := [mkVisit "work" true None; mkVisit "test.par2" false None] in
  let report code stderr :=
    returned (Repair (mkExecutor "par2") visits
                     (mkProcess None None (fun _ => (exited code, stderr)))
                     "/tmp/work") in
  exitCodeNames !! 3 = Some "Bad arguments" /\
  report 3 "" = Some "par2 exited with code 3: Invalid command line arguments. Stderr: " /\
  Contains "par2 exited with code 3: Invalid command line arguments. Stderr: "
           "Bad arguments" = false /\
  exitCodeNames !! 6 = Some "File I/O error" /\
  report 6 "" = Some "par2 exited with code 6: FileIO Error. Stderr: " /\
  Contains "par2 exited with code 6: FileIO Error. Stderr: " "File I/O error" = false /\
  exitCodeNames !! 99 = None /\
  report 99 "boom" = Some "par2 exited with unknown code 99. Stderr: boom".
Proof. vm_compute. repeat split. Qed.

(** C4 (amended): when the par2 subprocess exits with a nonzero code,
    [Repair] returns an error whose message includes the exit code and the
    accumulated stderr; for the codes 1 to 8 it also includes the code's
    name in the driver's own table (1 Repair possible, 2 Repair not
    possible, 3 Invalid command line arguments, 4 Insufficient critical
    data to verify, 5 Repair failed, 6 FileIO Error, 7 Logic Error, 8 Out
    of memory), and for any other nonzero code it reads "unknown code" and
    names nothing; when the subprocess exits with code 0 it returns no
    error. *)
Theorem C4_exit_code_report (p : Par2CmdExecutor) (visits : list Visit)
        (proc : Process) (tmpPath par2FileName : string) (code : Z)
        (stderrOutput : string) :
  Walk visits "" = Ok par2FileName ->
  par2FileName <> "" ->
  stderrPipeErr proc = None ->
  stdoutPipeErr proc = None ->
  run proc (mkCmd (if String.eqb (ExePath p) "" then "par2" else ExePath p)
                  ["r"; "-q"; "-p"; Filepath.Join [tmpPath; par2FileName]] tmpPath)
  = (exited code, stderrOutput) ->
  let out := returned (Repair p visits proc tmpPath) in
  (code = 0 -> out = None) /\
  (code <> 0 ->
   out = Some (match par2ExitCodes !! code with
               | Some name =>
                   "par2 exited with code " +:+ pretty code +:+ ": " +:+ name
                     +:+ ". Stderr: " +:+ stderrOutput
               | None =>
                   "par2 exited with unknown code " +:+ pretty code
                     +:+ ". Stderr: " +:+ stderrOutput
               end) /\
   exists msg,
     out = Some msg /\
     Contains msg (pretty code) = true /\
     Contains msg stderrOutput = true /\
     (forall name, par2ExitCodes !! code = Some name -> Contains msg name = true) /\
     (1 <= code <= 8 -> is_Some (par2ExitCodes !! code)) /\
     (~ 0 <= code <= 8 -> Contains msg "unknown code" = true)).
Proof.
  intros Hwalk Hname Herr Hout Hrun out. subst out. unfold Repair.
  rewrite Hwalk. apply String.eqb_neq in Hname. rewrite Hname, Herr, Hout.
  unfold runAndReport. rewrite Hrun. unfold exited.
  split.
  - intros ->. reflexivity.
  - intros Hc. apply Z.eqb_neq in Hc. rewrite Hc.
    destruct (par2ExitCodes !! code) as [name|] eqn:Etab; cbn [returned].
    + split; [reflexivity|]. eexists. split; [reflexivity|].
      split; [apply (Contains_middle "par2 exited with code ")|].
      split.
      { apply (Contains_later "par2 exited with code "), Contains_later,
          (Contains_later ": "), Contains_later, (Contains_later ". Stderr: ").
        apply Contains_self. }
      split.
      { intros name' [= <-].
        apply (Contains_later "par2 exited with code "), Contains_later,
          (Contains_later ": "), Contains_here. }
      split; [intros _; eauto|].
      intros Hn. exfalso. apply Hn. apply par2ExitCodes_domain. rewrite Etab. eauto.
    + split; [reflexivity|]. eexists. split; [reflexivity|].
      split; [apply (Contains_middle "par2 exited with unknown code ")|].
      split.
      { apply (Contains_later "par2 exited with unknown code "), Contains_later,
          (Contains_later ". Stderr: ").
        apply Contains_self. }
      split; [intros name' [=]|].
      split.
      { intros Hr. rewrite <- Etab. apply par2ExitCodes_domain. lia. }
      intros _.
      exact (Contains_middle "par2 exited with " "unknown code"
               (" " +:+ pretty code +:+ ". Stderr: " +:+ stderrOutput)).
Qed.

Lemma C4_exit_code_report_witness :
  returned (Repair (mkExecutor "par2")
                   [mkVisit "work" true None; mkVisit "test.par2" false None]
                   (mkProcess None None (fun _ => (exited 2, "Not enough data")))
                   "/tmp/work")
  = Some "par2 exited with code 2: Repair not possible. Stderr: Not enough data".
Proof.
  exact (proj1 (proj2 (C4_exit_code_report (mkExecutor "par2")
                   [mkVisit "work" true None; mkVisit "test.par2" false None]
                   (mkProcess None None (fun _ => (exited 2, "Not enough data")))
                   "/tmp/work" "test.par2" 2 "Not enough data"
                   eq_refl ltac:(discriminate) eq_refl eq_refl eq_refl)
                ltac:(discriminate))).
Defined.

End Par2Facts.

(** ** The article codec *)

Module ArticleFacts.

Import Article StringFacts.

(** *** The checksum is a 32-bit value *)

Lemma lxor_bound n a b :
  0 <= n -> 0 <= a < 2 ^ n -> 0 <= b < 2 ^ n -> 0 <= Z.lxor a b < 2 ^ n.
Proof.
  intros Hn Ha Hb.
  assert (Hr : 0 <= Z.lxor a b) by (apply Z.lxor_nonneg; lia).
  split; [exact Hr|].
  destruct (Z.eq_dec (Z.lxor a b) 0) as [E|E]; [rewrite E; lia|].
  apply Z.log2_lt_pow2; [lia|].
  destruct (Z.eq_dec a 0) as [->|Ha0].
  { rewrite Z.lxor_0_l in *. apply Z.log2_lt_pow2; lia. }
  destruct (Z.eq_dec b 0) as [->|Hb0].
  { rewrite Z.lxor_0_r in *. apply Z.log2_lt_pow2; lia. }
  pose proof (Z.log2_lxor a b ltac:(lia) ltac:(lia)) as Hl.
  assert (Z.log2 a < n) by (apply Z.log2_lt_pow2; lia).
  assert (Z.log2 b < n) by (apply Z.log2_lt_pow2; lia).
  lia.
Qed.

Lemma shiftr_bound n k a :
  0 <= k -> 0 <= a < 2 ^ n -> 0 <= Z.shiftr a k < 2 ^ n.
Proof.
  intros Hk Ha. rewrite Z.shiftr_div_pow2 by lia.
  assert (0 < 2 ^ k) by (apply Z.pow_pos_nonneg; lia).
  split; [apply Z.div_pos; lia|].
  apply Z.le_lt_trans with a; [|lia].
  apply Z.div_le_upper_bound; nia.
Qed.

Lemma IEEE_bound : 0 <= CRC32.IEEE < 2 ^ 32.
Proof. unfold CRC32.IEEE. lia. Qed.

Lemma shiftStep_bound crc :
  0 <= crc < 2 ^ 32 -> 0 <= CRC32.shiftStep CRC32.IEEE crc < 2 ^ 32.
Proof.
  intros H. unfold CRC32.shiftStep.
  pose proof (shiftr_bound 32 1 crc ltac:(lia) H).
  destruct (Z.testbit crc 0); [|assumption].
  apply lxor_bound; [lia|assumption|apply IEEE_bound].
Qed.

Lemma tableEntry_bound i :
  0 <= i < 2 ^ 32 -> 0 <= CRC32.tableEntry CRC32.IEEE i < 2 ^ 32.
Proof.
  intros H. unfold CRC32.tableEntry.
  generalize 8%nat as k. induction k as [|k IH]; [exact H|].
  rewrite Nat.iter_succ. now apply shiftStep_bound.
Qed.

Lemma byteOf_bound c : 0 <= CRC32.byteOf c < 2 ^ 8.
Proof.
  unfold CRC32.byteOf. pose proof (nat_ascii_bounded c).
  change (2 ^ 8) with 256. lia.
Qed.

Lemma updateLoop_bound p crc :
  0 <= crc < 2 ^ 32 -> 0 <= CRC32.updateLoop CRC32.IEEE crc p < 2 ^ 32.
Proof.
  revert crc. induction p as [|v p IH]; intros crc H; cbn [CRC32.updateLoop];
    [exact H|].
  apply IH. apply lxor_bound; [lia| |now apply shiftr_bound].
  apply tableEntry_bound.
  assert (Hlow : 0 <= Z.land crc 255 < 2 ^ 8).
  { change 255 with (Z.ones 8). rewrite Z.land_ones by lia.
    apply Z.mod_pos_bound. lia. }
  pose proof (lxor_bound 8 _ _ ltac:(lia) Hlow (byteOf_bound v)). lia.
Qed.

Lemma ChecksumIEEE_bound p : 0 <= CRC32.ChecksumIEEE p < 2 ^ 32.
Proof.
  unfold CRC32.ChecksumIEEE, CRC32.simpleUpdate.
  assert (Hm : 0 <= CRC32.mask32 < 2 ^ 32) by (unfold CRC32.mask32; lia).
  apply lxor_bound; [lia| |exact Hm].
  apply updateLoop_bound. rewrite Z.lxor_0_l. exact Hm.
Qed.

Example ChecksumIEEE_check : CRC32.ChecksumIEEE "123456789" = 0xCBF43926.
Proof. vm_compute. reflexivity. Qed.

(** *** The table-driven loop computes the bit-serial CRC *)

Lemma shiftStep_lxor poly x y :
  CRC32.shiftStep poly (Z.lxor x y)
  = Z.lxor (CRC32.shiftStep poly x) (CRC32.shiftStep poly y).
Proof.
  unfold CRC32.shiftStep. rewrite Z.lxor_spec, Z.shiftr_lxor.
  destruct (Z.testbit x 0), (Z.testbit y 0); cbn [xorb];
    apply Z.bits_inj'; intros n _; rewrite ?Z.lxor_spec;
    destruct (Z.testbit (Z.shiftr x 1) n), (Z.testbit (Z.shiftr y 1) n),
             (Z.testbit poly n); reflexivity.
Qed.

Lemma iter_shiftStep_lxor poly (k : nat) x y :
  Nat.iter k (CRC32.shiftStep poly) (Z.lxor x y)
  = Z.lxor (Nat.iter k (CRC32.shiftStep poly) x) (Nat.iter k (CRC32.shiftStep poly) y).
Proof.
  induction k as [|k IH]; [reflexivity|].
  rewrite !Nat.iter_succ. now rewrite IH, shiftStep_lxor.
Qed.

(** Shifting out a zero byte only moves the register. *)
Lemma iter_shiftStep_high poly h (k : nat) :
  (k <= 8)%nat ->
  Nat.iter k (CRC32.shiftStep poly) (Z.shiftl h 8) = Z.shiftl h (8 - Z.of_nat k).
Proof.
  induction k as [|k IH]; intros Hk; [reflexivity|].
  rewrite Nat.iter_succ, IH by lia. unfold CRC32.shiftStep.
  rewrite Z.shiftl_spec_low by lia.
  rewrite Z.shiftr_shiftl_l by lia. f_equal. lia.
Qed.

Lemma split_low_byte crc :
  crc = Z.lxor (Z.shiftl (Z.shiftr crc 8) 8) (Z.land crc 255).
Proof.
  apply Z.bits_inj'. intros n Hn.
  rewrite Z.lxor_spec, Z.land_spec. change 255 with (Z.ones 8).
  destruct (Z.lt_ge_cases n 8) as [Hlt|Hge].
  - rewrite Z.shiftl_spec_low by lia. rewrite Z.ones_spec_low by lia.
    now rewrite andb_true_r.
  - rewrite Z.shiftl_spec by lia. rewrite Z.shiftr_spec by lia.
    rewrite Z.ones_spec_high by lia. rewrite andb_false_r, xorb_false_r.
    f_equal. lia.
Qed.

Lemma table_step crc v :
  Nat.iter 8 (CRC32.shiftStep CRC32.IEEE) (Z.lxor crc v)
  = Z.lxor (CRC32.tableEntry CRC32.IEEE (Z.lxor (Z.land crc 255) v))
           (Z.shiftr crc 8).
Proof.
  rewrite (split_low_byte crc) at 1. rewrite Z.lxor_assoc.
  rewrite iter_shiftStep_lxor, (iter_shiftStep_high _ _ 8) by lia.
  change (8 - Z.of_nat 8) with 0. rewrite Z.shiftl_0_r.
  unfold CRC32.tableEntry. apply Z.lxor_comm.
Qed.

Lemma updateLoop_bitSerial p crc :
  CRC32.updateLoop CRC32.IEEE crc p = Wording.crcBitSerial crc p.
Proof.
  revert crc. induction p as [|v p IH]; intros crc;
    cbn [CRC32.updateLoop Wording.crcBitSerial]; [reflexivity|].
  now rewrite IH, table_step.
Qed.

(** [crc32.NewIEEE] computes the IEEE CRC32. *)
Theorem ChecksumIEEE_is_ieeeCRC32 p : CRC32.ChecksumIEEE p = Wording.ieeeCRC32 p.
Proof.
  unfold CRC32.ChecksumIEEE, CRC32.simpleUpdate, Wording.ieeeCRC32.
  now rewrite updateLoop_bitSerial, Z.lxor_0_l.
Qed.

(** *** The verb [%08X] *)

Lemma hexDigitValue_hexDigit v :
  0 <= v < 16 -> Fmt.hexDigitValue (Fmt.hexDigit v) = Some v.
Proof.
  intros H.
  assert (Hv : v = 0 \/ v = 1 \/ v = 2 \/ v = 3 \/ v = 4 \/ v = 5 \/ v = 6 \/ v = 7
               \/ v = 8 \/ v = 9 \/ v = 10 \/ v = 11 \/ v = 12 \/ v = 13 \/ v = 14
               \/ v = 15) by lia.
  repeat (destruct Hv as [-> | Hv]; [reflexivity|]). subst. reflexivity.
Qed.

Lemma hexLoop_acc fuel u acc :
  Fmt.hexLoop fuel u acc = Fmt.hexLoop fuel u "" +:+ acc.
Proof.
  revert u acc. induction fuel as [|fuel IH]; intros u acc; cbn [Fmt.hexLoop].
  - reflexivity.
  - destruct (16 <=? u); [|reflexivity].
    rewrite IH. rewrite (IH _ (String _ "")). now rewrite append_assoc.
Qed.

Lemma parseHexFrom_append a s1 s2 :
  Fmt.parseHexFrom a (s1 +:+ s2)
  = match Fmt.parseHexFrom a s1 with
    | Some v => Fmt.parseHexFrom v s2
    | None => None
    end.
Proof.
  revert a. induction s1 as [|c s1 IH]; intros a; [reflexivity|].
  rewrite append_cons. cbn [Fmt.parseHexFrom].
  destruct (Fmt.hexDigitValue c); [apply IH|reflexivity].
Qed.

Lemma low_nibble u : 0 <= u -> Z.land u 15 = u mod 16.
Proof. intros _. change 15 with (Z.ones 4). now rewrite Z.land_ones by lia. Qed.

(** The digit loop writes between one and [k] digits for a value below
    [16^k], and they read back as that value. *)
Lemma hexLoop_digits fuel : forall (k : nat) u,
  (1 <= k <= S fuel)%nat -> 0 <= u < 16 ^ Z.of_nat k ->
  let ds := Fmt.hexLoop fuel u "" in
  (1 <= String.length ds <= k)%nat /\
  forall a, Fmt.parseHexFrom a ds = Some (a * 16 ^ Z.of_nat (String.length ds) + u).
Proof.
  induction fuel as [|fuel IH]; intros k u Hk Hu; cbn [Fmt.hexLoop].
  - assert (k = 1%nat) by lia. subst k. change (16 ^ Z.of_nat 1) with 16 in Hu.
    rewrite low_nibble, Z.mod_small by lia. cbn. split; [lia|].
    intros a. rewrite hexDigitValue_hexDigit by lia. cbn. f_equal. lia.
  - destruct (16 <=? u) eqn:E.
    + apply Z.leb_le in E.
      destruct k as [|[|k]]; [lia|change (16 ^ Z.of_nat 1) with 16 in Hu; lia|].
      assert (Hu' : 0 <= Z.shiftr u 4 < 16 ^ Z.of_nat (S k)).
      { rewrite Z.shiftr_div_pow2 by lia. change (2 ^ 4) with 16.
        replace (Z.of_nat (S (S k))) with (Z.succ (Z.of_nat (S k))) in Hu by lia.
        rewrite Z.pow_succ_r in Hu by lia.
        split; [apply Z.div_pos; lia|apply Z.div_lt_upper_bound; lia]. }
      destruct (IH (S k) (Z.shiftr u 4) ltac:(lia) Hu') as [Hlen Hparse].
      cbv zeta in Hlen, Hparse. rewrite hexLoop_acc.
      rewrite length_append. cbn [String.length]. split; [lia|].
      intros a. rewrite parseHexFrom_append, Hparse. cbn [Fmt.parseHexFrom].
      rewrite low_nibble by lia.
      rewrite hexDigitValue_hexDigit by (apply Z.mod_pos_bound; lia).
      cbn [Fmt.parseHexFrom]. f_equal.
      rewrite Z.shiftr_div_pow2 by lia. change (2 ^ 4) with 16.
      replace (Z.of_nat (String.length (Fmt.hexLoop fuel (u / 16) "") + 1))
        with (Z.succ (Z.of_nat (String.length (Fmt.hexLoop fuel (u / 16) "")))) by lia.
      rewrite Z.pow_succ_r by lia.
      pose proof (Z.div_mod u 16 ltac:(lia)). lia.
    + apply Z.leb_gt in E. cbn. split; [lia|].
      intros a. rewrite hexDigitValue_hexDigit by lia. cbn. f_equal. lia.
Qed.

Lemma length_zeros n : String.length (Fmt.zeros n) = n.
Proof. induction n as [|n IH]; cbn; [reflexivity|now rewrite IH]. Qed.

Lemma parseHexFrom_zeros n s : Fmt.parseHexFrom 0 (Fmt.zeros n +:+ s) = Fmt.parseHexFrom 0 s.
Proof.
  induction n as [|n IH]; [reflexivity|].
  cbn [Fmt.zeros]. rewrite append_cons. exact IH.
Qed.

Lemma parse_all_hex s : forall a v,
  Fmt.parseHexFrom a s = Some v ->
  Forall (fun c => Fmt.isUpperHexDigit c = true) (list_ascii_of_string s).
Proof.
  induction s as [|c s IH]; intros a v H; cbn in *; [constructor|].
  unfold Fmt.isUpperHexDigit.
  destruct (Fmt.hexDigitValue c) eqn:E; [|discriminate].
  constructor; [now rewrite E|eapply IH; eassumption].
Qed.

(** [%08X] of a 32-bit value is exactly eight upper-case hexadecimal
    digits that read back as the value. *)
Lemma X08_uint32 u :
  0 <= u < 2 ^ 32 ->
  String.length (Fmt.X08 u) = 8%nat /\
  Fmt.parseUpperHex (Fmt.X08 u) = Some u /\
  Forall (fun c => Fmt.isUpperHexDigit c = true) (list_ascii_of_string (Fmt.X08 u)).
Proof.
  intros Hu.
  destruct (hexLoop_digits 15 8 u ltac:(lia) ltac:(change (16 ^ Z.of_nat 8) with (2 ^ 32); lia))
    as [Hlen Hparse].
  cbv zeta in Hlen, Hparse.
  assert (Hp : Fmt.parseUpperHex (Fmt.X08 u) = Some u).
  { unfold Fmt.parseUpperHex, Fmt.X08. rewrite parseHexFrom_zeros, Hparse.
    f_equal; lia. }
  split; [|split; [exact Hp|exact (parse_all_hex _ _ _ Hp)]].
  unfold Fmt.X08. rewrite length_append, length_zeros. lia.
Qed.

(** C6: for every article and every encoder, the stream produced by
    [EncodeBytes] ends with the [=yend] line whose [pcrc32] field is the
    IEEE CRC32 of the plaintext body (whatever the encoder makes of it),
    written as exactly eight upper-case hexadecimal digits, zero-padded. *)
Theorem C6_yend_carries_crc32_of_body
        (rfc1123 : Z -> string) (now : Z)
        (range : gmap string string -> list (string * string))
        (encoder : string -> string) (a : articleData) :
  let sum := CRC32.ChecksumIEEE (body a) in
  let hex := Fmt.X08 sum in
  EncodeBytes rfc1123 now range encoder a
  = (headerLines (range (buildHeaders rfc1123 now a)) +:+ yencHeader a)
      +:+ encoder (body a)
      +:+ (CRLF +:+ "=yend size=" +:+ Fmt.d (PartSize a)
                +:+ " part=" +:+ Fmt.d (PartNum a)
                +:+ " pcrc32=" +:+ hex +:+ CRLF) /\
  0 <= sum < 2 ^ 32 /\
  String.length hex = 8%nat /\
  Forall (fun c => Fmt.isUpperHexDigit c = true) (list_ascii_of_string hex) /\
  Fmt.parseUpperHex hex = Some sum /\
  sum = Wording.ieeeCRC32 (body a).
Proof.
  intros sum hex.
  pose proof (ChecksumIEEE_bound (body a)) as Hb.
  destruct (X08_uint32 sum Hb) as (Hlen & Hparse & Hhex).
  repeat split; try assumption; try apply Hb.
  apply ChecksumIEEE_is_ieeeCRC32.
Qed.

Example yendFooter_sample :
  let a := mkArticle 1 2 9 0 9 1 1 18 "subject" "poster" ["alt.binaries.test"]
                     "id@host" "" "f.bin" None None "123456789" in
  yendFooter a (CRC32.ChecksumIEEE (body a))
  = CRLF +:+ "=yend size=9 part=1 pcrc32=CBF43926" +:+ CRLF.
Proof. vm_compute. reflexivity. Qed.

End ArticleFacts.

(** ** Downloading one file *)

Module DownloadFacts.

Import Download Samples.

(** The function run under [once] changes no segment: nothing is
    propagated to the segments of the file. *)
Lemma recalculate_unchanged segs size : recalculate segs size = segs.
Proof.
  unfold recalculate. generalize (seq 0 (length segs)) as idx.
  induction idx as [|i idx IH]; cbn [fold_left]; [reflexivity|].
  destruct (segs !! i); exact IH.
Qed.

Lemma segmentTask_segments bodyOf hasCh f st s :
  segments (fst (segmentTask bodyOf hasCh f st s)) = segments st.
Proof.
  unfold segmentTask. destruct (bodyOf (Nzb.Id s)) as [buff|buff| |msg]; cbn.
  - destruct (WriteAt _ _ _); reflexivity.
  - destruct hasCh; cbn; [|reflexivity].
    destruct (onceDone st); [reflexivity|apply recalculate_unchanged].
  - reflexivity.
  - reflexivity.
Qed.

(** A fetched segment is written at [(number - 1)] times the length of its
    own body. *)
Lemma segmentTask_write bodyOf hasCh f st s buff st' :
  bodyOf (Nzb.Id s) = BodyOk buff ->
  segmentTask bodyOf hasCh f st s = (st', None) ->
  writes st' = writes st ++ [(GoInt.mul (Nzb.Number s - 1) (len buff), buff)] /\
  WriteAt (content st) buff (GoInt.mul (Nzb.Number s - 1) (len buff))
  = Ok (content st').
Proof.
  unfold segmentTask. intros ->.
  destruct (WriteAt _ _ _) as [c|e]; [|discriminate].
  intros [= <-]. split; reflexivity.
Qed.

(** Every write of a call is addressed by the length of the body it
    writes: no size observed on another segment enters any offset. *)
Lemma segmentLoop_writes bodyOf hasCh ctxDone f (P : Z * string -> Prop) :
  (forall s buff, bodyOf (Nzb.Id s) = BodyOk buff ->
                  P (GoInt.mul (Nzb.Number s - 1) (len buff), buff)) ->
  forall todo st poolErr,
    Forall P (writes st) ->
    Forall P (writes (fst (segmentLoop bodyOf hasCh ctxDone f todo st poolErr))).
Proof.
  intros HP. induction todo as [|s todo IH]; intros st poolErr Hst;
    cbn [segmentLoop]; [exact Hst|].
  destruct (cancelled st || ctxDone); [exact Hst|].
  destruct poolErr as [e|].
  - apply IH. unfold segmentTask. exact Hst.
  - apply IH. unfold segmentTask.
    destruct (bodyOf (Nzb.Id s)) as [buff|buff| |msg] eqn:Eb; cbn [fst writes].
    + destruct (WriteAt _ _ _); cbn [fst writes]; [|exact Hst].
      apply Forall_app. split; [exact Hst|]. constructor; [|constructor].
      now apply HP.
    + destruct hasCh; exact Hst.
    + exact Hst.
    + exact Hst.
Qed.

(** C1 (the code at the failing input): a five-byte file posted as the
    segments "abc" and "de". The first body downloaded has length 3, so the
    specification places segment 2 at offset (2 - 1) * 3 = 3; the code
    places it at (2 - 1) * 2 = 2, over the last byte of segment 1, and the
    file comes out as "abde". No segment size is changed by the call. *)
Theorem C1_downloadWorker_offset_from_own_length :
  let r := downloadWorker false None None sampleBodies true false sampleFile in
  ret r = None /\
  writes (final r) = [(0, "abc"); (2, "de")] /\
  string_of_list_ascii (content (final r)) = "abde" /\
  segments (final r) = Nzb.Segments sampleFile /\
  observedSize sampleBodies (Nzb.Segments sampleFile) = Some 3 /\
  map (specOffset 3) (Nzb.Segments sampleFile) = [0; 3].
Proof. vm_compute. repeat split. Qed.

(** The same file with the tasks finishing in the other order. *)
Example downloadWorker_other_order :
  let f := Nzb.mkFile ["alt.binaries.test"]
             [Nzb.mkSegment 3 2 "part2@test"; Nzb.mkSegment 3 1 "part1@test"]
             "poster@example.com" 1678886400 1 "test.bin" "test" 2 5 in
  let r := downloadWorker false None None sampleBodies true false f in
  writes (final r) = [(2, "de"); (0, "abc")] /\
  string_of_list_ascii (content (final r)) = "abce".
Proof. vm_compute. repeat split. Qed.

End DownloadFacts.

(** ** The queue: handing out, recovering and sweeping jobs *)

Module QueueOpsFacts.

Import Queue QueueOps Samples MoreSamples.

Lemma oldest_In best rs : In (oldest best rs) (best :: rs).
Proof.
  revert best. induction rs as [|r rs IH]; intros best; cbn [oldest]; [now left|].
  destruct (CreatedAt r <? CreatedAt best).
  - right. apply IH.
  - destruct (IH best) as [H|H]; [now left|right; now right].
Qed.

Lemma oldest_least rs : forall best r,
  In r (best :: rs) -> CreatedAt (oldest best rs) <= CreatedAt r.
Proof.
  induction rs as [|x rs IH]; intros best r Hin; cbn [oldest].
  - destruct Hin as [<-|[]]. lia.
  - destruct (CreatedAt x <? CreatedAt best) eqn:E.
    + apply Z.ltb_lt in E. destruct Hin as [<-|[<-|Hin]].
      * pose proof (IH x x (or_introl eq_refl)). lia.
      * apply IH. now left.
      * apply IH. now right.
    + apply Z.ltb_ge in E. destruct Hin as [<-|[<-|Hin]].
      * apply IH. now left.
      * pose proof (IH best best (or_introl eq_refl)). lia.
      * apply IH. now right.
Qed.

Lemma selectOldestPending_Some rs row :
  selectOldestPending rs = Some row ->
  In row rs /\ Status row = StatusPending /\
  forall r, In r rs -> Status r = StatusPending -> CreatedAt row <= CreatedAt r.
Proof.
  unfold selectOldestPending.
  destruct (List.filter isPending rs) as [|b cands] eqn:E; [discriminate|].
  intros [= <-].
  assert (Hin : In (oldest b cands) (List.filter isPending rs))
    by (rewrite E; apply oldest_In).
  apply List.filter_In in Hin as [Hin Hp]. apply String.eqb_eq in Hp.
  split; [exact Hin|]. split; [exact Hp|].
  intros r Hr Hs. apply oldest_least. rewrite <- E. apply List.filter_In.
  split; [exact Hr|]. now apply String.eqb_eq.
Qed.

Lemma selectOldestPending_None rs :
  selectOldestPending rs = None <->
  (forall j, In j rs -> Status j <> StatusPending).
Proof.
  unfold selectOldestPending. split.
  - destruct (List.filter isPending rs) as [|b cands] eqn:E; [|discriminate].
    intros _ j Hin Hs.
    assert (H : In j (List.filter isPending rs)).
    { apply List.filter_In. split; [exact Hin|]. now apply String.eqb_eq. }
    now rewrite E in H.
  - intros H. destruct (List.filter isPending rs) as [|b cands] eqn:E; [reflexivity|].
    assert (Hb : In b (List.filter isPending rs)) by (rewrite E; now left).
    apply List.filter_In in Hb as [Hin Hp]. apply String.eqb_eq in Hp.
    now apply H in Hin.
Qed.

(** Whatever [GetNextJob] returns instead of a job, it leaves the table as
    it was. *)
Lemma GetNextJob_unchanged flt t now t' :
  (GetNextJob flt t now = (t', NoRows) \/
   exists e, GetNextJob flt t now = (t', NextFailed e)) ->
  t' = t.
Proof.
  unfold GetNextJob.
  destruct (beginErr flt); [intros [H|[e H]]; congruence|].
  destruct (queryErr flt); [intros [H|[e H]]; congruence|].
  destruct (selectOldestPending (rows t)); [|intros [H|[e H]]; congruence].
  destruct (execErr flt); [intros [H|[e H]]; congruence|].
  destruct (commitErr flt); intros [H|[e H]]; congruence.
Qed.

(** When nothing is pending: the sentinel, and an untouched table. *)
Lemma GetNextJob_NoRows (flt : Faults) (t : Table) (now : Z) :
  beginErr flt = None -> queryErr flt = None ->
  (snd (GetNextJob flt t now) = NoRows <->
   forall j, In j (rows t) -> Status j <> StatusPending) /\
  (snd (GetNextJob flt t now) = NoRows -> fst (GetNextJob flt t now) = t).
Proof.
  intros Hb Hq. split.
  - rewrite <- selectOldestPending_None. unfold GetNextJob. rewrite Hb, Hq.
    destruct (selectOldestPending (rows t)) as [row|]; [|now split].
    destruct (execErr flt); [split; discriminate|].
    destruct (commitErr flt); split; discriminate.
  - intros H. apply (GetNextJob_unchanged flt t now). left.
    destruct (GetNextJob flt t now) as [t' r]. cbn in *. now subst.
Qed.

(** X1: when the driver reports no error, [GetNextJob] returns the "no
    rows" sentinel exactly when no row is pending, and then the table is
    unchanged. *)
Theorem X1_GetNextJob_no_rows_iff_none_pending (flt : Faults) (t : Table) (now : Z) :
  beginErr flt = None -> queryErr flt = None ->
  (snd (GetNextJob flt t now) = NoRows <->
   forall j, In j (rows t) -> Status j <> StatusPending) /\
  (snd (GetNextJob flt t now) = NoRows -> fst (GetNextJob flt t now) = t).
Proof. exact (GetNextJob_NoRows flt t now). Qed.

Lemma X1_GetNextJob_no_rows_iff_none_pending_witness :
  snd (GetNextJob noFaults (sampleTable StatusProcessing) 300) = NoRows.
Proof.
  apply (proj1 (X1_GetNextJob_no_rows_iff_none_pending noFaults
                  (sampleTable StatusProcessing) 300 eq_refl eq_refl)).
  intros j [<-|[]]. discriminate.
Defined.

Lemma GetNextJob_Next flt t now t' job :
  GetNextJob flt t now = (t', Next job) ->
  exists row,
    selectOldestPending (rows t) = Some row /\
    job = scannedJob row /\
    t' = updateByID t (ID row) (setProcessing now).
Proof.
  unfold GetNextJob.
  destruct (beginErr flt); [discriminate|].
  destruct (queryErr flt); [discriminate|].
  destruct (selectOldestPending (rows t)) as [row|] eqn:Es; [|discriminate].
  destruct (execErr flt); [discriminate|].
  destruct (commitErr flt); [discriminate|].
  intros [= <- <-]. now exists row.
Qed.

(** X2: the job [GetNextJob] returns was a pending row at least as old (by
    [created_at]) as every pending row; every row with its id becomes processing with the new
    update time and no other row changes. The returned job carries the
    row's id, paths, error message and times, the processing status, and a
    retry count of 0 whatever the row holds. *)
Theorem X2_GetNextJob_hands_out_oldest_pending (flt : Faults) (t t' : Table)
        (now : Z) (job : Job) :
  GetNextJob flt t now = (t', Next job) ->
  exists row,
    In row (rows t) /\
    Status row = StatusPending /\
    (forall r, In r (rows t) -> Status r = StatusPending ->
               CreatedAt row <= CreatedAt r) /\
    job = mkJob (ID row) (FilePath row) (RelativePath row) StatusProcessing
                (ErrorMsg row) 0 (CreatedAt row) (UpdatedAt row) /\
    lastID t' = lastID t /\
    forall i j, rows t !! i = Some j ->
      rows t' !! i
      = Some (if ID j =? ID row
              then mkJob (ID j) (FilePath j) (RelativePath j) StatusProcessing
                         (ErrorMsg j) (RetryCount j) (CreatedAt j) now
              else j).
Proof.
  intros H. apply GetNextJob_Next in H as (row & Es & -> & ->).
  apply selectOldestPending_Some in Es as (Hin & Hs & Hmin).
  exists row. repeat split; try assumption.
  intros i j Hi. now rewrite QueueFacts.updateByID_lookup, Hi.
Qed.

Lemma X2_GetNextJob_hands_out_oldest_pending_witness :
  exists row, In row (rows twoJobs) /\ ID row = 2 /\
    snd (GetNextJob noFaults twoJobs 300)
    = Next (mkJob 2 "/watch/b.nzb" "b.nzb" StatusProcessing None 0 100 100).
Proof.
  destruct (X2_GetNextJob_hands_out_oldest_pending noFaults twoJobs
              (fst (GetNextJob noFaults twoJobs 300)) 300
              (mkJob 2 "/watch/b.nzb" "b.nzb" StatusProcessing None 0 100 100)
              eq_refl) as (row & Hin & _ & _ & Hjob & _).
  exists row. split; [exact Hin|]. split; [now injection Hjob|reflexivity].
Defined.

(** X3: two calls of [GetNextJob] in a row never hand out the same row: the
    second job has another id than the first. *)
Theorem X3_GetNextJob_never_twice (flt1 flt2 : Faults) (t t1 t2 : Table)
        (now1 now2 : Z) (job1 job2 : Job) :
  GetNextJob flt1 t now1 = (t1, Next job1) ->
  GetNextJob flt2 t1 now2 = (t2, Next job2) ->
  ID job1 <> ID job2.
Proof.
  intros H1 H2.
  apply GetNextJob_Next in H1 as (row1 & _ & -> & ->).
  apply GetNextJob_Next in H2 as (row2 & Es2 & -> & _).
  apply selectOldestPending_Some in Es2 as (Hin2 & Hs2 & _).
  cbn [ID scannedJob rows updateByID] in *.
  apply in_map_iff in Hin2 as (j & Hj & _). intros E.
  destruct (ID j =? ID row1) eqn:Eid.
  - subst row2. discriminate.
  - subst row2. apply Z.eqb_neq in Eid. congruence.
Qed.

Lemma X3_GetNextJob_never_twice_witness :
  exists job1 job2,
    snd (GetNextJob noFaults twoJobs 300) = Next job1 /\
    snd (GetNextJob noFaults (fst (GetNextJob noFaults twoJobs 300)) 301) = Next job2 /\
    ID job1 <> ID job2.
Proof.
  eexists _, _. split; [reflexivity|]. split; [reflexivity|].
  exact (X3_GetNextJob_never_twice noFaults noFaults twoJobs _ _ 300 301 _ _
                                   eq_refl eq_refl).
Defined.

(** X4: a successful [CleanupProcessingJobs] leaves no row processing:
    every processing row becomes pending (keeping its retry count and
    error message), every other row is untouched, the count returned is
    the number of rows that were processing, and running it again changes
    nothing and returns 0. *)
Theorem X4_CleanupProcessingJobs_recovers (flt : Faults) (t : Table) (now now' : Z) :
  execErr flt = None ->
  let r := CleanupProcessingJobs flt None t now in
  let t' := fst (fst r) in
  snd r = None /\
  (forall j, In j (rows t') -> Status j <> StatusProcessing) /\
  (forall i j, rows t !! i = Some j ->
     rows t' !! i
     = Some (if String.eqb (Status j) StatusProcessing
             then mkJob (ID j) (FilePath j) (RelativePath j) StatusPending
                        (ErrorMsg j) (RetryCount j) (CreatedAt j) now
             else j)) /\
  length (rows t') = length (rows t) /\
  snd (fst r) = Z.of_nat (length (List.filter isProcessing (rows t))) /\
  CleanupProcessingJobs flt None t' now' = (t', 0, None).
Proof.
  intros He r t'. subst t' r. unfold CleanupProcessingJobs. rewrite He.
  cbn [fst snd rows lastID].
  set (g := fun j => if isProcessing j then setPending now j else j).
  assert (Hg : forall j, isProcessing (g j) = false).
  { intros j. unfold g. destruct (isProcessing j) eqn:E; [reflexivity|exact E]. }
  split; [reflexivity|]. split; [|split; [|split; [|split]]].
  - intros j Hin Hs. apply in_map_iff in Hin as (j0 & <- & _).
    specialize (Hg j0). unfold isProcessing in Hg. rewrite Hs in Hg. discriminate.
  - intros i j Hi. change (map g (rows t)) with (g <$> rows t).
    now rewrite list_lookup_fmap, Hi.
  - apply length_map.
  - reflexivity.
  - assert (Hnone : List.filter isProcessing (map g (rows t)) = []).
    { induction (rows t) as [|j rs IH]; cbn; [reflexivity|]. now rewrite Hg. }
    assert (Hsame : map (fun j => if isProcessing j then setPending now' j else j)
                        (map g (rows t)) = map g (rows t)).
    { rewrite map_map. apply map_ext. intros j. now rewrite Hg. }
    now rewrite Hnone, Hsame.
Qed.

Lemma X4_CleanupProcessingJobs_recovers_witness :
  CleanupProcessingJobs noFaults None (sampleTable StatusProcessing) 300
  = (mkTable [mkJob 1 "/watch/a.nzb" "a.nzb" StatusPending (Some "boom") 2 100 300] 1,
     1, None).
Proof.
  pose proof (X4_CleanupProcessingJobs_recovers noFaults
                (sampleTable StatusProcessing) 300 301 eq_refl) as H.
  cbv zeta in H. destruct H as (_ & _ & _ & _ & _ & _). reflexivity.
Defined.

(** *** The integrity constraints are kept *)

Lemma map_preserving {A B} (proj : A -> B) (g : A -> A) (l : list A) :
  (forall x, proj (g x) = proj x) -> map proj (map g l) = map proj l.
Proof. intros H. rewrite map_map. apply map_ext. exact H. Qed.

Lemma wellFormed_rewrite t (g : Job -> Job) :
  (forall j, ID (g j) = ID j) -> (forall j, FilePath (g j) = FilePath j) ->
  wellFormed t -> wellFormed (mkTable (map g (rows t)) (lastID t)).
Proof.
  intros Hid Hfp (H1 & H2 & H3). unfold wellFormed. cbn [rows lastID].
  rewrite (map_preserving ID), (map_preserving FilePath) by assumption.
  split; [exact H1|]. split; [exact H2|].
  apply List.Forall_forall. intros j Hin. apply in_map_iff in Hin as (j0 & <- & Hin).
  rewrite Hid. rewrite List.Forall_forall in H3. now apply H3.
Qed.

Lemma wellFormed_updateByID t jobID f :
  (forall j, ID (f j) = ID j) -> (forall j, FilePath (f j) = FilePath j) ->
  wellFormed t -> wellFormed (updateByID t jobID f).
Proof.
  intros Hid Hfp. unfold updateByID. apply wellFormed_rewrite.
  - intros j. now destruct (ID j =? jobID).
  - intros j. now destruct (ID j =? jobID).
Qed.

Lemma wellFormed_AddJob flt t filePath relativePath now :
  wellFormed t -> wellFormed (fst (AddJob flt t filePath relativePath now)).
Proof.
  intros Hwf.
  destruct (snd (AddJob flt t filePath relativePath now)) as [e|] eqn:Hr.
  { now rewrite (QueueFacts.AddJob_error_unchanged _ _ _ _ _ _ Hr). }
  destruct (selectByFilepath (rows t) filePath) as [row|] eqn:Es.
  - destruct (String.eqb (Status row) StatusFailed
              || String.eqb (Status row) StatusCompleted) eqn:Est.
    + rewrite (QueueFacts.AddJob_reset _ _ _ _ _ row Hr Es).
      * unfold updateByFilepath. apply wellFormed_rewrite; [| |exact Hwf];
          intros j; now destruct (String.eqb (FilePath j) filePath).
      * apply orb_true_iff in Est as [E|E]; apply String.eqb_eq in E; auto.
    + apply orb_false_iff in Est as [E1 E2].
      apply String.eqb_neq in E1, E2.
      now rewrite (QueueFacts.AddJob_ignored _ _ _ _ _ row Es E1 E2).
  - rewrite (QueueFacts.AddJob_absent _ _ _ _ _ Hr Es).
    destruct Hwf as (H1 & H2 & H3). unfold wellFormed, insertJob.
    cbn [rows lastID]. rewrite !map_app. cbn [map ID FilePath].
    rewrite List.Forall_forall in H3.
    split; [|split].
    + apply NoDup_app. split; [exact H1|]. split; [|apply NoDup_singleton].
      intros x Hx Hx'. apply list_elem_of_In in Hx, Hx'.
      destruct Hx' as [<-|[]]. apply in_map_iff in Hx as (j & Hj & Hin).
      apply H3 in Hin. lia.
    + apply NoDup_app. split; [exact H2|]. split; [|apply NoDup_singleton].
      intros x Hx Hx'. apply list_elem_of_In in Hx, Hx'.
      destruct Hx' as [<-|[]]. apply in_map_iff in Hx as (j & Hj & Hin).
      exact (proj1 (QueueFacts.selectByFilepath_None _ _) Es j Hin Hj).
    + apply List.Forall_forall. intros j Hin. apply in_app_or in Hin as [Hin|[<-|[]]].
      * apply H3 in Hin. lia.
      * cbn. lia.
Qed.

(** X5: every queue operation keeps the integrity constraints of the
    table, whether it succeeds or fails: ids stay distinct and at most the
    AUTOINCREMENT counter, and no two rows share an absolute path. *)
Theorem X5_queue_operations_keep_integrity (flt : Faults) (t : Table)
        (filePath relativePath : string) (jobID : Z) (status : JobStatus)
        (errorMsg : string) (rowsAffectedErr : option string) (now : Z) :
  wellFormed t ->
  wellFormed (fst (AddJob flt t filePath relativePath now)) /\
  wellFormed (fst (UpdateJobStatus flt t jobID status errorMsg now)) /\
  wellFormed (fst (GetNextJob flt t now)) /\
  wellFormed (fst (fst (CleanupProcessingJobs flt rowsAffectedErr t now))).
Proof.
  intros Hwf. split; [now apply wellFormed_AddJob|]. split; [|split].
  - unfold UpdateJobStatus. destruct (execErr flt); [exact Hwf|]. cbn [fst].
    apply wellFormed_updateByID; [| |exact Hwf];
      intros j; now destruct (String.eqb status StatusFailed).
  - unfold GetNextJob.
    destruct (beginErr flt); [exact Hwf|].
    destruct (queryErr flt); [exact Hwf|].
    destruct (selectOldestPending (rows t)); [|exact Hwf].
    destruct (execErr flt); [exact Hwf|].
    destruct (commitErr flt); [exact Hwf|]. cbn [fst].
    now apply wellFormed_updateByID.
  - unfold CleanupProcessingJobs. destruct (execErr flt); [exact Hwf|].
    assert (H : wellFormed
                  (mkTable (map (fun j => if isProcessing j then setPending now j else j)
                                (rows t)) (lastID t))).
    { apply wellFormed_rewrite; [| |exact Hwf];
        intros j; now destruct (isProcessing j). }
    now destruct rowsAffectedErr.
Qed.

Lemma wellFormed_empty : wellFormed (mkTable [] 0).
Proof. repeat split; constructor. Qed.

Lemma X5_queue_operations_keep_integrity_witness :
  wellFormed (fst (AddJob noFaults (mkTable [] 0) "/watch/a.nzb" "a.nzb" 10)).
Proof.
  exact (proj1 (X5_queue_operations_keep_integrity noFaults (mkTable [] 0)
                  "/watch/a.nzb" "a.nzb" 0 StatusPending "" None 10
                  wellFormed_empty)).
Defined.

(** After a reset the lookup finds the row as pending. *)
Lemma AddJob_reset_found flt t filePath relativePath now row :
  snd (AddJob flt t filePath relativePath now) = None ->
  selectByFilepath (rows t) filePath = Some row ->
  Status row = StatusFailed \/ Status row = StatusCompleted ->
  exists row',
    selectByFilepath (rows (fst (AddJob flt t filePath relativePath now))) filePath
    = Some row' /\ Status row' = StatusPending.
Proof.
  intros Hok Hsel Hst. rewrite (QueueFacts.AddJob_reset _ _ _ _ _ _ Hok Hsel Hst).
  exists (resetRow StatusPending now relativePath row). split; [|reflexivity].
  unfold selectByFilepath, updateByFilepath in *. cbn [rows].
  rewrite QueueFacts.find_map_preserved.
  - rewrite Hsel. cbn. apply List.find_some in Hsel as [_ E]. now rewrite E.
  - intros x. now destruct (String.eqb (FilePath x) filePath) eqn:E.
Qed.

(** X6: [AddJob] is idempotent: once a call for a path has succeeded, a
    further call for the same path, with whatever relative path, changes
    nothing. *)
Theorem X6_AddJob_twice_is_once (flt flt' : Faults) (t : Table)
        (filePath relativePath relativePath' : string) (now now' : Z) :
  snd (AddJob flt t filePath relativePath now) = None ->
  fst (AddJob flt' (fst (AddJob flt t filePath relativePath now))
              filePath relativePath' now')
  = fst (AddJob flt t filePath relativePath now).
Proof.
  intros Hok.
  destruct (selectByFilepath (rows t) filePath) as [row|] eqn:Es.
  - destruct (String.eqb (Status row) StatusFailed
              || String.eqb (Status row) StatusCompleted) eqn:Est.
    + assert (Hst : Status row = StatusFailed \/ Status row = StatusCompleted).
      { apply orb_true_iff in Est as [E|E]; apply String.eqb_eq in E; auto. }
      destruct (AddJob_reset_found flt t filePath relativePath now row
                  Hok Es Hst) as (row' & Hsel & Hs).
      apply (QueueFacts.AddJob_ignored _ _ _ _ _ row' Hsel); rewrite Hs; discriminate.
    + apply orb_false_iff in Est as [E1 E2]. apply String.eqb_neq in E1, E2.
      rewrite (QueueFacts.AddJob_ignored _ _ _ _ _ row Es E1 E2).
      apply (QueueFacts.AddJob_ignored _ _ _ _ _ row Es E1 E2).
  - rewrite (QueueFacts.AddJob_absent _ _ _ _ _ Hok Es).
    apply (QueueFacts.AddJob_ignored _ _ _ _ _
             (mkJob (lastID t + 1) filePath relativePath StatusPending None 0 now now));
      [|discriminate|discriminate].
    unfold selectByFilepath, insertJob in *. cbn [rows].
    rewrite QueueFacts.find_append, Es. cbn. now rewrite String.eqb_refl.
Qed.

Lemma X6_AddJob_twice_is_once_witness :
  fst (AddJob noFaults (fst (AddJob noFaults (sampleTable StatusFailed)
                                    "/watch/a.nzb" "a.nzb" 300))
              "/watch/a.nzb" "other/a.nzb" 400)
  = fst (AddJob noFaults (sampleTable StatusFailed) "/watch/a.nzb" "a.nzb" 300).
Proof.
  exact (X6_AddJob_twice_is_once noFaults noFaults (sampleTable StatusFailed)
           "/watch/a.nzb" "a.nzb" "other/a.nzb" 300 400 eq_refl).
Defined.

(** *** Sweeping the jobs that ran out of retries *)

Lemma same_ID_same_row rs a b :
  NoDup (map ID rs) -> In a rs -> In b rs -> ID a = ID b -> a = b.
Proof.
  induction rs as [|r rs IH]; cbn [map]; intros Hnd Ha Hb E; [destruct Ha|].
  apply NoDup_cons in Hnd as [Hnotin Hnd].
  destruct Ha as [<-|Ha], Hb as [<-|Hb]; auto.
  - exfalso. apply Hnotin. apply list_elem_of_In. rewrite E. now apply in_map.
  - exfalso. apply Hnotin. apply list_elem_of_In. rewrite <- E. now apply in_map.
Qed.

Lemma setMoved_idem now j : setMoved now (setMoved now j) = setMoved now j.
Proof. reflexivity. Qed.

Section MoveFacts.

Variable World : Type.
Variable rename : World -> string -> string -> result World.
Variable updateErr : Z -> option string.
Variable scanErr : Z -> option string.
Variables (brokenFolder : string) (now maxRetries : Z) (t0 : Table).
Hypothesis t0_keys : NoDup (map ID (rows t0)).

Lemma moveLoop_spec found : forall w t renamed movedCount,
  (forall job, In job found -> In job (rows t0) /\ exceeded maxRetries job = true) ->
  (forall i j, rows t0 !! i = Some j -> swept brokenFolder now maxRetries renamed j (rows t !! i)) ->
  let r := moveLoop World rename updateErr scanErr brokenFolder now found w t renamed
                    movedCount in
  let t' := snd (fst (fst (fst r))) in
  let renamed' := snd (fst (fst r)) in
  let count := snd (fst r) in
  (forall i j, rows t0 !! i = Some j -> swept brokenFolder now maxRetries renamed' j (rows t' !! i)) /\
  (forall p, In p renamed' ->
     In p renamed \/
     exists job, In job found /\ splitFile (FilePath job) <> ""
                 /\ p = (FilePath job, destOf brokenFolder job)) /\
  lastID t' = lastID t /\
  movedCount <= count /\
  count - movedCount <= Z.of_nat (length renamed') - Z.of_nat (length renamed) /\
  ((forall job, In job found -> scanErr (ID job) = None) -> snd r = None) /\
  (forall e, snd r = Some e ->
     exists job x, In job found /\ scanErr (ID job) = Some x /\
                   e = "failed to scan job row: " +:+ x).
Proof.
  induction found as [|job rest IH]; intros w t renamed movedCount Hfound Hinv.
  - cbn. repeat split; auto; try lia. intros e H. discriminate.
  - assert (Hrest : forall job', In job' rest ->
                      In job' (rows t0) /\ exceeded maxRetries job' = true)
      by (intros job' H; apply Hfound; now right).
    destruct (Hfound job (or_introl eq_refl)) as [Hjob Hex].
    cbn [moveLoop].
    destruct (scanErr (ID job)) as [x|] eqn:Escan.
    { cbn [fst snd]. repeat split; auto; try lia.
      - intros Hall. specialize (Hall job (or_introl eq_refl)). congruence.
      - intros e [= <-]. exists job, x. repeat split; auto. now left. }
    assert (Hstep : forall (res' : list (string * string)) (o : option string)
                           (base : list (string * string)),
               (forall p, In p base -> In p renamed \/
                  p = (FilePath job, destOf brokenFolder job) /\
                  splitFile (FilePath job) <> "") ->
               (forall p, In p res' -> In p base \/
                  exists job', In job' rest /\ splitFile (FilePath job') <> ""
                               /\ p = (FilePath job', destOf brokenFolder job')) ->
               ((forall job', In job' rest -> scanErr (ID job') = None) -> o = None) ->
               (forall e, o = Some e ->
                  exists job' x, In job' rest /\ scanErr (ID job') = Some x /\
                                 e = "failed to scan job row: " +:+ x) ->
               (forall p, In p res' -> In p renamed \/
                  exists job', In job' (job :: rest) /\ splitFile (FilePath job') <> ""
                               /\ p = (FilePath job', destOf brokenFolder job')) /\
               ((forall job', In job' (job :: rest) -> scanErr (ID job') = None) ->
                o = None) /\
               (forall e, o = Some e ->
                  exists job' x, In job' (job :: rest) /\ scanErr (ID job') = Some x /\
                                 e = "failed to scan job row: " +:+ x)).
    { intros res' o base Hbase H2 H6 H7. split; [|split].
      - intros p Hp. destruct (H2 p Hp) as [Hin|(job' & ? & ? & ?)].
        + destruct (Hbase p Hin) as [?|[-> Hn]]; [now left|].
          right. exists job. repeat split; auto. now left.
        + right. exists job'. repeat split; auto. now right.
      - intros Hall. apply H6. intros job' H'. apply Hall. now right.
      - intros e He. destruct (H7 e He) as (job' & x & ? & ? & ?).
        exists job', x. repeat split; auto. now right. }
    destruct (String.eqb (splitFile (FilePath job)) "") eqn:Ename.
    { destruct (IH w t renamed movedCount Hrest Hinv)
        as (H1 & H2 & H3 & H4 & H5 & H6 & H7).
      destruct (Hstep _ _ renamed ltac:(intros; now left) H2 H6 H7) as (G2 & G6 & G7).
      repeat split; assumption. }
    apply String.eqb_neq in Ename.
    destruct (rename w (FilePath job) _) as [w'|e] eqn:Eren.
    2:{ destruct (IH w t renamed movedCount Hrest Hinv)
          as (H1 & H2 & H3 & H4 & H5 & H6 & H7).
        destruct (Hstep _ _ renamed ltac:(intros; now left) H2 H6 H7) as (G2 & G6 & G7).
        repeat split; assumption. }
    fold (destOf brokenFolder job).
    set (renamed1 := renamed ++ [(FilePath job, destOf brokenFolder job)]).
    assert (Hmono : forall j o, swept brokenFolder now maxRetries renamed j o -> swept brokenFolder now maxRetries renamed1 j o).
    { intros j o [H|(H & ? & ? & Hin)]; [now left|right].
      repeat split; auto. unfold renamed1. apply in_or_app. now left. }
    assert (Hlen : Z.of_nat (length renamed1) = Z.of_nat (length renamed) + 1).
    { unfold renamed1. rewrite length_app. cbn. lia. }
    assert (Hbase : forall p, In p renamed1 -> In p renamed \/
               p = (FilePath job, destOf brokenFolder job) /\
               splitFile (FilePath job) <> "").
    { intros p Hp. unfold renamed1 in Hp.
      apply in_app_or in Hp as [Hp|[<-|[]]]; [now left|right; now split]. }
    destruct (updateErr (ID job)) as [e|] eqn:Eupd.
    + assert (Hinv1 : forall i j, rows t0 !! i = Some j ->
                                  swept brokenFolder now maxRetries renamed1 j (rows t !! i))
        by (intros i j Hi; apply Hmono, Hinv, Hi).
      destruct (IH w' t renamed1 movedCount Hrest Hinv1)
        as (H1 & H2 & H3 & H4 & H5 & H6 & H7).
      destruct (Hstep _ _ renamed1 Hbase H2 H6 H7) as (G2 & G6 & G7).
      repeat split; try assumption. lia.
    + assert (Hinv1 : forall i j, rows t0 !! i = Some j ->
                swept brokenFolder now maxRetries renamed1 j (rows (updateByID t (ID job) (setMoved now)) !! i)).
      { intros i j Hi. rewrite QueueFacts.updateByID_lookup.
        destruct (Hinv i j Hi) as [H|(H & Hx & Hn & Hin)]; rewrite H; cbn.
        - destruct (ID j =? ID job) eqn:Eid; [|now left].
          apply Z.eqb_eq in Eid.
          assert (j = job).
          { apply (same_ID_same_row (rows t0)); auto.
            apply list_elem_of_In, list_elem_of_lookup. eauto. }
          subst j. right. repeat split; auto.
          unfold renamed1. apply in_or_app. right. now left.
        - right. split; [now destruct (ID j =? ID job)|].
          repeat split; auto. unfold renamed1. apply in_or_app. now left. }
      destruct (IH w' (updateByID t (ID job) (setMoved now)) renamed1
                   (movedCount + 1) Hrest Hinv1)
        as (H1 & H2 & H3 & H4 & H5 & H6 & H7).
      destruct (Hstep _ _ renamed1 Hbase H2 H6 H7) as (G2 & G6 & G7).
      repeat split; try assumption; lia.
Qed.

End MoveFacts.

(** X7: on a table with distinct ids, [MoveFailedFiles] touches only jobs
    that are failed with at least [maxRetries] retries: every row either
    stays as it was or, having been such a job with a file name, gets the
    status moved and the new update time, every other column (the file
    path among them) kept, after its file was renamed to the broken folder
    joined with that name; every rename is that of such a job; the count
    returned never exceeds the renames done. A rename or an update that
    fails never makes the call fail: an error is returned only for the
    broken folder, the query, a row that cannot be scanned, or the
    iteration. *)
Theorem X7_MoveFailedFiles_sweeps_only_exhausted_jobs
        (World : Type) (mkdirAll : World -> string -> result World)
        (rename : World -> string -> string -> result World)
        (updateErr scanErr : Z -> option string) (iterErr : option (nat * string))
        (flt : Faults) (w : World) (t : Table)
        (maxRetries : Z) (brokenFolder : string) (now : Z) :
  NoDup (map ID (rows t)) ->
  let r := MoveFailedFiles World mkdirAll rename updateErr scanErr iterErr flt w t
                           maxRetries brokenFolder now in
  let t' := snd (fst (fst (fst r))) in
  let renamed := snd (fst (fst r)) in
  let movedCount := snd (fst r) in
  (forall i j, rows t !! i = Some j ->
     rows t' !! i = Some j \/
     (rows t' !! i
      = Some (mkJob (ID j) (FilePath j) (RelativePath j) StatusMoved (ErrorMsg j)
                    (RetryCount j) (CreatedAt j) now) /\
      Status j = StatusFailed /\ maxRetries <= RetryCount j /\
      splitFile (FilePath j) <> "" /\
      In (FilePath j, Filepath.Join [brokenFolder; splitFile (FilePath j)]) renamed)) /\
  (forall src dst, In (src, dst) renamed ->
     exists j, In j (rows t) /\ Status j = StatusFailed /\ maxRetries <= RetryCount j /\
               src = FilePath j /\
               dst = Filepath.Join [brokenFolder; splitFile (FilePath j)]) /\
  0 <= movedCount <= Z.of_nat (length renamed) /\
  (forall e, snd r = Some e ->
     (exists x, mkdirAll w brokenFolder = Err x /\
                e = "failed to create broken folder: " +:+ x) \/
     (exists x, queryErr flt = Some x /\ e = "failed to query failed jobs: " +:+ x) \/
     (exists j x, In j (rows t) /\ scanErr (ID j) = Some x /\
                  e = "failed to scan job row: " +:+ x) \/
     (exists n x, iterErr = Some (n, x) /\ e = "error iterating failed jobs: " +:+ x)) /\
  (forall w1, mkdirAll w brokenFolder = Ok w1 -> queryErr flt = None ->
     (forall j, In j (rows t) -> scanErr (ID j) = None) -> iterErr = None ->
     snd r = None).
Proof.
  intros Hkeys r t' renamed movedCount.
  subst r t' renamed movedCount. unfold MoveFailedFiles.
  assert (Hex : forall j, exceeded maxRetries j = true ->
                          Status j = StatusFailed /\ maxRetries <= RetryCount j).
  { intros j H. unfold exceeded in H. apply andb_true_iff in H as [H1 H2].
    apply String.eqb_eq in H1. apply Z.leb_le in H2. auto. }
  destruct (mkdirAll w brokenFolder) as [w1|x] eqn:Emk.
  2:{ cbn [fst snd]. split; [intros; now left|]. split; [intros ? ? []|].
      split; [cbn; lia|]. split; [|intros ? [=]].
      intros e [= <-]. left. now exists x. }
  destruct (queryErr flt) as [x|] eqn:Eq.
  { cbn [fst snd]. split; [intros; now left|]. split; [intros ? ? []|].
    split; [cbn; lia|]. split; [|intros ? _ [=]].
    intros e [= <-]. right; left. now exists x. }
  assert (Hloop : forall found,
            (forall job, In job found -> In job (List.filter (exceeded maxRetries) (rows t))) ->
            let r := moveLoop World rename updateErr scanErr brokenFolder now found
                              w1 t [] 0 in
            (forall i j, rows t !! i = Some j ->
               rows (snd (fst (fst (fst r)))) !! i = Some j \/
               (rows (snd (fst (fst (fst r)))) !! i
                = Some (mkJob (ID j) (FilePath j) (RelativePath j) StatusMoved (ErrorMsg j)
                              (RetryCount j) (CreatedAt j) now) /\
                Status j = StatusFailed /\ maxRetries <= RetryCount j /\
                splitFile (FilePath j) <> "" /\
                In (FilePath j, Filepath.Join [brokenFolder; splitFile (FilePath j)])
                   (snd (fst (fst r))))) /\
            (forall src dst, In (src, dst) (snd (fst (fst r))) ->
               exists j, In j (rows t) /\ Status j = StatusFailed /\
                         maxRetries <= RetryCount j /\ src = FilePath j /\
                         dst = Filepath.Join [brokenFolder; splitFile (FilePath j)]) /\
            0 <= snd (fst r) <= Z.of_nat (length (snd (fst (fst r)))) /\
            (forall e, snd r = Some e ->
               exists j x, In j (rows t) /\ scanErr (ID j) = Some x /\
                           e = "failed to scan job row: " +:+ x) /\
            ((forall j, In j (rows t) -> scanErr (ID j) = None) -> snd r = None)).
  { intros found Hsub r.
    destruct (moveLoop_spec World rename updateErr scanErr brokenFolder now maxRetries
                t Hkeys found w1 t [] 0)
      as (H1 & H2 & _ & H4 & H5 & H6 & H7).
    { intros job Hin. apply Hsub in Hin. now apply List.filter_In in Hin. }
    { intros i j Hi. left. exact Hi. }
    fold r in H1, H2, H4, H5, H6, H7.
    split; [|split; [|split; [|split]]].
    - intros i j Hi. destruct (H1 i j Hi) as [H|(H & Hx & Hn & Hin)]; [now left|right].
      destruct (Hex j Hx). repeat split; auto.
    - intros src dst Hin. destruct (H2 _ Hin) as [[]|(job & Hjob & _ & [= -> ->])].
      apply Hsub, List.filter_In in Hjob as [Hjob Hx]. destruct (Hex job Hx).
      exists job. repeat split; auto.
    - cbn [length] in H5. lia.
    - intros e He. destruct (H7 e He) as (job & x & Hjob & Hs & ->).
      apply Hsub, List.filter_In in Hjob as [Hjob _]. now exists job, x.
    - intros Hall. apply H6. intros job Hjob.
      apply Hsub, List.filter_In in Hjob as [Hjob _]. now apply Hall. }
  destruct iterErr as [[n x]|].
  - destruct (Hloop (take n (List.filter (exceeded maxRetries) (rows t))))
      as (H1 & H2 & H3 & H4 & _).
    { intros job Hin.
      rewrite <- (take_drop n (List.filter (exceeded maxRetries) (rows t))).
      apply in_or_app. now left. }
    destruct (moveLoop World rename updateErr scanErr brokenFolder now
                (take n (List.filter (exceeded maxRetries) (rows t))) w1 t [] 0)
      as [res [scanned|]]; cbn [fst snd] in *.
    + split; [exact H1|]. split; [exact H2|]. split; [exact H3|].
      split; [|intros ? _ _ _ [=]].
      intros e He. right; right; left. now apply H4.
    + split; [exact H1|]. split; [exact H2|]. split; [exact H3|].
      split; [|intros ? _ _ _ [=]].
      intros e [= <-]. right; right; right. now exists n, x.
  - destruct (Hloop (List.filter (exceeded maxRetries) (rows t)) ltac:(auto))
      as (H1 & H2 & H3 & H4 & H5).
    split; [exact H1|]. split; [exact H2|]. split; [exact H3|].
    split.
    + intros e He. right; right; left. now apply H4.
    + intros w' _ _ Hall _. now apply H5.
Qed.

Lemma exhaustedTable_wellFormed : wellFormed exhaustedTable.
Proof.
  repeat split.
  - cbn. apply NoDup_cons. split; [|apply NoDup_singleton].
    intros H. apply list_elem_of_In in H as [H|[]]. discriminate.
  - cbn. apply NoDup_cons. split; [|apply NoDup_singleton].
    intros H. apply list_elem_of_In in H as [H|[]]. discriminate.
  - repeat constructor; cbn; lia.
Qed.

Lemma X7_MoveFailedFiles_sweeps_only_exhausted_jobs_witness :
  let r := MoveFailedFiles unit obliging obligingRename (fun _ => None) (fun _ => None)
                           None noFaults tt exhaustedTable 3 "broken" 300 in
  snd (fst (fst r)) = [("/watch/a.nzb", "broken/a.nzb")] /\
  map FilePath (rows (snd (fst (fst (fst r))))) = ["/watch/a.nzb"; "/watch/sub/b.nzb"] /\
  map Status (rows (snd (fst (fst (fst r))))) = [StatusMoved; StatusFailed] /\
  0 <= snd (fst r) <= 1.
Proof.
  split; [reflexivity|]. split; [reflexivity|]. split; [reflexivity|].
  exact (proj1 (proj2 (proj2
    (X7_MoveFailedFiles_sweeps_only_exhausted_jobs unit obliging obligingRename
       (fun _ => None) (fun _ => None) None noFaults tt exhaustedTable 3 "broken" 300
       (proj1 exhaustedTable_wellFormed))))).
Defined.

(** *** One turn of the worker *)

(** What a turn of the worker leaves in the queue. *)
Lemma workerTurn_settles
        (quote : string -> string) (mkdirAll : string -> option string)
        (repairNzb : string -> string -> string -> option string)
        (now1 now2 : Z) (outputBaseDir absTmpDir : string) (t : Table) :
  let r := Worker.workerTurn quote mkdirAll repairNzb noFaults now1 now2
                             outputBaseDir absTmpDir t in
  match snd r with
  | Worker.Idle =>
      fst r = t /\ forall j, In j (rows t) -> Status j <> StatusPending
  | Worker.QueueError _ => False
  | Worker.PathRejected job msg | Worker.RepairFailed job msg =>
      exists row, In row (rows t) /\ Status row = StatusPending /\ ID row = ID job /\
      forall i j, rows t !! i = Some j ->
        rows (fst r) !! i
        = Some (if ID j =? ID job
                then mkJob (ID j) (FilePath j) (RelativePath j) StatusFailed
                           (if String.eqb msg "" then None else Some msg)
                           (RetryCount j + 1) (CreatedAt j) now2
                else j)
  | Worker.Repaired job _ =>
      exists row, In row (rows t) /\ Status row = StatusPending /\ ID row = ID job /\
      forall i j, rows t !! i = Some j ->
        rows (fst r) !! i
        = Some (if ID j =? ID job
                then mkJob (ID j) (FilePath j) (RelativePath j) StatusCompleted
                           None (RetryCount j) (CreatedAt j) now2
                else j)
  end.
Proof.
  intros r. subst r. unfold Worker.workerTurn.
  destruct (GetNextJob noFaults t now1) as [q next] eqn:Eg.
  destruct next as [|e|job].
  - cbn [fst snd].
    pose proof (GetNextJob_NoRows noFaults t now1 eq_refl eq_refl)
      as [Hiff Hsame].
    rewrite Eg in Hiff, Hsame. cbn [fst snd] in *.
    split; [now apply Hsame|now apply Hiff].
  - exfalso. unfold GetNextJob in Eg. cbn in Eg.
    destruct (selectOldestPending (rows t)); discriminate.
  - apply GetNextJob_Next in Eg as (row & Es & -> & ->).
    apply selectOldestPending_Some in Es as (Hin & Hs & _).
    assert (Hfail : forall msg i j, rows t !! i = Some j ->
              rows (fst (UpdateJobStatus noFaults
                           (updateByID t (ID row) (setProcessing now1))
                           (ID row) StatusFailed msg now2)) !! i
              = Some (if ID j =? ID row
                      then mkJob (ID j) (FilePath j) (RelativePath j) StatusFailed
                                 (if String.eqb msg "" then None else Some msg)
                                 (RetryCount j + 1) (CreatedAt j) now2
                      else j)).
    { intros msg i j Hi. cbn [UpdateJobStatus noFaults execErr fst].
      rewrite !QueueFacts.updateByID_lookup, Hi. cbn.
      destruct (ID j =? ID row) eqn:E; cbn; rewrite E; reflexivity. }
    unfold App.calculateJobOutputPath. cbn [scannedJob ID RelativePath FilePath].
    destruct (Filepath.HasPrefix (Filepath.Clean (RelativePath row)) ".."
              || String.eqb (Filepath.Clean (RelativePath row)) "."
              || String.eqb (Filepath.Clean (RelativePath row)) ""
              || Filepath.IsAbs (Filepath.Clean (RelativePath row))).
    { cbn [fst snd]. exists row. split; [exact Hin|]. split; [exact Hs|]. split; [reflexivity|].
      intros i j Hi. now apply Hfail. }
    destruct (mkdirAll _) as [err|].
    { cbn [fst snd]. exists row. split; [exact Hin|]. split; [exact Hs|]. split; [reflexivity|].
      intros i j Hi. now apply Hfail. }
    destruct (repairNzb _ _ _) as [errMsg|]; cbn [fst snd].
    + exists row. split; [exact Hin|]. split; [exact Hs|]. split; [reflexivity|]. intros i j Hi. now apply Hfail.
    + exists row. split; [exact Hin|]. split; [exact Hs|]. split; [reflexivity|]. intros i j Hi.
      cbn [UpdateJobStatus noFaults execErr fst].
      rewrite !QueueFacts.updateByID_lookup, Hi. cbn.
      destruct (ID j =? ID row) eqn:E; cbn; rewrite E; reflexivity.
Qed.

(** X8: without driver faults, a worker turn that takes a job never leaves
    it processing. When the output path is rejected or the repair fails,
    every row with the job's id is failed with the error message and one
    more retry; when the repair succeeds it is completed with no error
    message and the same retry count; no other row changes. An idle turn
    changes nothing. *)
Theorem X8_workerTurn_settles_the_job
        (quote : string -> string) (mkdirAll : string -> option string)
        (repairNzb : string -> string -> string -> option string)
        (now1 now2 : Z) (outputBaseDir absTmpDir : string) (t : Table) :
  let r := Worker.workerTurn quote mkdirAll repairNzb noFaults now1 now2
                             outputBaseDir absTmpDir t in
  match snd r with
  | Worker.Idle =>
      fst r = t /\ forall j, In j (rows t) -> Status j <> StatusPending
  | Worker.QueueError _ => False
  | Worker.PathRejected job msg | Worker.RepairFailed job msg =>
      exists row, In row (rows t) /\ Status row = StatusPending /\ ID row = ID job /\
      forall i j, rows t !! i = Some j ->
        rows (fst r) !! i
        = Some (if ID j =? ID job
                then mkJob (ID j) (FilePath j) (RelativePath j) StatusFailed
                           (if String.eqb msg "" then None else Some msg)
                           (RetryCount j + 1) (CreatedAt j) now2
                else j)
  | Worker.Repaired job _ =>
      exists row, In row (rows t) /\ Status row = StatusPending /\ ID row = ID job /\
      forall i j, rows t !! i = Some j ->
        rows (fst r) !! i
        = Some (if ID j =? ID job
                then mkJob (ID j) (FilePath j) (RelativePath j) StatusCompleted
                           None (RetryCount j) (CreatedAt j) now2
                else j)
  end.
Proof.
  exact (workerTurn_settles quote mkdirAll repairNzb now1 now2 outputBaseDir absTmpDir t).
Qed.

End QueueOpsFacts.

(** ** Downloading with a constant segment size *)

Module AddressingFacts.

Import Download.

Lemma length_list_ascii s : length (list_ascii_of_string s) = String.length s.
Proof. induction s as [|c s IH]; cbn; [reflexivity|now rewrite IH]. Qed.

Lemma Ok_inj {A} (a b : A) : Ok a = Ok b -> a = b.
Proof. congruence. Qed.

Lemma WriteAt_shape content b off :
  0 <= off -> b <> EmptyString ->
  WriteAt content b off =
  Ok (take (Z.to_nat off) (content ++ replicate (Z.to_nat off - length content) zero)
      ++ list_ascii_of_string b
      ++ drop (Z.to_nat off + length (list_ascii_of_string b))
              (content ++ replicate (Z.to_nat off - length content) zero)).
Proof.
  intros H Hb. unfold WriteAt. apply Z.ltb_ge in H. rewrite H.
  destruct b; [congruence|reflexivity].
Qed.

(** Where a write lands: inside the written range the new bytes, and every
    byte that was there outside it is kept. *)
Lemma WriteAt_inside content b off c' (i : nat) :
  WriteAt content b off = Ok c' -> 0 <= off ->
  (i < String.length b)%nat ->
  c' !! (Z.to_nat off + i)%nat = list_ascii_of_string b !! i.
Proof.
  intros H Hoff Hi.
  rewrite WriteAt_shape in H; [|exact Hoff|intros ->; cbn in Hi; lia].
  apply Ok_inj in H. subst c'.
  set (data := list_ascii_of_string b).
  set (padded := content ++ replicate (Z.to_nat off - length content) zero).
  assert (Hp : (Z.to_nat off <= length padded)%nat).
  { unfold padded. rewrite length_app, length_replicate. lia. }
  rewrite lookup_app_r by (rewrite length_take; lia).
  rewrite length_take, Nat.min_l by exact Hp.
  replace (Z.to_nat off + i - Z.to_nat off)%nat with i by lia.
  apply lookup_app_l. unfold data. now rewrite length_list_ascii.
Qed.

Lemma WriteAt_outside content b off c' (i : nat) x :
  WriteAt content b off = Ok c' -> 0 <= off ->
  content !! i = Some x ->
  (i < Z.to_nat off \/ Z.to_nat off + String.length b <= i)%nat ->
  c' !! i = Some x.
Proof.
  intros H Hoff Hx Hi.
  destruct (string_dec b EmptyString) as [->|Hb].
  { unfold WriteAt in H. destruct (off <? 0); [discriminate|].
    apply Ok_inj in H. now subst c'. }
  rewrite WriteAt_shape in H by assumption.
  apply Ok_inj in H. subst c'.
  set (data := list_ascii_of_string b).
  set (padded := content ++ replicate (Z.to_nat off - length content) zero).
  assert (Hp : (Z.to_nat off <= length padded)%nat).
  { unfold padded. rewrite length_app, length_replicate. lia. }
  assert (Hpx : padded !! i = Some x).
  { unfold padded. rewrite lookup_app_l; [exact Hx|]. now apply lookup_lt_Some in Hx. }
  assert (Hd : length data = String.length b) by apply length_list_ascii.
  destruct Hi as [Hi|Hi].
  - rewrite lookup_app_l by (rewrite length_take; lia).
    now rewrite lookup_take_lt by lia.
  - rewrite lookup_app_r by (rewrite length_take; lia).
    rewrite length_take, Nat.min_l by exact Hp.
    rewrite lookup_app_r by lia.
    rewrite lookup_drop. rewrite <- Hpx. f_equal. lia.
Qed.

Lemma WriteAt_ok content b off : 0 <= off -> exists c', WriteAt content b off = Ok c'.
Proof.
  intros H. unfold WriteAt. apply Z.ltb_ge in H. rewrite H.
  destruct b; eauto.
Qed.

(** Reading [n] bytes back where they can all be looked up. *)
Lemma ReadAt_of_lookups content (data : list ascii) off :
  0 <= off ->
  (forall i, (i < length data)%nat -> content !! (Z.to_nat off + i)%nat = data !! i) ->
  FileIO.ReadAt content (length data) off = Ok data.
Proof.
  intros Hoff H. unfold FileIO.ReadAt. apply Z.ltb_ge in Hoff. rewrite Hoff.
  assert (E : take (length data) (drop (Z.to_nat off) content) = data).
  { apply list_eq. intros i. destruct (Nat.lt_ge_cases i (length data)) as [Hi|Hi].
    - rewrite lookup_take_lt by exact Hi. rewrite lookup_drop. now apply H.
    - rewrite lookup_take_ge by exact Hi. symmetry. now apply lookup_ge_None. }
  rewrite E. now rewrite Nat.ltb_irrefl.
Qed.

Section ConstantSize.

Variable bodyOf : string -> BodyResult.
Variables (hasCh : bool) (f : Nzb.NzbFile) (L : nat).

Local Abbreviation fetched := (DownloadOutcome.fetched bodyOf L).
Local Abbreviation placed := (DownloadOutcome.placed bodyOf L).

Lemma segmentLoop_constant todo : forall done st,
  NoDup (map Nzb.Number (done ++ todo)) ->
  (forall s, In s (done ++ todo) -> fetched s) ->
  cancelled st = false ->
  placed (content st) done ->
  let r := segmentLoop bodyOf hasCh false f todo st None in
  snd r = Waited None /\
  placed (content (fst r)) (done ++ todo) /\
  sent (fst r) = sent st.
Proof.
  induction todo as [|s todo IH]; intros done st Hnd Hall Hc Hpl; cbn [segmentLoop].
  - rewrite app_nil_r. cbn. auto.
  - rewrite Hc. cbn [orb].
    destruct (Hall s ltac:(apply in_or_app; right; now left))
      as ((buff & Hb & Hlen) & Hn1 & Hmax).
    assert (Hoff : GoInt.mul (Nzb.Number s - 1) (len buff)
                   = (Nzb.Number s - 1) * Z.of_nat L).
    { unfold GoInt.mul, len. rewrite Hlen. apply GoIntFacts.wrap_id.
      unfold GoInt.inRange, GoInt.minInt. split; [|exact Hmax].
      assert (0 <= (Nzb.Number s - 1) * Z.of_nat L) by nia. lia. }
    assert (Hpos : 0 <= (Nzb.Number s - 1) * Z.of_nat L) by nia.
    destruct (WriteAt_ok (content st) buff _ Hpos) as [c' Hw].
    assert (Est : exists st', segmentTask bodyOf hasCh f st s = (st', None) /\
                              content st' = c' /\ cancelled st' = cancelled st /\
                              sent st' = sent st).
    { unfold segmentTask. rewrite Hb, Hoff, Hw. eexists. split; [reflexivity|].
      cbn. auto. }
    destruct Est as (st' & -> & Hc' & Hcan & Hsent). cbn [fst snd].
    replace (done ++ s :: todo) with ((done ++ [s]) ++ todo) in *
      by (now rewrite <- app_assoc).
    destruct (IH (done ++ [s]) st' Hnd Hall) as (H1 & H2 & H3);
      [congruence| |rewrite <- Hsent; auto].
    intros s' buff' i Hin Hb' Hi. rewrite Hc'.
    apply in_app_or in Hin as [Hin|[<-|[]]].
    + (* an earlier segment: its bytes lie outside the new write *)
      destruct (Hall s' ltac:(apply in_or_app; left; apply in_or_app; now left))
        as ((b0 & Hb0 & Hlen') & Hn1' & _).
      rewrite Hb' in Hb0. injection Hb0 as <-.
      destruct (lookup_lt_is_Some_2 (list_ascii_of_string buff') i) as [x Hx];
        [rewrite length_list_ascii; lia|].
      rewrite Hx.
      eapply WriteAt_outside;
        [exact Hw|exact Hpos|rewrite <- Hx; now apply Hpl|].
      rewrite Hlen.
      assert (Hne : Nzb.Number s' <> Nzb.Number s).
      { clear -Hnd Hin. rewrite map_app, map_app in Hnd.
        apply NoDup_app in Hnd as [Hnd _]. apply NoDup_app in Hnd as (_ & Hd & _).
        intros E. apply (Hd (Nzb.Number s')).
        - apply list_elem_of_In. now apply in_map.
        - rewrite E. cbn. set_solver. }
      assert (0 <= Z.of_nat L) by lia.
      destruct (Z.lt_ge_cases (Nzb.Number s') (Nzb.Number s)).
      * left. assert ((Nzb.Number s' - 1) * Z.of_nat L + Z.of_nat L
                      <= (Nzb.Number s - 1) * Z.of_nat L) by nia.
        assert (0 <= (Nzb.Number s' - 1) * Z.of_nat L) by nia. lia.
      * right. assert ((Nzb.Number s - 1) * Z.of_nat L + Z.of_nat L
                       <= (Nzb.Number s' - 1) * Z.of_nat L) by nia. lia.
    + (* the segment just written *)
      rewrite Hb in Hb'. injection Hb' as <-.
      eapply WriteAt_inside; [exact Hw|exact Hpos|]. now rewrite Hlen.
Qed.

End ConstantSize.

(** The file a download with a constant body length leaves behind. *)
Lemma constant_size_read
        (bodyOf : string -> BodyResult) (hasCh : bool) (closeErr : option string)
        (f : Nzb.NzbFile) (L : nat) :
  NoDup (map Nzb.Number (Nzb.Segments f)) ->
  (forall s, In s (Nzb.Segments f) ->
     (exists buff, bodyOf (Nzb.Id s) = BodyOk buff /\ String.length buff = L) /\
     1 <= Nzb.Number s /\ (Nzb.Number s - 1) * Z.of_nat L <= GoInt.maxInt) ->
  let r := downloadWorker false None closeErr bodyOf hasCh false f in
  ret r = closeErr /\
  created r = true /\
  sent (final r) = [] /\
  forall s buff,
    In s (Nzb.Segments f) -> bodyOf (Nzb.Id s) = BodyOk buff ->
    FileIO.ReadAt (content (final r)) L ((Nzb.Number s - 1) * Z.of_nat L)
    = Ok (list_ascii_of_string buff).
Proof.
  intros Hnd Hall r. subst r. unfold downloadWorker.
  destruct (segmentLoop_constant bodyOf hasCh f L (Nzb.Segments f) [] (initial f)
              Hnd Hall eq_refl) as (H1 & H2 & H3).
  { intros s buff i []. }
  destruct (segmentLoop bodyOf hasCh false f (Nzb.Segments f) (initial f) None)
    as [st e]. cbn [fst snd] in *. subst e. cbn [ret created final].
  repeat split; [exact H3|].
  intros s buff Hin Hb.
  destruct (Hall s Hin) as ((buff' & Hb' & Hlen) & Hn1 & _).
  rewrite Hb in Hb'. injection Hb' as <-.
  rewrite <- Hlen, <- length_list_ascii.
  apply ReadAt_of_lookups; [rewrite length_list_ascii, Hlen; nia|].
  intros i Hi. rewrite length_list_ascii in *. rewrite Hlen in *.
  now apply (H2 s buff i Hin Hb).
Qed.

(** X9: when every segment of a file is fetched with a body of the same
    length [L], the segment numbers are distinct and at least 1, and the
    offsets fit a Go [int], [downloadWorker] succeeds, reports no segment
    broken, and reading [L] bytes of the file at offset (number - 1) * L
    gives the body fetched for each segment, whatever the order of the
    segments in the manifest. *)
Theorem X9_downloadWorker_constant_size_addressing
        (bodyOf : string -> BodyResult) (hasCh : bool) (closeErr : option string)
        (f : Nzb.NzbFile) (L : nat) :
  NoDup (map Nzb.Number (Nzb.Segments f)) ->
  (forall s, In s (Nzb.Segments f) ->
     (exists buff, bodyOf (Nzb.Id s) = BodyOk buff /\ String.length buff = L) /\
     1 <= Nzb.Number s /\ (Nzb.Number s - 1) * Z.of_nat L <= GoInt.maxInt) ->
  let r := downloadWorker false None closeErr bodyOf hasCh false f in
  ret r = closeErr /\
  created r = true /\
  sent (final r) = [] /\
  forall s buff,
    In s (Nzb.Segments f) -> bodyOf (Nzb.Id s) = BodyOk buff ->
    FileIO.ReadAt (content (final r)) L ((Nzb.Number s - 1) * Z.of_nat L)
    = Ok (list_ascii_of_string buff).
Proof. exact (constant_size_read bodyOf hasCh closeErr f L). Qed.

Lemma X9_downloadWorker_constant_size_addressing_witness :
  FileIO.ReadAt
    (content (final (downloadWorker false None None MoreSamples.evenBodies true false
                                    MoreSamples.reversedFile)))
    3 ((1 - 1) * 3)
  = Ok (list_ascii_of_string "abc").
Proof.
  refine (proj2 (proj2 (proj2
    (X9_downloadWorker_constant_size_addressing MoreSamples.evenBodies true None
       MoreSamples.reversedFile 3 _ _)))
    (Nzb.mkSegment 3 1 "part1@test") "abc" _ eq_refl).
  - cbn. apply NoDup_cons. split; [|apply NoDup_singleton].
    intros H. apply list_elem_of_In in H as [H|[]]. discriminate.
  - cbn. intros s [<-|[<-|[]]]; cbn; (split; [eexists; split; reflexivity|]);
      unfold GoInt.maxInt; lia.
  - cbn. auto.
Defined.

(** *** Segments that are not found, and fetches that fail *)

Import DownloadOutcome.

(** The state after a successful fetch and write. *)
Lemma segmentTask_fetched bodyOf hasCh f st s buff :
  bodyOf (Nzb.Id s) = BodyOk buff ->
  0 <= GoInt.mul (Nzb.Number s - 1) (len buff) ->
  exists st', segmentTask bodyOf hasCh f st s = (st', None) /\
              cancelled st' = cancelled st /\ sent st' = sent st /\
              segments st' = segments st /\
              map snd (writes st') = map snd (writes st) ++ [buff].
Proof.
  intros Hb Hoff. unfold segmentTask. rewrite Hb.
  destruct (WriteAt_ok (content st) buff _ Hoff) as [c' ->].
  eexists. split; [reflexivity|]. cbn. rewrite map_app. auto.
Qed.

(** Once a task has returned an error, the later fetches come back
    cancelled and change nothing. *)
Lemma segmentLoop_after_error bodyOf hasCh f e todo : forall st,
  cancelled st = false ->
  segmentLoop bodyOf hasCh false f todo st (Some e) = (st, Waited (Some e)).
Proof.
  induction todo as [|s todo IH]; intros st Hc; cbn [segmentLoop]; [reflexivity|].
  rewrite Hc. cbn [orb]. unfold segmentTask. cbn [fst]. now apply IH.
Qed.

(** A run of segments that are all fetched and written. *)
Lemma segmentLoop_fetched_prefix bodyOf hasCh f rest pre : forall st,
  (forall s, In s pre ->
     exists buff, bodyOf (Nzb.Id s) = BodyOk buff /\
                  0 <= GoInt.mul (Nzb.Number s - 1) (len buff)) ->
  cancelled st = false ->
  exists st',
    segmentLoop bodyOf hasCh false f (pre ++ rest) st None
    = segmentLoop bodyOf hasCh false f rest st' None /\
    cancelled st' = false /\ sent st' = sent st /\ segments st' = segments st /\
    map snd (writes st') = map snd (writes st) ++ bodiesOf bodyOf pre.
Proof.
  induction pre as [|s pre IH]; intros st Hall Hc.
  - exists st. cbn. rewrite app_nil_r. auto.
  - destruct (Hall s ltac:(now left)) as (buff & Hb & Hoff).
    destruct (segmentTask_fetched bodyOf hasCh f st s buff Hb Hoff)
      as (st1 & E1 & Hc1 & Hs1 & Hg1 & Hw1).
    destruct (IH st1) as (st' & E & Hc' & Hs' & Hg' & Hw');
      [intros s' Hs'; apply Hall; now right|congruence|].
    exists st'. cbn [app segmentLoop]. rewrite Hc. cbn [orb]. rewrite E1. cbn [fst snd].
    rewrite E. split; [reflexivity|]. repeat split; try congruence.
    rewrite Hw', Hw1. unfold bodiesOf. cbn [omap list_omap]. rewrite Hb. cbn.
    now rewrite <- app_assoc.
Qed.

Lemma segmentLoop_reports bodyOf f todo : forall st,
  (forall s, In s todo ->
     match bodyOf (Nzb.Id s) with
     | BodyOk buff => 0 <= GoInt.mul (Nzb.Number s - 1) (len buff)
     | BodyNotFound _ => True
     | _ => False
     end) ->
  cancelled st = false ->
  let r := segmentLoop bodyOf true false f todo st None in
  snd r = Waited None /\
  sent (fst r) = sent st ++ map (fun s => mkBroken s f)
                   (List.filter (fun s => isNotFound (bodyOf (Nzb.Id s))) todo) /\
  segments (fst r) = segments st /\
  map snd (writes (fst r)) = map snd (writes st) ++ bodiesOf bodyOf todo.
Proof.
  induction todo as [|s todo IH]; intros st Hall Hc; cbn [segmentLoop].
  - cbn. now rewrite !app_nil_r.
  - rewrite Hc. cbn [orb].
    pose proof (Hall s ltac:(now left)) as Hs.
    assert (Hrest : forall s', In s' todo -> _) by (intros s' H'; apply (Hall s'); now right).
    unfold bodiesOf. cbn [List.filter omap list_omap].
    destruct (bodyOf (Nzb.Id s)) as [buff|data| |msg] eqn:Hb; try contradiction.
    + destruct (segmentTask_fetched bodyOf true f st s buff Hb Hs)
        as (st1 & E1 & Hc1 & Hs1 & Hg1 & Hw1).
      rewrite E1. cbn [fst snd isNotFound fetchedBody].
      destruct (IH st1 Hrest ltac:(congruence)) as (H1 & H2 & H3 & H4).
      repeat split; try congruence.
      rewrite H4, Hw1. cbn. now rewrite <- app_assoc.
    + assert (E1 : segmentTask bodyOf true f st s
                   = (mkState (content st) (writes st) (sent st ++ [mkBroken s f])
                              (if onceDone st then segments st
                               else recalculate (segments st) (len data))
                              true (cancelled st) (progress st), None)).
      { unfold segmentTask. now rewrite Hb. }
      rewrite E1. cbn [fst snd isNotFound fetchedBody].
      match goal with
      | |- context [segmentLoop _ _ _ _ _ ?st1 None] =>
          destruct (IH st1 Hrest Hc) as (H1 & H2 & H3 & H4)
      end.
      cbn [sent segments writes] in H2, H3, H4.
      repeat split; [exact H1| | |exact H4].
      * rewrite H2. cbn [map]. now rewrite <- app_assoc.
      * rewrite H3. destruct (onceDone st);
          [reflexivity|apply DownloadFacts.recalculate_unchanged].
Qed.

(** X10: with a channel for broken segments, when every fetch of a file
    either succeeds (and its offset is not negative) or reports the
    article as not found, [downloadWorker] (task after task) returns what
    closing the file returns, sends exactly the segments that were not
    found, in manifest order and tagged with the file, writes the bodies
    of the others, and leaves the segments of the file as they were. *)
Theorem X10_downloadWorker_sends_exactly_the_missing_segments
        (bodyOf : string -> BodyResult) (closeErr : option string) (f : Nzb.NzbFile) :
  (forall s, In s (Nzb.Segments f) ->
     match bodyOf (Nzb.Id s) with
     | BodyOk buff => 0 <= GoInt.mul (Nzb.Number s - 1) (len buff)
     | BodyNotFound _ => True
     | _ => False
     end) ->
  let r := downloadWorker false None closeErr bodyOf true false f in
  ret r = closeErr /\
  sent (final r) = map (fun s => mkBroken s f)
                     (List.filter (fun s => isNotFound (bodyOf (Nzb.Id s)))
                                  (Nzb.Segments f)) /\
  segments (final r) = Nzb.Segments f /\
  map snd (writes (final r)) = bodiesOf bodyOf (Nzb.Segments f).
Proof.
  intros Hall r. subst r. unfold downloadWorker.
  destruct (segmentLoop_reports bodyOf f (Nzb.Segments f) (initial f) Hall eq_refl)
    as (H1 & H2 & H3 & H4).
  destruct (segmentLoop bodyOf true false f (Nzb.Segments f) (initial f) None)
    as [st e]. cbn [fst snd] in *. subst e. cbn [ret final].
  repeat split; assumption.
Qed.

Lemma X10_downloadWorker_sends_exactly_the_missing_segments_witness :
  sent (final (downloadWorker false None None MoreSamples.lossyBodies true false
                              Samples.sampleFile))
  = [mkBroken (Nzb.mkSegment 3 2 "part2@test") Samples.sampleFile].
Proof.
  refine (proj1 (proj2
    (X10_downloadWorker_sends_exactly_the_missing_segments MoreSamples.lossyBodies None
       Samples.sampleFile _))).
  cbn. intros s [<-|[<-|[]]]; vm_compute; [discriminate|exact I].
Defined.

(** X11: without a channel for broken segments, the first segment that
    is not found makes [downloadWorker] (task after task) return the error
    "segment <id> not found": the segments before it are written, nothing
    is written for the segments after it, and nothing is sent. *)
Theorem X11_downloadWorker_without_channel_fails_on_missing_segment
        (bodyOf : string -> BodyResult) (closeErr : option string) (f : Nzb.NzbFile)
        (pre post : list Nzb.NzbSegment) (s : Nzb.NzbSegment) (data : string) :
  Nzb.Segments f = pre ++ s :: post ->
  (forall s', In s' pre ->
     exists buff, bodyOf (Nzb.Id s') = BodyOk buff /\
                  0 <= GoInt.mul (Nzb.Number s' - 1) (len buff)) ->
  bodyOf (Nzb.Id s) = BodyNotFound data ->
  let r := downloadWorker false None closeErr bodyOf false false f in
  ret r = Some ("segment " +:+ Nzb.Id s +:+ " not found") /\
  sent (final r) = [] /\
  map snd (writes (final r)) = bodiesOf bodyOf pre.
Proof.
  intros Hsegs Hpre Hs r. subst r. unfold downloadWorker. rewrite Hsegs.
  destruct (segmentLoop_fetched_prefix bodyOf false f (s :: post) pre (initial f)
              Hpre eq_refl) as (st' & -> & Hc & Hsent & _ & Hw).
  cbn [segmentLoop]. rewrite Hc. cbn [orb].
  assert (E : segmentTask bodyOf false f st' s
              = (st', Some ("segment " +:+ Nzb.Id s +:+ " not found"))).
  { unfold segmentTask. now rewrite Hs. }
  rewrite E. cbn [fst snd].
  rewrite segmentLoop_after_error by exact Hc. cbn [ret final].
  repeat split; [exact Hsent|exact Hw].
Qed.

Lemma X11_downloadWorker_without_channel_fails_on_missing_segment_witness :
  ret (downloadWorker false None None MoreSamples.lossyBodies false false
                      Samples.sampleFile)
  = Some "segment part2@test not found".
Proof.
  refine (proj1
    (X11_downloadWorker_without_channel_fails_on_missing_segment
       MoreSamples.lossyBodies None Samples.sampleFile
       [Nzb.mkSegment 3 1 "part1@test"] [] (Nzb.mkSegment 3 2 "part2@test") ""
       eq_refl _ eq_refl)).
  intros s' [<-|[]]. exists "abc". split; [reflexivity|]. vm_compute. discriminate.
Defined.

(** X12: a fetch that fails with an error other than not-found or
    cancellation calls [cancel()]. Task after task, the loop then sees
    the cancelled context before it submits the next segment and returns
    nil without waiting for the pool: the error is returned only when the
    failing segment is the last of the file. *)
Theorem X12_downloadWorker_fetch_failure
        (bodyOf : string -> BodyResult) (hasCh : bool) (closeErr : option string)
        (f : Nzb.NzbFile) (pre post : list Nzb.NzbSegment) (s : Nzb.NzbSegment)
        (msg : string) :
  Nzb.Segments f = pre ++ s :: post ->
  (forall s', In s' pre ->
     exists buff, bodyOf (Nzb.Id s') = BodyOk buff /\
                  0 <= GoInt.mul (Nzb.Number s' - 1) (len buff)) ->
  bodyOf (Nzb.Id s) = BodyFailed msg ->
  let r := downloadWorker false None closeErr bodyOf hasCh false f in
  ret r = match post with [] => Some msg | _ => None end /\
  cancelled (final r) = true /\
  map snd (writes (final r)) = bodiesOf bodyOf pre.
Proof.
  intros Hsegs Hpre Hs r. subst r. unfold downloadWorker. rewrite Hsegs.
  destruct (segmentLoop_fetched_prefix bodyOf hasCh f (s :: post) pre (initial f)
              Hpre eq_refl) as (st' & -> & Hc & Hsent & _ & Hw).
  cbn [segmentLoop]. rewrite Hc. cbn [orb].
  assert (E : segmentTask bodyOf hasCh f st' s
              = (mkState (content st') (writes st') (sent st') (segments st')
                         (onceDone st') true (progress st'), Some msg)).
  { unfold segmentTask. now rewrite Hs. }
  rewrite E. cbn [fst snd].
  destruct post as [|s2 post]; cbn [segmentLoop cancelled orb ret final writes];
    repeat split; exact Hw.
Qed.

Lemma X12_downloadWorker_fetch_failure_witness :
  ret (downloadWorker false None None MoreSamples.failingBodies true false
                      Samples.sampleFile)
  = None.
Proof.
  exact (proj1
    (X12_downloadWorker_fetch_failure
       MoreSamples.failingBodies true None Samples.sampleFile
       [] [Nzb.mkSegment 3 2 "part2@test"] (Nzb.mkSegment 3 1 "part1@test")
       "connection reset" eq_refl (fun s' (H : In s' []) => match H with end) eq_refl)).
Defined.

End AddressingFacts.

(** ** What defaulting guarantees *)

Module ConfigShapeFacts.

Import Config ConfigShape.

Lemma defaultProvider_provisioned p : provisioned (defaultProvider p).
Proof.
  split.
  - rewrite ConfigFacts.defaultProvider_MaxConnections.
    destruct (MaxConnections p =? 0) eqn:E; [discriminate|now apply Z.eqb_neq].
  - rewrite ConfigFacts.defaultProvider_idle.
    destruct (MaxConnectionIdleTimeInSeconds p =? 0) eqn:E;
      [discriminate|now apply Z.eqb_neq].
Qed.

Lemma defaultProvider_sameServer p : sameServer p (defaultProvider p).
Proof.
  unfold sameServer, defaultProvider.
  destruct (MaxConnections p =? 0); cbn;
    destruct (MaxConnectionIdleTimeInSeconds p =? 0); cbn; auto.
Qed.

Lemma providers_provisioned ps : Forall provisioned (map defaultProvider ps).
Proof.
  induction ps as [|p ps IH]; cbn; constructor;
    [apply defaultProvider_provisioned|exact IH].
Qed.

Lemma providers_sameServer ps : Forall2 sameServer ps (map defaultProvider ps).
Proof.
  induction ps as [|p ps IH]; cbn; constructor;
    [apply defaultProvider_sameServer|exact IH].
Qed.

Lemma defaulted_nonzero (a d : Z) : d <> 0 -> (if a =? 0 then d else a) <> 0.
Proof. intros Hd. destruct (a =? 0) eqn:E; [exact Hd|now apply Z.eqb_neq]. Qed.

(** X13: whatever configuration it is given, [mergeWithDefault] returns
    one in which every provider has a connection limit and an idle time
    other than 0, the scan interval and the retry limit are not 0 and the
    broken folder is not empty; the providers are the given ones, in
    order, with the same host, port, credentials and TLS flag, and the
    download folder, the par2 path and the upload settings are the given
    ones. *)
Theorem X13_mergeWithDefault_fills_every_default (cfg : Config) (more : list Config) :
  let c := mergeWithDefault (cfg :: more) in
  Forall provisioned (DownloadProviders c) /\
  Forall provisioned (UploadProviders c) /\
  ScanInterval c <> 0 /\ MaxRetries c <> 0 /\ BrokenFolder c <> "" /\
  Forall2 sameServer (DownloadProviders cfg) (DownloadProviders c) /\
  Forall2 sameServer (UploadProviders cfg) (UploadProviders c) /\
  DownloadFolder c = DownloadFolder cfg /\ Par2Exe c = Par2Exe cfg /\
  Upload c = Upload cfg /\
  (DownloadWorkers cfg <> 0 -> DownloadWorkers c = DownloadWorkers cfg) /\
  (UploadWorkers cfg <> 0 -> UploadWorkers c = UploadWorkers cfg).
Proof.
  cbn [mergeWithDefault DownloadProviders UploadProviders ScanInterval MaxRetries
       BrokenFolder DownloadFolder Par2Exe Upload DownloadWorkers UploadWorkers].
  rewrite !ConfigFacts.providerLoop_fst.
  split; [apply providers_provisioned|]. split; [apply providers_provisioned|].
  split; [apply defaulted_nonzero; discriminate|].
  split; [apply defaulted_nonzero; discriminate|].
  split.
  { destruct (String.eqb (BrokenFolder cfg) "") eqn:E; [discriminate|].
    now apply String.eqb_neq. }
  split; [apply providers_sameServer|]. split; [apply providers_sameServer|].
  repeat split.
  - intros H. apply Z.eqb_neq in H. now rewrite H.
  - intros H. apply Z.eqb_neq in H. now rewrite H.
Qed.

Lemma fold_add_positive ps : forall w,
  Forall (fun p => 0 < MaxConnections p) ps ->
  0 <= w -> w + totalMaxConnections ps <= GoInt.maxInt ->
  fold_left (fun w p => GoInt.add w (MaxConnections p)) ps w
  = w + totalMaxConnections ps /\ 0 <= totalMaxConnections ps /\
  (ps <> [] -> 0 < totalMaxConnections ps).
Proof.
  induction ps as [|p ps IH]; intros w Hpos Hw Hmax.
  - cbn. repeat split; [lia|lia|congruence].
  - apply Forall_cons in Hpos as [Hp Hps].
    cbn [totalMaxConnections fold_left] in *.
    assert (Ht : 0 <= totalMaxConnections ps).
    { clear -Hps. induction ps as [|q qs IHq]; cbn; [lia|].
      apply Forall_cons in Hps as [Hq Hqs]. specialize (IHq Hqs). lia. }
    unfold GoInt.add at 2. rewrite GoIntFacts.wrap_id.
    + destruct (IH (w + MaxConnections p) Hps) as (E & _ & _); [lia|lia|].
      rewrite E. repeat split; lia.
    + unfold GoInt.inRange, GoInt.minInt, GoInt.maxInt in *. lia.
Qed.

(** X14: a configuration with at least one download provider, no negative
    connection limit and no negative worker count, whose connection
    limits after defaulting add up without overflowing an [int], is given
    at least one download worker; the same holds for the upload side. *)
Theorem X14_mergeWithDefault_gives_workers (cfg : Config) :
  DownloadProviders cfg <> [] -> UploadProviders cfg <> [] ->
  Forall (fun p => 0 <= MaxConnections p) (DownloadProviders cfg) ->
  Forall (fun p => 0 <= MaxConnections p) (UploadProviders cfg) ->
  totalMaxConnections (map defaultProvider (DownloadProviders cfg)) <= GoInt.maxInt ->
  totalMaxConnections (map defaultProvider (UploadProviders cfg)) <= GoInt.maxInt ->
  0 <= DownloadWorkers cfg -> 0 <= UploadWorkers cfg ->
  0 < DownloadWorkers (mergeWithDefault [cfg]) /\
  0 < UploadWorkers (mergeWithDefault [cfg]).
Proof.
  intros Hd Hu Hdp Hup Hdmax Humax Hdw Huw.
  assert (Hpos : forall ps, Forall (fun p => 0 <= MaxConnections p) ps ->
            Forall (fun p => 0 < MaxConnections p) (map defaultProvider ps)).
  { intros ps H. induction H as [|p ps Hp Hps IH]; cbn; constructor; auto.
    rewrite ConfigFacts.defaultProvider_MaxConnections.
    destruct (MaxConnections p =? 0) eqn:E; [lia|]. apply Z.eqb_neq in E. lia. }
  assert (Hne : forall ps : list Provider, ps <> [] -> map defaultProvider ps <> []).
  { intros [|p ps] H; [congruence|discriminate]. }
  cbn [mergeWithDefault DownloadWorkers UploadWorkers].
  rewrite !ConfigFacts.providerLoop_snd.
  destruct (fold_add_positive _ 0 (Hpos _ Hdp)) as (Ed & _ & Pd); [lia|lia|].
  destruct (fold_add_positive _ 0 (Hpos _ Hup)) as (Eu & _ & Pu); [lia|lia|].
  rewrite Ed, Eu. specialize (Pd (Hne _ Hd)). specialize (Pu (Hne _ Hu)).
  split.
  - destruct (DownloadWorkers cfg =? 0) eqn:E; [lia|]. apply Z.eqb_neq in E. lia.
  - destruct (UploadWorkers cfg =? 0) eqn:E; [lia|]. apply Z.eqb_neq in E. lia.
Qed.

Lemma X14_mergeWithDefault_gives_workers_witness :
  0 < DownloadWorkers (mergeWithDefault [Samples.sampleConfig]) /\
  0 < UploadWorkers (mergeWithDefault [Samples.sampleConfig]).
Proof.
  apply X14_mergeWithDefault_gives_workers; cbn;
    try discriminate; try (repeat constructor; cbn; lia);
    unfold GoInt.maxInt; lia.
Defined.

End ConfigShapeFacts.

(** ** Lines of the par2 output *)

Module ScannerFacts.

Import Scanner.

Lemma IndexAny_Some data : forall i,
  IndexAny data = Some i ->
  exists c, data !! i = Some c /\ isLineEnd c = true /\
            Forall (fun b => isLineEnd b = false) (take i data).
Proof.
  induction data as [|b data IH]; intros i H; cbn in H; [discriminate|].
  destruct (isLineEnd b) eqn:Eb.
  - injection H as <-. exists b. cbn. auto.
  - destruct (IndexAny data) as [j|]; [|discriminate]. injection H as <-.
    destruct (IH j eq_refl) as (c & Hc & Hl & Hf).
    exists c. cbn. auto.
Qed.

Lemma IndexAny_None data :
  IndexAny data = None -> Forall (fun b => isLineEnd b = false) data.
Proof.
  induction data as [|b data IH]; intros H; cbn in H; [constructor|].
  destruct (isLineEnd b) eqn:Eb; [discriminate|].
  destruct (IndexAny data); [discriminate|]. constructor; auto.
Qed.

Lemma byteIs_true data i c : byteIs data i c = true <-> data !! i = Some c.
Proof.
  unfold byteIs. destruct (data !! i) as [b|]; [|split; discriminate].
  rewrite Ascii.eqb_eq. split; congruence.
Qed.

Lemma isLineEnd_true c : isLineEnd c = true -> c = cr \/ c = lf.
Proof.
  unfold isLineEnd. intros H. apply orb_true_iff in H as [H|H];
    apply Ascii.eqb_eq in H; auto.
Qed.

(** X15: what one call of [scanLines] returns. The advance never exceeds
    the data. A token holds no carriage return and no line feed, it is
    followed in the data by the terminator that was consumed with it (a
    line feed, a carriage return and line feed, a carriage return alone
    when no line feed follows it in the data, or nothing at the end of
    the input), and the advance is then positive. No token is returned
    only when the data holds no terminator and either more input is to
    come or the data is empty. *)
Theorem X15_scanLines_token (data : list ascii) (atEOF : bool) :
  let advance := fst (scanLines data atEOF) in
  (advance <= length data)%nat /\
  match snd (scanLines data atEOF) with
  | Some token =>
      Forall (fun b => isLineEnd b = false) token /\
      (0 < advance)%nat /\
      exists terminator,
        take advance data = token ++ terminator /\
        (terminator = [lf] \/
         terminator = [cr; lf] \/
         (terminator = [cr] /\ drop advance data !! 0%nat <> Some lf) \/
         (terminator = [] /\ atEOF = true /\ advance = length data))
  | None =>
      advance = 0%nat /\
      Forall (fun b => isLineEnd b = false) data /\
      (atEOF = true -> data = [])
  end.
Proof.
  unfold scanLines.
  destruct (atEOF && (length data =? 0)%nat) eqn:E0.
  { apply andb_true_iff in E0 as [-> E0]. apply Nat.eqb_eq in E0.
    destruct data; [|discriminate]. cbn. repeat split; auto. }
  destruct (IndexAny data) as [i|] eqn:Ei.
  - destruct (IndexAny_Some data i Ei) as (c & Hc & Hl & Hf).
    pose proof (lookup_lt_Some _ _ _ Hc) as Hlt.
    destruct (byteIs data i lf) eqn:Elf.
    + apply byteIs_true in Elf. cbn [fst snd].
      split; [lia|]. split; [exact Hf|]. split; [lia|].
      exists [lf]. split; [|now left].
      replace (i + 1)%nat with (S i) by lia. now apply take_S_r.
    + assert (Hcr : c = cr).
      { destruct (isLineEnd_true c Hl) as [->| ->]; [reflexivity|].
        apply byteIs_true in Hc. congruence. }
      subst c.
      destruct ((i + 1 <? length data)%nat && byteIs data (i + 1) lf) eqn:E2;
        cbn [fst snd].
      * apply andb_true_iff in E2 as [H1 H2]. apply Nat.ltb_lt in H1.
        apply byteIs_true in H2.
        split; [lia|]. split; [exact Hf|]. split; [lia|].
        exists [cr; lf]. split; [|right; now left].
        replace (i + 1 + 1)%nat with (S (S i)) by lia.
        rewrite (take_S_r _ _ lf) by (now replace (S i) with (i + 1)%nat by lia).
        rewrite (take_S_r _ _ cr) by exact Hc.
        now rewrite <- app_assoc.
      * split; [lia|]. split; [exact Hf|]. split; [lia|].
        exists [cr]. split.
        { replace (i + 1)%nat with (S i) by lia. now apply take_S_r. }
        right; right; left. split; [reflexivity|].
        rewrite lookup_drop, Nat.add_0_r. intros Hn.
        apply andb_false_iff in E2 as [E2|E2].
        -- apply Nat.ltb_ge in E2. apply lookup_lt_Some in Hn. lia.
        -- apply byteIs_true in Hn. congruence.
  - pose proof (IndexAny_None data Ei) as Hf.
    destruct atEOF; cbn [fst snd].
    + cbn [andb] in E0. apply Nat.eqb_neq in E0.
      split; [lia|]. split; [exact Hf|]. split; [lia|].
      exists []. rewrite app_nil_r. split; [apply firstn_all|].
      right; right; right. auto.
    + repeat split; [lia|exact Hf|discriminate].
Qed.

End ScannerFacts.

(** ** Suffixes *)

Module StringsFacts.

Import Strings.

Lemma substring_append_r (a b : string) :
  substring (String.length a) (String.length b) (a +:+ b) = b.
Proof.
  induction a as [|c a IH].
  - rewrite StringFacts.append_nil_l. cbn [String.length].
    induction b as [|d b IHb]; cbn; [reflexivity|now rewrite IHb].
  - rewrite StringFacts.append_cons. cbn [String.length substring]. exact IH.
Qed.

Lemma substring_append_l (a b : string) :
  substring 0 (String.length a) (a +:+ b) = a.
Proof.
  induction a as [|c a IH].
  - rewrite StringFacts.append_nil_l. cbn. now destruct b.
  - rewrite StringFacts.append_cons. cbn [String.length substring]. now rewrite IH.
Qed.

Lemma substring_split (s : string) : forall n, (n <= String.length s)%nat ->
  s = substring 0 n s +:+ substring n (String.length s - n) s.
Proof.
  induction s as [|c s IH]; intros n Hn.
  - cbn in Hn. assert (n = 0%nat) by lia. subst n. reflexivity.
  - destruct n as [|n].
    + cbn [substring String.length]. rewrite StringFacts.append_nil_l.
      rewrite Nat.sub_0_r. symmetry.
      change (substring 0 (S (String.length s)) (String c s))
        with (String c (substring 0 (String.length s) s)).
      f_equal. clear. induction s as [|d s IHs]; cbn; [reflexivity|now rewrite IHs].
    + cbn [substring String.length]. rewrite StringFacts.append_cons.
      cbn [String.length] in Hn. f_equal.
      replace (S (String.length s) - S n)%nat with (String.length s - n)%nat by lia.
      apply IH. lia.
Qed.

Lemma length_substring_prefix (s : string) : forall n, (n <= String.length s)%nat ->
  String.length (substring 0 n s) = n.
Proof.
  induction s as [|c s IH]; intros [|n] Hn; cbn in *; try lia.
  rewrite IH; lia.
Qed.

(** [HasSuffix] decides that the string ends with the suffix. *)
Lemma HasSuffix_spec (s suffix : string) :
  HasSuffix s suffix = true <-> exists p, s = p +:+ suffix.
Proof.
  unfold HasSuffix. split.
  - intros H. apply andb_true_iff in H as [Hl He].
    apply Nat.leb_le in Hl. apply String.eqb_eq in He.
    exists (substring 0 (String.length s - String.length suffix) s).
    rewrite (substring_split s (String.length s - String.length suffix)) at 1 by lia.
    f_equal.
    replace (String.length s - (String.length s - String.length suffix))%nat
      with (String.length suffix) by lia.
    exact He.
  - intros [p ->]. rewrite StringFacts.length_append.
    apply andb_true_iff. split; [apply Nat.leb_le; lia|].
    replace (String.length p + String.length suffix - String.length suffix)%nat
      with (String.length p) by lia.
    rewrite substring_append_r. apply String.eqb_refl.
Qed.

Lemma HasSuffix_shorter (s a b : string) :
  HasSuffix s (a +:+ b) = true -> HasSuffix s b = true.
Proof.
  rewrite !HasSuffix_spec. intros [p ->]. exists (p +:+ a).
  now rewrite StringFacts.append_assoc.
Qed.

Lemma TrimSuffix_append (p suffix : string) : TrimSuffix (p +:+ suffix) suffix = p.
Proof.
  unfold TrimSuffix.
  rewrite (proj2 (HasSuffix_spec (p +:+ suffix) suffix)) by (now exists p).
  rewrite StringFacts.length_append.
  replace (String.length p + String.length suffix - String.length suffix)%nat
    with (String.length p) by lia.
  apply substring_append_l.
Qed.

End StringsFacts.

(** ** Choosing the par2 release asset *)

Module Par2DownloaderFacts.

Import Strings Par2Downloader.

Lemma firstWithSuffix_Some assets assetName : forall a,
  firstWithSuffix assets assetName = Some a ->
  exists pre post,
    assets = pre ++ a :: post /\
    HasSuffix (Name a) assetName = true /\
    forall b, In b pre -> HasSuffix (Name b) assetName = false.
Proof.
  induction assets as [|x assets IH]; intros a H; cbn in H; [discriminate|].
  destruct (HasSuffix (Name x) assetName) eqn:E.
  - injection H as <-. exists [], assets. repeat split; [exact E|intros b []].
  - destruct (IH a H) as (pre & post & -> & Ha & Hpre).
    exists (x :: pre), post. repeat split; [exact Ha|].
    intros b [<-|Hb]; [exact E|now apply Hpre].
Qed.

Lemma firstWithSuffix_None assets assetName :
  firstWithSuffix assets assetName = None <->
  forall b, In b assets -> HasSuffix (Name b) assetName = false.
Proof.
  induction assets as [|x assets IH]; cbn.
  - split; [intros _ b []|reflexivity].
  - destruct (HasSuffix (Name x) assetName) eqn:E.
    + split; [discriminate|]. intros H. specialize (H x (or_introl eq_refl)). congruence.
    + rewrite IH. split.
      * intros H b [<-|Hb]; [exact E|now apply H].
      * intros H b Hb. apply H. now right.
Qed.

(** The systems the switches know, and the archive each one is given. *)
Lemma assetNameFor_Ok goos goarch assetName :
  assetNameFor goos goarch = Ok assetName ->
  In (goos, goarch, assetName)
     [("linux", "amd64", "linux-amd64.xz"); ("linux", "arm64", "linux-arm64.xz");
      ("linux", "arm", "linux-armhf.xz"); ("darwin", "amd64", "macos-x64.xz");
      ("darwin", "arm64", "macos-arm64.xz"); ("windows", "amd64", "win-x64.zip");
      ("windows", "386", "win-x86.zip"); ("windows", "arm64", "win-arm64.zip")].
Proof.
  unfold assetNameFor. intros H.
  repeat match type of H with
         | (if String.eqb ?a ?b then _ else _) = _ =>
             let E := fresh "E" in
             destruct (String.eqb a b) eqn:E;
             [apply String.eqb_eq in E; subst|]
         end;
    try discriminate; injection H as <-; cbn; tauto.
Qed.

Lemma archive_suffix goos goarch assetName name :
  assetNameFor goos goarch = Ok assetName ->
  HasSuffix name assetName = true ->
  HasSuffix name ".xz" = true \/ HasSuffix name ".zip" = true.
Proof.
  intros H Hs. apply assetNameFor_Ok in H. cbn in H.
  repeat (destruct H as [H|H]; [injection H as <- <- <-|]); try contradiction.
  - left. now apply (StringsFacts.HasSuffix_shorter name "linux-amd64" ".xz").
  - left. now apply (StringsFacts.HasSuffix_shorter name "linux-arm64" ".xz").
  - left. now apply (StringsFacts.HasSuffix_shorter name "linux-armhf" ".xz").
  - left. now apply (StringsFacts.HasSuffix_shorter name "macos-x64" ".xz").
  - left. now apply (StringsFacts.HasSuffix_shorter name "macos-arm64" ".xz").
  - right. now apply (StringsFacts.HasSuffix_shorter name "win-x64" ".zip").
  - right. now apply (StringsFacts.HasSuffix_shorter name "win-x86" ".zip").
  - right. now apply (StringsFacts.HasSuffix_shorter name "win-arm64" ".zip").
Qed.

(** X16: [findAssetForSystem] succeeds exactly when the system is one of
    the eight pairs the switches know and some asset of the release has a
    name ending in the archive name of that pair; the asset returned is
    then the first such asset of the release. *)
Theorem X16_findAssetForSystem_first_match
        (assets : list Asset) (goos goarch : string) :
  (forall a, findAssetForSystem assets goos goarch = Ok a ->
     exists assetName pre post,
       assetNameFor goos goarch = Ok assetName /\
       assets = pre ++ a :: post /\
       HasSuffix (Name a) assetName = true /\
       (forall b, In b pre -> HasSuffix (Name b) assetName = false)) /\
  ((exists a, findAssetForSystem assets goos goarch = Ok a) <->
   exists assetName b,
     assetNameFor goos goarch = Ok assetName /\ In b assets /\
     HasSuffix (Name b) assetName = true).
Proof.
  unfold findAssetForSystem. split.
  - intros a H. destruct (assetNameFor goos goarch) as [assetName|e]; [|discriminate].
    destruct (firstWithSuffix assets assetName) as [x|] eqn:E; [|discriminate].
    injection H as <-. apply firstWithSuffix_Some in E as (pre & post & H1 & H2 & H3).
    exists assetName, pre, post. auto.
  - split.
    + intros [a H]. destruct (assetNameFor goos goarch) as [assetName|e]; [|discriminate].
      destruct (firstWithSuffix assets assetName) as [x|] eqn:E; [|discriminate].
      injection H as <-. apply firstWithSuffix_Some in E as (pre & post & -> & H2 & _).
      exists assetName, x. repeat split; [|exact H2]. apply in_or_app. right. now left.
    + intros (assetName & b & -> & Hb & Hs).
      destruct (firstWithSuffix assets assetName) as [x|] eqn:E; [now exists x|].
      rewrite firstWithSuffix_None in E. rewrite (E b Hb) in Hs. discriminate.
Qed.

(** X17: when [DownloadPar2Cmd] succeeds it returns "par2cmd", and the
    file it saved under that name is the download of an asset of the
    release whose name ends in .xz or .zip: the archive is stored as it
    is served, under the name of the executable. *)
Theorem X17_DownloadPar2Cmd_saves_the_archive
        (fetchLatestRelease : result (list Asset)) (goos goarch : string)
        (downloadFile : string -> string -> option string) (executable : string) :
  DownloadPar2Cmd fetchLatestRelease goos goarch downloadFile = Ok executable ->
  executable = "par2cmd" /\
  exists release asset,
    fetchLatestRelease = Ok release /\ In asset release /\
    downloadFile "par2cmd" (BrowserDownloadURL asset) = None /\
    (HasSuffix (Name asset) ".xz" = true \/ HasSuffix (Name asset) ".zip" = true).
Proof.
  unfold DownloadPar2Cmd, findAssetForSystem. intros H.
  destruct fetchLatestRelease as [release|e]; [|discriminate].
  destruct (assetNameFor goos goarch) as [assetName|e] eqn:En; [|discriminate].
  destruct (firstWithSuffix release assetName) as [asset|] eqn:E; [|discriminate].
  destruct (downloadFile "par2cmd" (BrowserDownloadURL asset)) eqn:Ed; [discriminate|].
  injection H as <-. split; [reflexivity|].
  apply firstWithSuffix_Some in E as (pre & post & -> & Hs & _).
  exists (pre ++ asset :: post), asset.
  repeat split; [apply in_or_app; right; now left|exact Ed|].
  exact (archive_suffix goos goarch assetName _ En Hs).
Qed.

Lemma X17_DownloadPar2Cmd_saves_the_archive_witness :
  exists release asset,
    Ok MoreSamples.sampleRelease = Ok release /\ In asset release /\
    (fun _ _ : string => @None string) "par2cmd" (BrowserDownloadURL asset) = None /\
    (HasSuffix (Name asset) ".xz" = true \/ HasSuffix (Name asset) ".zip" = true).
Proof.
  exact (proj2 (X17_DownloadPar2Cmd_saves_the_archive
                  (Ok MoreSamples.sampleRelease) "linux" "amd64"
                  (fun _ _ => None) "par2cmd" eq_refl)).
Defined.

End Par2DownloaderFacts.

(** ** Message ids *)

Module MessageIDFacts.

Import MessageID.

Lemma charset_alnum n c : String.get n charset = Some c -> isAlnum c = true.
Proof.
  unfold charset.
  do 62 (destruct n as [|n]; [intros [= <-]; reflexivity|]).
  cbn. discriminate.
Qed.

Lemma charset_get n : (n < 62)%nat -> exists c, String.get n charset = Some c.
Proof.
  intros H. unfold charset.
  do 62 (destruct n as [|n]; [eexists; reflexivity|]). lia.
Qed.

Lemma fill_spec intn size : forall i,
  (forall k, (intn k < 62)%nat) ->
  exists r, fill intn i size = Some r /\ String.length r = size /\ allAlnum r = true.
Proof.
  induction size as [|n IH]; intros i H; cbn [fill].
  - exists EmptyString. auto.
  - destruct (charset_get (intn i) (H i)) as [c Hc]. rewrite Hc.
    destruct (IH (S i) H) as (r & -> & Hl & Ha).
    exists (String c r). cbn. rewrite Hl, Ha, (charset_alnum _ _ Hc). auto.
Qed.

(** A shorter string from the same generator is the start of a longer one. *)
Lemma fill_prefix intn a : forall b i r,
  fill intn i (a + b) = Some r -> fill intn i a = Some (substring 0 a r).
Proof.
  induction a as [|a IH]; intros b i r H.
  - cbn. now destruct r.
  - cbn [Nat.add fill] in *.
    destruct (String.get (intn i) charset) as [c|]; [|discriminate].
    destruct (fill intn (S i) (a + b)) as [rest|] eqn:E; [|discriminate].
    injection H as <-. rewrite (IH b (S i) rest E). reflexivity.
Qed.

(** X18: as [Intn(62)] returns an index below 62, [generateRandomMessageID]
    returns a message id of 45 bytes: 32 ASCII letters or digits, an at
    sign, 8 letters or digits, a dot, and 3 letters or digits. *)
Theorem X18_generateRandomMessageID_format
        (stream : Z -> nat -> nat) (t1 t2 t3 : Z) :
  (forall seed k, (stream seed k < 62)%nat) ->
  exists a b c,
    generateRandomMessageID stream t1 t2 t3 = Some (a +:+ "@" +:+ b +:+ "." +:+ c) /\
    String.length a = 32%nat /\ String.length b = 8%nat /\ String.length c = 3%nat /\
    allAlnum a = true /\ allAlnum b = true /\ allAlnum c = true /\
    String.length (a +:+ "@" +:+ b +:+ "." +:+ c) = 45%nat.
Proof.
  intros H. unfold generateRandomMessageID, generateRandomString.
  destruct (fill_spec (stream t1) 32 0 (H t1)) as (a & -> & La & Aa).
  destruct (fill_spec (stream t2) 8 0 (H t2)) as (b & -> & Lb & Ab).
  destruct (fill_spec (stream t3) 3 0 (H t3)) as (c & -> & Lc & Ac).
  exists a, b, c. repeat split; try assumption.
  rewrite !StringFacts.length_append, La, Lb, Lc. reflexivity.
Qed.

Lemma X18_generateRandomMessageID_format_witness :
  exists a b c,
    generateRandomMessageID (fun seed k => (Z.to_nat seed + k) mod 62)%nat 1 2 3
    = Some (a +:+ "@" +:+ b +:+ "." +:+ c) /\
    String.length a = 32%nat /\ String.length b = 8%nat /\ String.length c = 3%nat /\
    allAlnum a = true /\ allAlnum b = true /\ allAlnum c = true /\
    String.length (a +:+ "@" +:+ b +:+ "." +:+ c) = 45%nat.
Proof.
  apply (X18_generateRandomMessageID_format
           (fun seed k => (Z.to_nat seed + k) mod 62)%nat 1 2 3).
  intros seed k. apply Nat.mod_upper_bound. lia.
Defined.

(** X19: each of the three parts of a message id comes from a generator
    seeded with the clock at that moment. When the three clock readings
    are equal the generators draw the same sequence, and the 8 bytes after
    the at sign and the 3 bytes after the dot repeat the first 8 and the
    first 3 bytes of the id. *)
Theorem X19_generateRandomMessageID_same_clock
        (stream : Z -> nat -> nat) (t : Z) (id : string) :
  generateRandomMessageID stream t t t = Some id ->
  exists a,
    generateRandomString stream t 32 = Some a /\
    id = a +:+ "@" +:+ substring 0 8 a +:+ "." +:+ substring 0 3 a.
Proof.
  unfold generateRandomMessageID, generateRandomString. intros H.
  destruct (fill (stream t) 0 32) as [a|] eqn:Ea; [|discriminate].
  rewrite (fill_prefix (stream t) 8 24 0 a Ea) in H.
  rewrite (fill_prefix (stream t) 3 29 0 a Ea) in H.
  injection H as <-. now exists a.
Qed.

Lemma X19_generateRandomMessageID_same_clock_witness :
  exists a,
    generateRandomString (fun seed k => (Z.to_nat seed + k) mod 62)%nat 7 32 = Some a /\
    "HIJKLMNOPQRSTUVWXYZabcdefghijklm@HIJKLMNO.HIJ"
    = a +:+ "@" +:+ substring 0 8 a +:+ "." +:+ substring 0 3 a.
Proof.
  exact (X19_generateRandomMessageID_same_clock
           (fun seed k => (Z.to_nat seed + k) mod 62)%nat 7
           "HIJKLMNOPQRSTUVWXYZabcdefghijklm@HIJKLMNO.HIJ" eq_refl).
Defined.

End MessageIDFacts.

(** ** Posting the repaired segments *)

Module UploadFacts.

Import Nzb Upload.

Lemma ReadAt_ok content (n : nat) off :
  0 <= off -> (Z.to_nat off + n <= length content)%nat ->
  FileIO.ReadAt content n off = Ok (take n (drop (Z.to_nat off) content)) /\
  length (take n (drop (Z.to_nat off) content)) = n.
Proof.
  intros Hoff Hlen. unfold FileIO.ReadAt. apply Z.ltb_ge in Hoff. rewrite Hoff.
  assert (E : length (take n (drop (Z.to_nat off) content)) = n)
    by (rewrite length_take, length_drop; lia).
  rewrite E, Nat.ltb_irrefl. auto.
Qed.

Section TaskFacts.

Variable content : list ascii.
Variable policy : Config.ObfuscationPolicy.
Variable totalFiles : Z.
Variable nzbFile : NzbFile.
Variable UnixMilli : Z -> Z.
Variable msgId : nat -> string.
Variable randText : nat -> string.
Variable post : Article.articleData -> option string.

Local Abbreviation task := (uploadTask content policy totalFiles nzbFile UnixMilli msgId randText post).
Local Abbreviation loop := (uploadLoop content policy totalFiles nzbFile UnixMilli msgId randText post).
Local Abbreviation articleOf := (article content policy totalFiles nzbFile UnixMilli msgId randText).

(** The offsets of a segment that can be read. *)
Lemma uploadable_offsets n s :
  uploadable content n s ->
  let seg := Download.segment s in
  GoInt.mul (Number seg - 1) (Bytes seg) = (Number seg - 1) * Bytes seg /\
  GoInt.mul (Number seg) (Bytes seg) = Number seg * Bytes seg /\
  0 <= (Number seg - 1) * Bytes seg /\
  (Z.to_nat ((Number seg - 1) * Bytes seg) + Z.to_nat (Bytes seg)
   <= length content)%nat.
Proof.
  intros (Hb & Hn & Hsize & Hmax) seg. subst seg. unfold fileSize in Hsize.
  assert (H0 : 0 <= (Number (Download.segment s) - 1) * Bytes (Download.segment s))
    by nia.
  assert (H1 : (Number (Download.segment s) - 1) * Bytes (Download.segment s)
               <= Number (Download.segment s) * Bytes (Download.segment s)) by nia.
  unfold GoInt.mul. rewrite !GoIntFacts.wrap_id
    by (unfold GoInt.inRange, GoInt.minInt, GoInt.maxInt in *; lia).
  repeat split; lia.
Qed.

(** A task for a readable segment whose article is accepted. *)
Lemma uploadTask_done st s :
  uploadable content (length (segments st)) s ->
  (forall ar, post ar = None) ->
  exists old buff,
    segments st !! slot s = Some old /\
    length buff = Z.to_nat (Bytes (Download.segment s)) /\
    FileIO.ReadAt content (Z.to_nat (Bytes (Download.segment s)))
                  ((Number (Download.segment s) - 1) * Bytes (Download.segment s))
    = Ok buff /\
    task st s =
    (mkState (<[slot s := setId old (msgId (drawn st))]> (segments st))
             (posted st ++ [articleOf st s buff]) (S (drawn st))
             (if obfuscated policy then S (S (texts st)) else texts st),
     TaskDone).
Proof.
  intros Hu Hpost. pose proof Hu as (Hb & Hn & Hsize & Hmax).
  destruct (uploadable_offsets _ s Hu) as (E1 & _ & H0 & Hlen).
  destruct (ReadAt_ok content (Z.to_nat (Bytes (Download.segment s))) _ H0 Hlen)
    as [Hr Hl].
  destruct (lookup_lt_is_Some_2 (segments st) (slot s)) as [old Hold];
    [unfold slot; lia|].
  eexists old, _. split; [exact Hold|]. split; [exact Hl|]. split; [exact Hr|].
  unfold uploadTask. rewrite E1, Hr.
  replace (Bytes (Download.segment s) <? 0) with false by (symmetry; apply Z.ltb_ge; lia).
  replace (Bytes (Download.segment s) =? 0) with false by (symmetry; apply Z.eqb_neq; lia).
  rewrite Hpost.
  replace (Number (Download.segment s) - 1 <? 0) with false
    by (symmetry; apply Z.ltb_ge; lia).
  cbn [segments posted drawn texts]. now rewrite Hold.
Qed.

Lemma uploadLoop_replaces bs : forall st,
  (forall s, In s bs -> uploadable content (length (segments st)) s) ->
  NoDup (map slot bs) ->
  (forall ar, post ar = None) ->
  exists st',
    loop bs st None = Finished st' None /\
    length (segments st') = length (segments st) /\
    length (posted st') = (length (posted st) + length bs)%nat /\
    (forall k s, bs !! k = Some s ->
       exists old ar,
         segments st !! slot s = Some old /\
         segments st' !! slot s = Some (setId old (msgId (drawn st + k))) /\
         posted st' !! (length (posted st) + k)%nat = Some ar /\
         Article.MsgId ar = msgId (drawn st + k) /\
         Article.PartNum ar = Number (Download.segment s) /\
         Article.PartSize ar = Bytes (Download.segment s) /\
         Article.PartEnd ar - Article.PartBegin ar = Article.PartSize ar /\
         Article.PartBegin ar
         = (Number (Download.segment s) - 1) * Bytes (Download.segment s) /\
         Download.len (Article.body ar) = Article.PartSize ar) /\
    (forall i, (forall s, In s bs -> slot s <> i) ->
               segments st' !! i = segments st !! i) /\
    (forall i, i < length (posted st) -> posted st' !! i = posted st !! i)%nat.
Proof.
  induction bs as [|s bs IH]; intros st Hall Hnd Hpost.
  - exists st. cbn. repeat split; try lia; auto. intros k s H. discriminate.
  - destruct (uploadTask_done st s (Hall s (or_introl eq_refl)) Hpost)
      as (old & buff & Hold & Hl & Hr & Et).
    cbn [loop uploadLoop]. rewrite Et.
    set (st1 := mkState _ _ _ _) in *.
    cbn [map] in Hnd. apply NoDup_cons in Hnd as [Hs Hnd].
    destruct (IH st1) as (st' & E & Hlen & Hp & Hk & Hi & Hq).
    { intros s' Hs'. unfold st1. cbn [segments]. rewrite length_insert.
      apply Hall. now right. }
    { exact Hnd. }
    { exact Hpost. }
    exists st'. split; [exact E|].
    unfold st1 in Hlen, Hp, Hk, Hi, Hq. cbn [segments posted drawn] in Hlen, Hp, Hk, Hi, Hq.
    rewrite length_insert in Hlen. rewrite length_app in Hp, Hq. cbn [length] in Hp, Hq.
    split; [exact Hlen|]. split; [cbn [length]; lia|].
    split; [|split].
    + intros [|k] s' Hk'.
      * cbn in Hk'. injection Hk' as <-.
        exists old, (articleOf st s buff). split; [exact Hold|].
        split.
        { rewrite Hi.
          - rewrite Nat.add_0_r. apply list_lookup_insert_eq.
            now apply lookup_lt_Some in Hold.
          - intros s' Hs' E'. apply Hs. rewrite <- E'.
            apply list_elem_of_In. now apply in_map. }
        split.
        { rewrite Hq by lia. rewrite Nat.add_0_r.
          rewrite lookup_app_r by lia. now rewrite Nat.sub_diag. }
        destruct (uploadable_offsets _ s (Hall s (or_introl eq_refl)))
          as (E1 & E2 & _ & _).
        cbn [articleOf article Article.MsgId Article.PartNum Article.PartSize
             Article.PartEnd Article.PartBegin Article.body].
        rewrite Nat.add_0_r, E1, E2.
        repeat split; try lia.
        unfold Download.len. rewrite <- AddressingFacts.length_list_ascii.
        rewrite list_ascii_of_string_of_list_ascii, Hl.
        destruct (Hall s (or_introl eq_refl)) as (Hb & _). lia.
      * cbn in Hk'. destruct (Hk k s' Hk') as (old' & ar & H1 & H2 & H3 & H4 & H5).
        assert (Hne : slot s <> slot s').
        { intros E'. apply Hs. rewrite E'. apply list_elem_of_In. apply in_map.
          apply list_elem_of_In. exact (list_elem_of_lookup_2 _ _ _ Hk'). }
        rewrite list_lookup_insert_ne in H1 by exact Hne.
        exists old', ar. split; [exact H1|].
        replace (drawn st + S k)%nat with (S (drawn st) + k)%nat by lia.
        split; [exact H2|].
        replace (length (posted st) + S k)%nat
          with (length (posted st) + 1 + k)%nat by lia.
        rewrite length_app in H3. cbn [length] in H3.
        split; [exact H3|]. split; [exact H4|]. exact H5.
    + intros i Hne. rewrite Hi by (intros s' Hs'; apply Hne; now right).
      apply list_lookup_insert_ne. apply Hne. now left.
    + intros i Hlt. rewrite Hq by lia. now apply lookup_app_l.
Qed.

End TaskFacts.

(** X20: the upload addresses the file as the download does. When every
    segment of a file was fetched with a body of the same length [L] (as
    for X9) and a segment of the file is declared with [L] bytes, the
    task that posts it reads from the downloaded file exactly the body
    that was fetched for it: that body is the body of the article, which
    is posted when the server accepts it. *)
Theorem X20_upload_reads_what_download_wrote
        (bodyOf : string -> Download.BodyResult) (hasCh : bool)
        (closeErr : option string) (f : NzbFile) (L : nat)
        (policy : Config.ObfuscationPolicy) (totalFiles : Z) (nzbFile : NzbFile)
        (UnixMilli : Z -> Z) (msgId randText : nat -> string)
        (post : Article.articleData -> option string)
        (st : State) (s : Download.brokenSegment) (buff : string) :
  NoDup (map Number (Segments f)) ->
  (forall x, In x (Segments f) ->
     (exists b, bodyOf (Id x) = Download.BodyOk b /\ String.length b = L) /\
     1 <= Number x /\ (Number x - 1) * Z.of_nat L <= GoInt.maxInt) ->
  In (Download.segment s) (Segments f) ->
  Bytes (Download.segment s) = Z.of_nat L -> (0 < L)%nat ->
  bodyOf (Id (Download.segment s)) = Download.BodyOk buff ->
  let content :=
    Download.content
      (Download.final (Download.downloadWorker false None closeErr bodyOf hasCh false f)) in
  let ar := article content policy totalFiles nzbFile UnixMilli msgId randText st s
                    (list_ascii_of_string buff) in
  let r := uploadTask content policy totalFiles nzbFile UnixMilli msgId randText post
                      st s in
  Article.body ar = buff /\
  Article.PartNum ar = Number (Download.segment s) /\
  Article.PartSize ar = Download.len buff /\
  (forall e, post ar = Some e -> snd r = TaskError e) /\
  (post ar = None -> posted (fst r) = posted st ++ [ar]).
Proof.
  intros Hnd Hall Hin HB HL Hb content ar r.
  destruct (AddressingFacts.constant_size_read bodyOf hasCh closeErr f L Hnd Hall)
    as (_ & _ & _ & Hread).
  specialize (Hread _ buff Hin Hb). fold content in Hread.
  destruct (Hall _ Hin) as ((b & Hb' & Hlen) & Hn1 & Hmax).
  rewrite Hb in Hb'. injection Hb' as <-.
  assert (Hoff : GoInt.mul (Number (Download.segment s) - 1) (Bytes (Download.segment s))
                 = (Number (Download.segment s) - 1) * Z.of_nat L).
  { rewrite HB. unfold GoInt.mul. apply GoIntFacts.wrap_id.
    unfold GoInt.inRange, GoInt.minInt. split; [|exact Hmax].
    assert (0 <= (Number (Download.segment s) - 1) * Z.of_nat L) by nia. lia. }
  split; [apply string_of_list_ascii_of_string|].
  split; [reflexivity|].
  split; [cbn; unfold Download.len; lia|].
  assert (Et : r = match post ar with
                   | Some e => (fst r, TaskError e)
                   | None => r
                   end /\ (post ar = None -> posted (fst r) = posted st ++ [ar])).
  { subst r. unfold uploadTask. rewrite Hoff, HB, Nat2Z.id, Hread.
    replace (Z.of_nat L <? 0) with false by (symmetry; apply Z.ltb_ge; lia).
    replace (Z.of_nat L =? 0) with false by (symmetry; apply Z.eqb_neq; lia).
    fold ar. destruct (post ar) as [e|]; [split; [reflexivity|discriminate]|].
    split; [reflexivity|]. intros _.
    destruct (if Number (Download.segment s) - 1 <? 0 then None else _);
      reflexivity. }
  destruct Et as [Et Hp]. split; [|exact Hp].
  intros e He. rewrite Et, He. reflexivity.
Qed.

Lemma X20_upload_reads_what_download_wrote_witness :
  Article.body
    (article (Download.content
                (Download.final
                   (Download.downloadWorker false None None MoreSamples.evenBodies
                                            true false MoreSamples.reversedFile)))
             "none" 1 MoreSamples.reversedFile (fun t => t) MoreSamples.freshIds
             MoreSamples.freshIds (mkState (Segments MoreSamples.reversedFile) [] 0 0)
             (Download.mkBroken (mkSegment 3 2 "part2@test") MoreSamples.reversedFile)
             (list_ascii_of_string "def"))
  = "def".
Proof.
  refine (proj1
    (X20_upload_reads_what_download_wrote MoreSamples.evenBodies true None
       MoreSamples.reversedFile 3 "none" 1 MoreSamples.reversedFile (fun t => t)
       MoreSamples.freshIds MoreSamples.freshIds MoreSamples.accepting
       (mkState (Segments MoreSamples.reversedFile) [] 0 0)
       (Download.mkBroken (mkSegment 3 2 "part2@test") MoreSamples.reversedFile)
       "def" _ _ _ eq_refl _ eq_refl)).
  - cbn. apply NoDup_cons. split; [|apply NoDup_singleton].
    intros H. apply list_elem_of_In in H as [H|[]]. discriminate.
  - cbn. intros x [<-|[<-|[]]]; cbn; (split; [eexists; split; reflexivity|]);
      unfold GoInt.maxInt; lia.
  - cbn. auto.
  - lia.
Defined.

(** X21: when every broken segment of a file can be read from the
    repaired file (it has bytes, a number within the segment array, and
    its end lies within the file), the numbers are distinct and the
    server accepts every article, the upload of the file (task after
    task) ends without error, one article is posted per broken segment,
    in order, and the entry of the segment array at index number - 1 is
    given the Message-ID of that article, keeping its size and number;
    every other entry is left as it was. Each article covers the bytes
    from (number - 1) * size, and its part size is the length of its body
    and the difference of its part end and part begin. *)
Theorem X21_replaceBrokenSegments_new_ids
        (content : list ascii) (policy : Config.ObfuscationPolicy) (totalFiles : Z)
        (nzbFile : NzbFile) (UnixMilli : Z -> Z) (msgId randText : nat -> string)
        (post : Article.articleData -> option string)
        (bs : list Download.brokenSegment) (segs : list NzbSegment) :
  (forall s, In s bs -> uploadable content (length segs) s) ->
  NoDup (map slot bs) ->
  (forall ar, post ar = None) ->
  exists st',
    uploadLoop content policy totalFiles nzbFile UnixMilli msgId randText post bs
               (mkState segs [] 0 0) None
    = Finished st' None /\
    length (segments st') = length segs /\
    length (posted st') = length bs /\
    (forall k s, bs !! k = Some s ->
       exists old ar,
         segs !! slot s = Some old /\
         segments st' !! slot s = Some (setId old (msgId k)) /\
         posted st' !! k = Some ar /\
         Article.MsgId ar = msgId k /\
         Article.PartNum ar = Number (Download.segment s) /\
         Article.PartSize ar = Bytes (Download.segment s) /\
         Article.PartEnd ar - Article.PartBegin ar = Article.PartSize ar /\
         Article.PartBegin ar
         = (Number (Download.segment s) - 1) * Bytes (Download.segment s) /\
         Download.len (Article.body ar) = Article.PartSize ar) /\
    (forall i, (forall s, In s bs -> slot s <> i) -> segments st' !! i = segs !! i).
Proof.
  intros Hall Hnd Hpost.
  destruct (uploadLoop_replaces content policy totalFiles nzbFile UnixMilli msgId
              randText post bs (mkState segs [] 0 0) Hall Hnd Hpost)
    as (st' & E & Hlen & Hp & Hk & Hi & _).
  exists st'. cbn [segments posted drawn length Nat.add] in *.
  repeat split; assumption.
Qed.

Lemma X21_replaceBrokenSegments_new_ids_witness :
  exists st',
    uploadLoop MoreSamples.repairedContent "none" 1 Samples.sampleFile (fun t => t)
               MoreSamples.freshIds MoreSamples.freshIds MoreSamples.accepting
               [MoreSamples.brokenSecond]
               (mkState (Segments Samples.sampleFile) [] 0 0) None
    = Finished st' None /\
    length (segments st') = 2%nat.
Proof.
  destruct (X21_replaceBrokenSegments_new_ids MoreSamples.repairedContent "none" 1
              Samples.sampleFile (fun t => t) MoreSamples.freshIds MoreSamples.freshIds
              MoreSamples.accepting [MoreSamples.brokenSecond]
              (Segments Samples.sampleFile)) as (st' & E & Hlen & _).
  - intros s [<-|[]]. unfold uploadable, fileSize, GoInt.maxInt. cbn. lia.
  - cbn. apply NoDup_singleton.
  - reflexivity.
  - exists st'. split; [exact E|exact Hlen].
Defined.

Section Safety.

Variable content : list ascii.
Variable policy : Config.ObfuscationPolicy.
Variable totalFiles : Z.
Variable nzbFile : NzbFile.
Variable UnixMilli : Z -> Z.
Variable msgId : nat -> string.
Variable randText : nat -> string.
Variable post : Article.articleData -> option string.

Lemma uploadTask_accounted segs st s :
  accountedFor segs st ->
  accountedFor segs
    (fst (uploadTask content policy totalFiles nzbFile UnixMilli msgId randText post st s)).
Proof.
  intros (HN & HB & Hids). unfold uploadTask.
  destruct (Bytes (Download.segment s) <? 0); [now repeat split|].
  destruct (FileIO.ReadAt _ _ _) as [buff|e]; [|now repeat split].
  destruct (Bytes (Download.segment s) =? 0); [now repeat split|].
  set (ar := article _ _ _ _ _ _ _ _ _ _).
  destruct (post ar) as [e|]; [now repeat split|].
  cbn [segments posted drawn texts].
  assert (Hgrow : accountedFor segs
            (mkState (segments st) (posted st ++ [ar]) (S (drawn st))
                     (if obfuscated policy then S (S (texts st)) else texts st))).
  { repeat split; auto. cbn [segments posted]. intros i new Hi.
    destruct (Hids i new Hi) as [H|(a & Ha & H)]; [now left|right].
    exists a. split; [apply in_or_app; now left|exact H]. }
  destruct (Number (Download.segment s) - 1 <? 0) eqn:Eneg; [exact Hgrow|].
  destruct (segments st !! slot s) as [old|] eqn:Eold; [|exact Hgrow].
  cbn [fst]. apply Z.ltb_ge in Eneg.
  pose proof (lookup_lt_Some _ _ _ Eold) as Hlt.
  split; [|split]; cbn [segments posted].
  - rewrite <- HN. apply list_eq. intros i. rewrite !list_lookup_fmap.
    destruct (Nat.eq_dec i (slot s)) as [->|Hne].
    + rewrite list_lookup_insert_eq by exact Hlt. now rewrite Eold.
    + now rewrite list_lookup_insert_ne by congruence.
  - rewrite <- HB. apply list_eq. intros i. rewrite !list_lookup_fmap.
    destruct (Nat.eq_dec i (slot s)) as [->|Hne].
    + rewrite list_lookup_insert_eq by exact Hlt. now rewrite Eold.
    + now rewrite list_lookup_insert_ne by congruence.
  - intros i new Hi. destruct (Nat.eq_dec i (slot s)) as [->|Hne].
    + rewrite list_lookup_insert_eq in Hi by exact Hlt. injection Hi as <-.
      right. exists ar. split; [apply in_or_app; right; now left|].
      split; [reflexivity|]. cbn. unfold slot. lia.
    + rewrite list_lookup_insert_ne in Hi by congruence.
      destruct (Hids i new Hi) as [H|(a & Ha & H)]; [now left|right].
      exists a. split; [apply in_or_app; now left|exact H].
Qed.

Lemma uploadLoop_accounted segs bs : forall st poolErr,
  accountedFor segs st ->
  match uploadLoop content policy totalFiles nzbFile UnixMilli msgId randText post
                   bs st poolErr with
  | Finished st' _ => accountedFor segs st'
  | Panicked _ => True
  end.
Proof.
  induction bs as [|s bs IH]; intros st poolErr Hst; cbn [uploadLoop]; [exact Hst|].
  destruct poolErr as [e|]; [now apply IH|].
  pose proof (uploadTask_accounted segs st s Hst) as Hstep.
  destruct (uploadTask _ _ _ _ _ _ _ _ st s) as [st' [|e|m]]; cbn [fst] in Hstep.
  - now apply IH.
  - now apply IH.
  - exact I.
Qed.

End Safety.

(** X22: whatever the server answers and whichever segments are listed
    as broken, when the upload of a file returns (with or without an
    error) the segment array has the sizes and numbers it had, and every
    entry is either the entry it was or carries the Message-ID of an
    article the server accepted for that part (part number = index + 1). *)
Theorem X22_replaceBrokenSegments_ids_are_posted
        (content : list ascii) (policy : Config.ObfuscationPolicy) (totalFiles : Z)
        (nzbFile : NzbFile) (UnixMilli : Z -> Z) (msgId randText : nat -> string)
        (post : Article.articleData -> option string)
        (bs : list Download.brokenSegment) (segs : list NzbSegment) :
  match uploadLoop content policy totalFiles nzbFile UnixMilli msgId randText post bs
                   (mkState segs [] 0 0) None with
  | Finished st' _ => accountedFor segs st'
  | Panicked _ => True
  end.
Proof.
  apply uploadLoop_accounted. repeat split. intros i new H. now left.
Qed.

(** X23: a broken segment declared with 0 bytes makes the upload panic:
    the read of no bytes succeeds, and the part total divides the file
    size by the segment size. *)
Theorem X23_replaceBrokenSegments_zero_bytes_panics
        (content : list ascii) (policy : Config.ObfuscationPolicy) (totalFiles : Z)
        (nzbFile : NzbFile) (UnixMilli : Z -> Z) (msgId randText : nat -> string)
        (post : Article.articleData -> option string)
        (s : Download.brokenSegment) (rest : list Download.brokenSegment)
        (st : State) :
  Bytes (Download.segment s) = 0 ->
  uploadLoop content policy totalFiles nzbFile UnixMilli msgId randText post
             (s :: rest) st None
  = Panicked "integer divide by zero".
Proof.
  intros H0. cbn [uploadLoop]. unfold uploadTask. rewrite H0.
  replace (GoInt.mul (Number (Download.segment s) - 1) 0) with 0.
  - reflexivity.
  - unfold GoInt.mul. rewrite Z.mul_0_r. reflexivity.
Qed.

Lemma X23_replaceBrokenSegments_zero_bytes_panics_witness :
  uploadLoop MoreSamples.repairedContent "none" 1 Samples.sampleFile (fun t => t)
             MoreSamples.freshIds MoreSamples.freshIds MoreSamples.accepting
             [Download.mkBroken (mkSegment 0 2 "part2@test") Samples.sampleFile]
             (mkState (Segments Samples.sampleFile) [] 0 0) None
  = Panicked "integer divide by zero".
Proof.
  exact (X23_replaceBrokenSegments_zero_bytes_panics MoreSamples.repairedContent "none" 1
           Samples.sampleFile (fun t => t) MoreSamples.freshIds MoreSamples.freshIds
           MoreSamples.accepting
           (Download.mkBroken (mkSegment 0 2 "part2@test") Samples.sampleFile) []
           (mkState (Segments Samples.sampleFile) [] 0 0) eq_refl).
Defined.

End UploadFacts.

(** ** The output path of a job stays under the output directory *)

Module ContainmentFacts.

Import Filepath PathShape StringFacts.

Lemma elements_nonempty path : elements path <> [].
Proof.
  destruct path as [|c rest]; cbn [elements]; [discriminate|].
  destruct (Ascii.eqb c Separator); [discriminate|].
  destruct (elements rest); discriminate.
Qed.

Lemma elements_append (a b : string) :
  elements (a +:+ "/" +:+ b) = elements a ++ elements b.
Proof.
  induction a as [|c a IH].
  - rewrite append_nil_l. reflexivity.
  - rewrite append_cons. cbn [elements]. rewrite IH.
    destruct (Ascii.eqb c Separator); [reflexivity|].
    pose proof (elements_nonempty a) as Hne.
    destruct (elements a) as [|e es]; [congruence|reflexivity].
Qed.

Lemma elements_noSeparator path :
  Forall (fun e => hasSeparator e = false) (elements path).
Proof.
  induction path as [|c rest IH]; cbn [elements].
  - repeat constructor.
  - destruct (Ascii.eqb c Separator) eqn:E.
    + constructor; [reflexivity|exact IH].
    + destruct (elements rest) as [|e es]; [repeat constructor; cbn; now rewrite E|].
      apply Forall_cons in IH as [He Hes].
      constructor; [cbn; now rewrite E, He|exact Hes].
Qed.

Lemma elements_name e : hasSeparator e = false -> elements e = [e].
Proof.
  induction e as [|c e IH]; cbn; [reflexivity|]. intros H.
  apply orb_false_iff in H as [Hc He]. rewrite Hc, (IH He). reflexivity.
Qed.

Lemma joinSep_cons e f fs : joinSep (e :: f :: fs) = e +:+ "/" +:+ joinSep (f :: fs).
Proof. reflexivity. Qed.

Lemma elements_joinSep l :
  l <> [] -> Forall (fun e => hasSeparator e = false) l -> elements (joinSep l) = l.
Proof.
  induction l as [|e l IH]; intros Hne Hl; [congruence|].
  apply Forall_cons in Hl as [He Hl].
  destruct l as [|f fs].
  - cbn [joinSep]. now apply elements_name.
  - rewrite joinSep_cons, elements_append, (elements_name e He), IH by (congruence || assumption).
    reflexivity.
Qed.

Lemma joinSep_app a b :
  a <> [] -> b <> [] -> joinSep (a ++ b) = joinSep a +:+ "/" +:+ joinSep b.
Proof.
  induction a as [|e a IH]; intros Ha Hb; [congruence|].
  destruct a as [|f fs].
  - destruct b as [|g gs]; [congruence|]. reflexivity.
  - change ((e :: f :: fs) ++ b) with (e :: f :: (fs ++ b)).
    rewrite !joinSep_cons. change (f :: fs ++ b) with ((f :: fs) ++ b).
    rewrite IH by (congruence || assumption).
    now rewrite !append_assoc.
Qed.

Lemma isName_spec e :
  isName e = true ->
  String.eqb e "" = false /\ String.eqb e "." = false /\ String.eqb e ".." = false /\
  hasSeparator e = false.
Proof.
  unfold isName. intros H.
  apply andb_true_iff in H as [H H4]. apply andb_true_iff in H as [H H3].
  apply andb_true_iff in H as [H1 H2].
  repeat split; now apply negb_true_iff.
Qed.

(** A name is pushed on the stack. *)
Lemma cleanStep_name rooted stack e :
  isName e = true -> cleanStep rooted stack e = e :: stack.
Proof.
  intros H. apply isName_spec in H as (H1 & H2 & H3 & _).
  unfold cleanStep. now rewrite H1, H2, H3.
Qed.

Lemma fold_names rooted l : forall stack,
  Forall (fun e => isName e = true) l ->
  fold_left (cleanStep rooted) l stack = rev l ++ stack.
Proof.
  induction l as [|e l IH]; intros stack H; [reflexivity|].
  apply Forall_cons in H as [He Hl]. cbn [fold_left rev].
  rewrite (cleanStep_name _ _ _ He), (IH _ Hl). now rewrite <- app_assoc.
Qed.

Lemma cleanStep_shaped stack e :
  hasSeparator e = false -> shaped stack -> shaped (cleanStep false stack e).
Proof.
  intros He (names & ups & -> & Hn & Hu). unfold cleanStep.
  destruct (String.eqb e "") eqn:E1; [now exists names, ups|].
  destruct (String.eqb e ".") eqn:E2; [now exists names, ups|].
  destruct (String.eqb e "..") eqn:E3.
  - apply String.eqb_eq in E3. subst e.
    destruct names as [|n names].
    + cbn [app]. destruct ups as [|u ups].
      * exists [], [".."]. repeat split; repeat constructor.
      * apply Forall_cons in Hu as [-> Hu]. cbn.
        exists [], (".." :: ".." :: ups). repeat split; repeat constructor; auto.
    + apply Forall_cons in Hn as [Hn0 Hn]. cbn [app].
      apply isName_spec in Hn0 as (_ & _ & H3 & _). rewrite H3.
      now exists names, ups.
  - exists (e :: names), ups. repeat split; [|exact Hu].
    constructor; [|exact Hn]. unfold isName. now rewrite E1, E2, E3, He.
Qed.

Lemma fold_shaped l : forall stack,
  Forall (fun e => hasSeparator e = false) l -> shaped stack ->
  shaped (fold_left (cleanStep false) l stack).
Proof.
  induction l as [|e l IH]; intros stack Hl Hs; [exact Hs|].
  apply Forall_cons in Hl as [He Hl]. cbn [fold_left].
  apply IH; [exact Hl|]. now apply cleanStep_shaped.
Qed.

(** No stack holds an empty element. *)
Lemma fold_no_empty rooted l : forall stack,
  Forall (fun e => e <> "") stack ->
  Forall (fun e => e <> "") (fold_left (cleanStep rooted) l stack).
Proof.
  induction l as [|e l IH]; intros stack Hs; [exact Hs|].
  cbn [fold_left]. apply IH. unfold cleanStep.
  destruct (String.eqb e "") eqn:E1; [exact Hs|].
  apply String.eqb_neq in E1.
  destruct (String.eqb e "."); [exact Hs|].
  destruct (String.eqb e "..").
  - destruct stack as [|top below].
    + destruct rooted; repeat constructor; exact E1.
    + destruct (String.eqb top ".."); [now constructor|].
      now apply Forall_cons in Hs as [_ Hs].
  - now constructor.
Qed.

Lemma joinSep_empty l : Forall (fun e => e <> "") l -> joinSep l = "" -> l = [].
Proof.
  destruct l as [|e l]; [reflexivity|]. intros H E.
  apply Forall_cons in H as [He _]. exfalso. apply He.
  destruct l as [|f fs]; [exact E|].
  rewrite joinSep_cons in E. now apply append_eq_nil in E as [E _].
Qed.

Lemma HasPrefix_dotdot l :
  HasPrefix (joinSep (".." :: l)) ".." = true.
Proof.
  unfold HasPrefix. destruct l as [|f fs].
  - reflexivity.
  - rewrite joinSep_cons. rewrite !append_cons.
    cbn [String.prefix].
    destruct (Ascii.ascii_dec "." "."); [|congruence].
    reflexivity.
Qed.

(** The relative paths that pass the guard of [calculateJobOutputPath]
    clean to a non-empty sequence of names. *)
Lemma accepted_names path :
  HasPrefix (Clean path) ".." || String.eqb (Clean path) "."
  || String.eqb (Clean path) "" || IsAbs (Clean path) = false ->
  exists names,
    names <> [] /\ Forall (fun e => isName e = true) names /\
    Clean path = joinSep names.
Proof.
  intros H. apply orb_false_iff in H as [H Habs].
  apply orb_false_iff in H as [H Hempty]. apply orb_false_iff in H as [Hup Hdot].
  destruct path as [|c rest]; [discriminate|].
  destruct (Ascii.eqb c Separator) eqn:Ec.
  { apply Ascii.eqb_eq in Ec. subst c.
    destruct (AppFacts.Clean_rooted rest) as [out Hout].
    unfold IsAbs in Habs. rewrite Hout in Habs.
    rewrite (proj2 (AppFacts.HasPrefix_slash _)) in Habs by (now exists out).
    discriminate. }
  unfold Clean in *. rewrite Ec in *. rewrite append_nil_l in *.
  set (stack := fold_left (cleanStep false) (elements (String c rest)) []) in *.
  destruct (String.eqb (joinSep (rev stack)) "") eqn:E0; [discriminate|].
  assert (Hshape : shaped stack).
  { apply fold_shaped; [apply elements_noSeparator|].
    exists [], []. repeat split; constructor. }
  destruct Hshape as (names & ups & Hstack & Hn & Hu).
  rewrite Hstack, rev_app_distr in *.
  destruct (rev ups) as [|u us] eqn:Eups.
  - cbn [app] in *. exists (rev names). split; [|split; [|reflexivity]].
    + intros E. rewrite E in E0. discriminate.
    + apply List.Forall_forall. intros e He. apply in_rev in He.
      exact (proj1 (List.Forall_forall _ _) Hn e He).
  - exfalso.
    assert (u = "..").
    { apply (proj1 (List.Forall_forall _ _) Hu). apply in_rev. rewrite Eups. now left. }
    subst u. change ((".." :: us) ++ rev names) with (".." :: (us ++ rev names)) in Hup.
    rewrite HasPrefix_dotdot in Hup. discriminate.
Qed.

(** X24: a job's output path stays under the output directory. When
    [calculateJobOutputPath] returns a path for a non-empty output
    directory, the cleaned relative path of the job is a non-empty
    sequence of names (no empty, "." or ".." element) joined by the
    separator, and the path returned is that sequence appended to the
    cleaned output directory; the queue is not touched and the one
    directory created is the parent of that path. *)
Theorem X24_calculateJobOutputPath_stays_under_output_dir
        (quote : string -> string) (mkdirAll : string -> option string)
        (flt : Queue.Faults) (now : Z) (outputBaseDir : string) (job : Queue.Job)
        (dbQueue q' : Queue.Table) (dirs : list string) (p : string) :
  outputBaseDir <> "" ->
  App.calculateJobOutputPath quote mkdirAll flt now outputBaseDir job dbQueue
  = (q', dirs, Ok p) ->
  exists names,
    names <> [] /\ Forall (fun e => isName e = true) names /\
    Clean (Queue.RelativePath job) = joinSep names /\
    under (Clean outputBaseDir) (joinSep names) p /\
    q' = dbQueue /\ dirs = [Dir p].
Proof.
  intros Hbase H. unfold App.calculateJobOutputPath in H.
  destruct (HasPrefix (Clean (Queue.RelativePath job)) ".."
            || String.eqb (Clean (Queue.RelativePath job)) "."
            || String.eqb (Clean (Queue.RelativePath job)) ""
            || IsAbs (Clean (Queue.RelativePath job))) eqn:Eg; [discriminate|].
  destruct (accepted_names _ Eg) as (names & Hne & Hnames & Hclean).
  exists names. split; [exact Hne|]. split; [exact Hnames|]. split; [exact Hclean|].
  rewrite Hclean in H.
  destruct (mkdirAll _) eqn:Em; [discriminate|].
  injection H as <- <- <-.
  split; [|split; reflexivity].
  (* the joined path *)
  cbn [Join]. destruct (String.eqb outputBaseDir "") eqn:Eb;
    [apply String.eqb_eq in Eb; congruence|].
  change (joinSep [outputBaseDir; joinSep names])
    with (outputBaseDir +:+ "/" +:+ joinSep names).
  destruct outputBaseDir as [|c rest]; [congruence|].
  unfold Clean. rewrite append_cons.
  set (rooted := Ascii.eqb c Separator).
  rewrite <- append_cons, elements_append, fold_left_app.
  set (stackB := fold_left (cleanStep rooted) (elements (String c rest)) []).
  assert (Hsep : Forall (fun e => hasSeparator e = false) names).
  { apply List.Forall_forall. intros e He.
    exact (proj2 (proj2 (proj2 (isName_spec e (proj1 (List.Forall_forall _ _) Hnames e He))))). }
  rewrite (elements_joinSep names Hne Hsep), (fold_names _ _ _ Hnames).
  rewrite rev_app_distr, rev_involutive.
  assert (HB : Forall (fun e => e <> "") (rev stackB)).
  { apply List.Forall_forall. intros e He. apply in_rev in He.
    assert (HF : Forall (fun e => e <> "") stackB) by (apply fold_no_empty; constructor).
    exact (proj1 (List.Forall_forall _ _) HF e He). }
  assert (Hrel : joinSep names <> "").
  { intros E. apply Hne. apply joinSep_empty; [|exact E].
    apply List.Forall_forall. intros e He E'. subst e.
    pose proof (proj1 (List.Forall_forall _ _) Hnames _ He) as Hn. discriminate. }
  destruct (rev stackB) as [|b bs] eqn:EB.
  - (* the output directory cleans to the root or to "." *)
    cbn [app joinSep]. destruct rooted.
    + rewrite !append_nil_r.
      replace (String.eqb ("/" +:+ joinSep names) "") with false by reflexivity.
      change (String.eqb "/" "") with false. cbv iota.
      right; left. split; reflexivity.
    + rewrite !append_nil_l. change (String.eqb "" "") with true. cbv iota.
      destruct (String.eqb (joinSep names) "") eqn:E;
        [apply String.eqb_eq in E; congruence|].
      left. split; reflexivity.
  - rewrite joinSep_app by (congruence || (intros E; apply Hne; now apply (f_equal (@rev string)) in E)).
    assert (Hout : (if rooted then "/" else "") +:+ joinSep (b :: bs) <> "").
    { intros E. apply append_eq_nil in E as [_ E].
      apply joinSep_empty in E; [discriminate|exact HB]. }
    apply String.eqb_neq in Hout. rewrite Hout.
    right; right. rewrite <- !append_assoc.
    match goal with
    | |- (if ?c then _ else _) = _ => destruct c eqn:E; [|reflexivity]
    end.
    apply String.eqb_eq in E. rewrite !append_assoc in E.
    apply append_eq_nil in E as [_ E]. apply append_eq_nil in E as [_ E].
    discriminate.
Qed.

Lemma X24_calculateJobOutputPath_stays_under_output_dir_witness :
  exists names,
    names <> [] /\ Forall (fun e => isName e = true) names /\
    Clean "sub/./a.nzb" = joinSep names /\
    under (Clean "/out/") (joinSep names) "/out/sub/a.nzb" /\
    Queue.mkTable [] 0 = Queue.mkTable [] 0 /\ ["/out/sub"] = [Dir "/out/sub/a.nzb"].
Proof.
  exact (X24_calculateJobOutputPath_stays_under_output_dir
           Samples.goQuote (fun _ => None) Queue.noFaults 300 "/out/"
           (Queue.mkJob 1 "/watch/sub/a.nzb" "sub/./a.nzb" Queue.StatusProcessing None 0 100 200)
           (Queue.mkTable [] 0) (Queue.mkTable [] 0) ["/out/sub"] "/out/sub/a.nzb"
           ltac:(discriminate) eq_refl).
Defined.

End ContainmentFacts.

(** ** The default output of a single repair *)

Module SingleOutputFacts.

Import SingleOutput StringFacts.

Lemma substring_get (path : string) : forall i c,
  String.get i path = Some c ->
  substring i (String.length path - i) path
  = String c (substring (S i) (String.length path - S i) path).
Proof.
  induction path as [|d path IH]; intros i c H; [discriminate|].
  destruct i as [|i].
  - cbn in H. injection H as <-. cbn [String.length Nat.sub substring].
    now rewrite Nat.sub_0_r.
  - cbn [String.get] in H. cbn [String.length Nat.sub substring]. now apply IH.
Qed.

(** The extension is empty or starts at a dot of the path, and it is the
    end of the path. *)
Lemma extLoop_spec path n :
  (n <= String.length path)%nat ->
  extLoop path n = "" \/
  exists i rest, (i < n)%nat /\
    extLoop path n = substring i (String.length path - i) path /\
    extLoop path n = String "." rest.
Proof.
  induction n as [|i IH]; intros Hn; cbn [extLoop]; [now left|].
  destruct (String.get i path) as [c|] eqn:Eg; [|now left].
  destruct (Ascii.eqb c Filepath.Separator); [now left|].
  destruct (Ascii.eqb c ".") eqn:Ec.
  - apply Ascii.eqb_eq in Ec. subst c. right.
    exists i, (substring (S i) (String.length path - S i) path).
    split; [lia|]. split; [reflexivity|]. now apply substring_get.
  - destruct (IH ltac:(lia)) as [H|(k & rest & Hk & H1 & H2)]; [now left|].
    right. exists k, rest. split; [lia|]. now split.
Qed.

Lemma Ext_suffix path : exists stem, path = stem +:+ Ext path.
Proof.
  unfold Ext.
  destruct (extLoop_spec path (String.length path) (Nat.le_refl _))
    as [->|(i & rest & Hi & -> & _)].
  - exists path. now rewrite append_nil_r.
  - exists (substring 0 i path). apply StringsFacts.substring_split. lia.
Qed.

(** X25: with no output path given, [getSingleOutputFilePath] returns
    the input path with "_repaired" inserted before its extension: the
    input is stem followed by extension, the extension being empty or
    beginning with a dot, and the result is stem, "_repaired", extension.
    It is never the input path itself. *)
Theorem X25_getSingleOutputFilePath_default
        (quote : string -> string) (stat : string -> StatResult) (inputFile : string) :
  exists stem,
    inputFile = stem +:+ Ext inputFile /\
    getSingleOutputFilePath quote stat inputFile ""
    = Ok (stem +:+ "_repaired" +:+ Ext inputFile) /\
    (Ext inputFile = "" \/ exists rest, Ext inputFile = String "." rest) /\
    getSingleOutputFilePath quote stat inputFile "" <> Ok inputFile.
Proof.
  destruct (Ext_suffix inputFile) as [stem Hstem]. exists stem.
  assert (E : getSingleOutputFilePath quote stat inputFile ""
              = Ok (stem +:+ "_repaired" +:+ Ext inputFile)).
  { unfold getSingleOutputFilePath. cbn [String.eqb].
    rewrite Hstem at 1. now rewrite StringsFacts.TrimSuffix_append. }
  split; [exact Hstem|]. split; [exact E|]. split.
  - unfold Ext.
    destruct (extLoop_spec inputFile (String.length inputFile) (Nat.le_refl _))
      as [H|(i & rest & _ & _ & H)]; [now left|right; now exists rest].
  - rewrite E. intros H. injection H as H.
    apply (f_equal String.length) in H.
    rewrite Hstem in H at 2. rewrite !length_append in H. cbn in H. lia.
Qed.

End SingleOutputFacts.

(** ** The repair of one manifest *)

Module RepairFlowFacts.

Import Nzb RepairFlow.

Lemma downloadAll_events env withChannel fs : forall k e,
  In e (fst (downloadAll env withChannel fs k)) ->
  exists f, e = Download f withChannel /\ In f fs.
Proof.
  induction fs as [|f fs IH]; intros k e H; cbn [downloadAll] in H; [destruct H|].
  destruct (cancelled env k); [destruct H|].
  destruct H as [<-|H].
  - exists f. split; [reflexivity|now left].
  - destruct (IH _ _ H) as (g & -> & Hg). exists g. split; [reflexivity|now right].
Qed.

(** Where the manifest is written: only at the end of [repairAndWrite]. *)
Lemma repairAndWrite_written env nzb firstFile nzbFile outputFile tmpDir name data :
  In (WriteFile name data)
     (fst (repairAndWrite env nzb firstFile nzbFile outputFile tmpDir)) ->
  exists nzb',
    upload env nzb = (nzb', None) /\ write env nzb' = Ok data /\
    name = outputName nzbFile outputFile firstFile /\ create env name = None.
Proof.
  unfold repairAndWrite.
  destruct (upload env nzb) as [nzb' [e|]].
  { cbn. intros [H|[H|[]]]; discriminate. }
  set (n := outputName nzbFile outputFile firstFile).
  assert (Hstart : ~ In (WriteFile name data)
                     [Par2Repair tmpDir; Upload; MkdirAll (Filepath.Dir n)]).
  { cbn. intros [H|[H|[H|[]]]]; discriminate. }
  assert (Hrest : In (WriteFile name data)
            (fst (match write env nzb' with
                  | Err e => ([Par2Repair tmpDir; Upload; MkdirAll (Filepath.Dir n)], Some e)
                  | Ok b =>
                      match create env n with
                      | Some e =>
                          ([Par2Repair tmpDir; Upload; MkdirAll (Filepath.Dir n)]
                             ++ [Create n], Some e)
                      | None =>
                          ([Par2Repair tmpDir; Upload; MkdirAll (Filepath.Dir n)]
                             ++ [Create n; WriteFile n b], fileWrite env n b)
                      end
                  end)) ->
          exists nzb'0, (nzb', @None string) = (nzb'0, None) /\ write env nzb'0 = Ok data /\
                        name = n /\ create env name = None).
  { destruct (write env nzb') as [b|e] eqn:Ew; [|intros H; now apply Hstart in H].
    destruct (create env n) as [e|] eqn:Ec; cbn [fst]; intros H;
      apply in_app_or in H as [H|H]; try (now apply Hstart in H).
    - destruct H as [H|[]]. discriminate.
    - destruct H as [H|[H|[]]]; [discriminate|]. injection H as <- <-.
      exists nzb'. repeat split; assumption. }
  destruct (mkdirAll env (Filepath.Dir n)) as [[e [|]]|]; try exact Hrest.
  intros H. now apply Hstart in H.
Qed.

Lemma repairAndWrite_uploads env nzb firstFile nzbFile outputFile tmpDir :
  exists rest,
    fst (repairAndWrite env nzb firstFile nzbFile outputFile tmpDir)
    = Par2Repair tmpDir :: Upload :: rest /\
    forall d, ~ In (Par2Repair d) rest.
Proof.
  unfold repairAndWrite.
  destruct (upload env nzb) as [nzb' [e|]].
  { exists []. split; [reflexivity|intros d []]. }
  destruct (mkdirAll env _) as [[e1 [|]]|];
    try (destruct (write env nzb') as [b|e2]; [destruct (create env _)|]);
    cbn [fst app]; eexists; (split; [reflexivity|]);
    intros d H; cbn in H; intuition discriminate.
Qed.

(** X26: [RepairNzb] writes a manifest only at the end of a complete run:
    the input was parsed, it lists par2 files and other files, broken
    segments were seen, the upload returned no error, and what is written
    is the serialisation of the manifest as the upload left it, to the
    output file given or, when none is given, to
    <base name of the first non-par2 file>.repaired.nzb beside the input. *)
Theorem X26_RepairNzb_writes_after_upload
        (env : Env) (nzbFile outputFile tmpDir name data : string) :
  In (WriteFile name data) (fst (RepairNzb env nzbFile outputFile tmpDir)) ->
  exists nzb nzb' firstFile rest,
    parse env = Ok nzb /\
    fst (Par2.splitParWithRest nzb) <> [] /\
    snd (Par2.splitParWithRest nzb) = firstFile :: rest /\
    brokenFiles env <> 0%nat /\
    upload env nzb = (nzb', None) /\
    write env nzb' = Ok data /\
    name = outputName nzbFile outputFile firstFile /\
    create env name = None.
Proof.
  unfold RepairNzb.
  destruct (openErr env); [intros []|].
  destruct (parse env) as [nzb|e]; [|intros []].
  destruct (fst (Par2.splitParWithRest nzb)) as [|p ps] eqn:Ep; [intros []|].
  destruct (snd (Par2.splitParWithRest nzb)) as [|firstFile rest] eqn:Er; [intros []|].
  set (d := downloadAll env true (firstFile :: rest) 0).
  set (tail :=
         match snd d with
         | None => ((MkdirAll tmpDir :: fst d) ++ [RemoveAll tmpDir], None)
         | Some k => _
         end).
  intros H.
  assert (Hd : forall l, In (WriteFile name data) ((MkdirAll tmpDir :: fst d) ++ l) ->
                         In (WriteFile name data) l).
  { intros l Hl. apply in_app_or in Hl as [[Hl|Hl]|Hl]; [discriminate| |exact Hl].
    apply downloadAll_events in Hl as (f & Hf & _). discriminate. }
  assert (Hc : ~ In (WriteFile name data) [RemoveAll tmpDir])
    by (intros [Hc|[]]; discriminate).
  assert (Ht : In (WriteFile name data) (fst tail)).
  { destruct (mkdirAll env tmpDir) as [[e [|]]|]; try exact H.
    cbn in H. destruct H as [H|[]]. discriminate. }
  clear H. subst tail.
  destruct (snd d) as [k|]; [|now apply Hd, Hc in Ht].
  destruct (cancelled env k); [now apply Hd, Hc in Ht|].
  destruct (brokenFiles env =? 0)%nat eqn:Eb; [now apply Hd, Hc in Ht|].
  apply Nat.eqb_neq in Eb.
  set (pd := downloadAll env false (p :: ps) (S k)) in *.
  destruct (snd pd).
  - cbn [fst] in Ht. apply Hd in Ht. apply in_app_or in Ht as [Ht|Ht].
    { apply downloadAll_events in Ht as (f & Hf & _). discriminate. }
    apply in_app_or in Ht as [Ht|Ht]; [|now apply Hc in Ht].
    apply repairAndWrite_written in Ht as (nzb' & H1 & H2 & H3 & H4).
    exists nzb, nzb', firstFile, rest. split; [reflexivity|].
    split; [rewrite Ep; discriminate|]. repeat split; assumption.
  - cbn [fst] in Ht. apply Hd in Ht. apply in_app_or in Ht as [Ht|Ht];
      [|now apply Hc in Ht].
    apply downloadAll_events in Ht as (f & Hf & _). discriminate.
Qed.

Lemma X26_RepairNzb_writes_after_upload_witness :
  exists nzb nzb' firstFile rest,
    parse MoreSamples.calmEnv = Ok nzb /\
    fst (Par2.splitParWithRest nzb) <> [] /\
    snd (Par2.splitParWithRest nzb) = firstFile :: rest /\
    brokenFiles MoreSamples.calmEnv <> 0%nat /\
    upload MoreSamples.calmEnv nzb = (nzb', None) /\
    write MoreSamples.calmEnv nzb' = Ok "<nzb/>" /\
    "/out/a.nzb" = outputName "/in/a.nzb" "/out/a.nzb" firstFile /\
    create MoreSamples.calmEnv "/out/a.nzb" = None.
Proof.
  apply (X26_RepairNzb_writes_after_upload MoreSamples.calmEnv "/in/a.nzb"
           "/out/a.nzb" "/tmp/work" "/out/a.nzb" "<nzb/>").
  vm_compute. tauto.
Defined.

(** X27: every run of [RepairNzb] that downloads anything ends by
    removing the temporary directory; par2 files are downloaded, without a
    channel for broken segments, only when broken segments were seen; and
    once the par2 driver has been run the upload follows, whatever the
    driver returned. *)
Theorem X27_RepairNzb_cleans_up_and_uploads
        (env : Env) (nzbFile outputFile tmpDir : string) :
  let trace := fst (RepairNzb env nzbFile outputFile tmpDir) in
  (forall f b, In (Download f b) trace -> last trace = Some (RemoveAll tmpDir)) /\
  (forall f, In (Download f false) trace -> brokenFiles env <> 0%nat) /\
  (forall d, In (Par2Repair d) trace -> In Upload trace).
Proof.
  cbv zeta. unfold RepairNzb.
  assert (Hnone : (forall f b, In (Download f b) [] -> last [] = Some (RemoveAll tmpDir)) /\
                  (forall f, In (Download f false) [] -> brokenFiles env <> 0%nat) /\
                  (forall d, In (Par2Repair d) [] -> In Upload []))
    by (split; [intros ? ? []|split; intros ? []]).
  destruct (openErr env); [exact Hnone|].
  destruct (parse env) as [nzb|e]; [|exact Hnone].
  destruct (fst (Par2.splitParWithRest nzb)) as [|p ps] eqn:Ep; [exact Hnone|].
  destruct (snd (Par2.splitParWithRest nzb)) as [|firstFile rest] eqn:Er;
    [exact Hnone|].
  set (d := downloadAll env true (firstFile :: rest) 0).
  assert (Hshort : forall l : list Event,
            (forall e, In e l -> exists f, e = Download f true) ->
            let trace := MkdirAll tmpDir :: l ++ [RemoveAll tmpDir] in
            (forall f b, In (Download f b) trace -> last trace = Some (RemoveAll tmpDir)) /\
            (forall f, In (Download f false) trace -> brokenFiles env <> 0%nat) /\
            (forall d, In (Par2Repair d) trace -> In Upload trace)).
  { intros l Hl trace. split; [|split].
    - intros _ _ _. subst trace. rewrite app_comm_cons. apply last_snoc.
    - intros f [H|H]; [discriminate|]. apply in_app_or in H as [H|[H|[]]];
        [|discriminate]. apply Hl in H as [g H]. discriminate.
    - intros x [H|H]; [discriminate|]. apply in_app_or in H as [H|[H|[]]];
        [|discriminate]. apply Hl in H as [g H]. discriminate. }
  assert (Hdl : forall e, In e (fst d) -> exists f, e = Download f true).
  { intros e He. apply downloadAll_events in He as (f & -> & _). now exists f. }
  set (tail :=
         match snd d with
         | None => ((MkdirAll tmpDir :: fst d) ++ [RemoveAll tmpDir], None)
         | Some k => _
         end).
  assert (Ht : let trace := fst tail in
            (forall f b, In (Download f b) trace -> last trace = Some (RemoveAll tmpDir)) /\
            (forall f, In (Download f false) trace -> brokenFiles env <> 0%nat) /\
            (forall d, In (Par2Repair d) trace -> In Upload trace)).
  { subst tail. destruct (snd d) as [k|]; [|exact (Hshort _ Hdl)].
    destruct (cancelled env k); [exact (Hshort _ Hdl)|].
    destruct (brokenFiles env =? 0)%nat eqn:Eb; [exact (Hshort _ Hdl)|].
    apply Nat.eqb_neq in Eb.
    set (pd := downloadAll env false (p :: ps) (S k)).
    assert (Hpd : forall e, In e (fst pd) -> exists f, e = Download f false).
    { intros e He. apply downloadAll_events in He as (f & -> & _). now exists f. }
    destruct (snd pd); cbn [fst]; (split; [|split; [intros; exact Eb|]]).
    - intros _ _ _. rewrite !app_assoc. apply last_snoc.
    - destruct (repairAndWrite_uploads env nzb firstFile nzbFile outputFile tmpDir)
        as (more & -> & _).
      intros x _. apply in_or_app. right. apply in_or_app. right.
      cbn. auto.
    - intros _ _ _. rewrite !app_assoc. apply last_snoc.
    - intros x H. exfalso. apply in_app_or in H as [[H|H]|H]; [discriminate| |].
      + apply Hdl in H as [g H]. discriminate.
      + apply in_app_or in H as [H|[H|[]]]; [|discriminate].
        apply Hpd in H as [g H]. discriminate. }
  destruct (mkdirAll env tmpDir) as [[e [|]]|]; try exact Ht.
  cbn. repeat split.
  - intros f b [H|[]]. discriminate.
  - intros f [H|[]]. discriminate.
  - intros x [H|[]]. discriminate.
Qed.

End RepairFlowFacts.

(** ** A job whose manifest cannot be repaired *)

Module PipelineFacts.

Import Queue QueueOps RepairFlow.

Lemma RepairNzb_without_par2 env nzb nzbFile outputFile tmpDir :
  openErr env = None -> parse env = Ok nzb ->
  fst (Par2.splitParWithRest nzb) = [] ->
  RepairNzb env nzbFile outputFile tmpDir = ([], None).
Proof.
  intros Ho Hp Hs. unfold RepairNzb. now rewrite Ho, Hp, Hs.
Qed.

(** X28: a manifest that lists no par2 file cannot be repaired, and
    [RepairNzb] returns nil for it without a single call. The worker
    therefore never marks such a job failed: when its output path is
    accepted the job is marked completed, with no error message and the
    retry count it had, although nothing was downloaded or written. *)
Theorem X28_job_without_par2_is_completed
        (quote : string -> string) (mkdirAll : string -> option string)
        (env : Env) (nzb : Nzb.NzbT) (now1 now2 : Z)
        (outputBaseDir absTmpDir : string) (t : Table) :
  openErr env = None -> parse env = Ok nzb ->
  fst (Par2.splitParWithRest nzb) = [] ->
  let repairNzb := fun nzbFile outputFile tmpDir =>
                     snd (RepairNzb env nzbFile outputFile tmpDir) in
  let r := Worker.workerTurn quote mkdirAll repairNzb noFaults now1 now2
                             outputBaseDir absTmpDir t in
  match snd r with
  | Worker.RepairFailed _ _ => False
  | Worker.Repaired job output =>
      RepairNzb env (FilePath job) output
                (Filepath.Join [absTmpDir; Filepath.Base (FilePath job)]) = ([], None) /\
      exists row, In row (rows t) /\ Status row = StatusPending /\ ID row = ID job /\
      forall i j, rows t !! i = Some j ->
        rows (fst r) !! i
        = Some (if ID j =? ID job
                then mkJob (ID j) (FilePath j) (RelativePath j) StatusCompleted
                           None (RetryCount j) (CreatedAt j) now2
                else j)
  | _ => True
  end.
Proof.
  intros Ho Hp Hs repairNzb r.
  pose proof (QueueOpsFacts.workerTurn_settles quote mkdirAll repairNzb now1 now2
                outputBaseDir absTmpDir t) as H.
  cbv zeta in H. fold r in H.
  assert (Hr : forall job output,
            snd r <> Worker.RepairFailed job output).
  { intros job output. subst r. unfold Worker.workerTurn.
    destruct (GetNextJob noFaults t now1) as [q [|e|job']]; cbn [snd]; try discriminate.
    destruct (App.calculateJobOutputPath _ _ _ _ _ _ _) as [[q' dirs] [out|e]];
      cbn [snd]; try discriminate.
    unfold repairNzb. rewrite (RepairNzb_without_par2 env nzb _ _ _ Ho Hp Hs).
    cbn. discriminate. }
  destruct (snd r) as [|e|job msg|job msg|job output]; auto.
  - now apply (Hr job msg).
  - split; [now apply (RepairNzb_without_par2 env nzb)|exact H].
Qed.

Lemma X28_job_without_par2_is_completed_witness :
  let env := mkEnv None (Ok (Nzb.mkNzb [Samples.sampleFile] 1)) (fun _ => false)
                   (fun _ => None) 0 (fun nzb => (nzb, None)) (fun _ => Ok "")
                   (fun _ => None) (fun _ _ => None) in
  let r := Worker.workerTurn Samples.goQuote (fun _ => None)
             (fun a b c => snd (RepairNzb env a b c)) noFaults 300 301 "/out" "/tmp"
             MoreSamples.twoJobs in
  match snd r with
  | Worker.RepairFailed _ _ => False
  | Worker.Repaired job output =>
      RepairNzb env (FilePath job) output
                (Filepath.Join ["/tmp"; Filepath.Base (FilePath job)]) = ([], None) /\
      exists row, In row (rows MoreSamples.twoJobs) /\ Status row = StatusPending /\
                  ID row = ID job /\
      forall i j, rows MoreSamples.twoJobs !! i = Some j ->
        rows (fst r) !! i
        = Some (if ID j =? ID job
                then mkJob (ID j) (FilePath j) (RelativePath j) StatusCompleted
                           None (RetryCount j) (CreatedAt j) 301
                else j)
  | _ => True
  end.
Proof.
  intros env.
  exact (X28_job_without_par2_is_completed Samples.goQuote (fun _ => None) env
           (Nzb.mkNzb [Samples.sampleFile] 1) 300 301 "/out" "/tmp" MoreSamples.twoJobs
           eq_refl eq_refl eq_refl).
Defined.

End PipelineFacts.

(** ** The headers of an article *)

Module ArticleHeaderFacts.

Import Article ArticleShape.

Lemma buildHeaders_lookup rfc1123 now a k :
  buildHeaders rfc1123 now a !! k =
  if String.eqb k "Date" then Some (rfc1123 (dateOf now a))
  else if String.eqb k "X-Nxg" && negb (String.eqb (XNxgHeader a) "")
       then Some (XNxgHeader a)
  else if String.eqb k "Message-ID" then Some ("<" +:+ MsgId a +:+ ">")
  else if String.eqb k "Newsgroups" then Some (String.concat "," (Groups a))
  else if String.eqb k "From" then Some (Poster a)
  else if String.eqb k "Subject" then Some (Subject a)
  else customOf a !! k.
Proof.
  unfold buildHeaders, dateOf. fold (customOf a).
  destruct (String.eqb k "Date") eqn:E1.
  { apply String.eqb_eq in E1. subst k.
    destruct (Date a); now rewrite lookup_insert_eq. }
  apply String.eqb_neq in E1.
  assert (L1 : forall (h : gmap string string) v, <["Date" := v]> h !! k = h !! k)
    by (intros; apply lookup_insert_ne; congruence).
  replace (match Date a with
           | Some t => <["Date" := rfc1123 t]> _
           | None => <["Date" := rfc1123 now]> _
           end !! k)
    with ((if String.eqb (XNxgHeader a) ""
           then <["Message-ID" := "<" +:+ MsgId a +:+ ">"]>
                  (<["Newsgroups" := String.concat "," (Groups a)]>
                     (<["From" := Poster a]> (<["Subject" := Subject a]> (customOf a))))
           else <["X-Nxg" := XNxgHeader a]>
                  (<["Message-ID" := "<" +:+ MsgId a +:+ ">"]>
                     (<["Newsgroups" := String.concat "," (Groups a)]>
                        (<["From" := Poster a]>
                           (<["Subject" := Subject a]> (customOf a)))))) !! k)
    by (destruct (Date a); now rewrite L1).
  destruct (String.eqb k "X-Nxg") eqn:E2; cbn [andb].
  { apply String.eqb_eq in E2. subst k.
    destruct (String.eqb (XNxgHeader a) ""); cbn [negb].
    - now rewrite !lookup_insert_ne by discriminate.
    - now rewrite lookup_insert_eq. }
  apply String.eqb_neq in E2.
  assert (E : forall h : gmap string string,
            (if String.eqb (XNxgHeader a) "" then h
             else <["X-Nxg" := XNxgHeader a]> h) !! k = h !! k).
  { intros h. destruct (String.eqb (XNxgHeader a) ""); [reflexivity|].
    apply lookup_insert_ne. congruence. }
  rewrite E.
  destruct (String.eqb k "Message-ID") eqn:E3.
  { apply String.eqb_eq in E3. subst k. now rewrite lookup_insert_eq. }
  apply String.eqb_neq in E3. rewrite lookup_insert_ne by congruence.
  destruct (String.eqb k "Newsgroups") eqn:E4.
  { apply String.eqb_eq in E4. subst k. now rewrite lookup_insert_eq. }
  apply String.eqb_neq in E4. rewrite lookup_insert_ne by congruence.
  destruct (String.eqb k "From") eqn:E5.
  { apply String.eqb_eq in E5. subst k. now rewrite lookup_insert_eq. }
  apply String.eqb_neq in E5. rewrite lookup_insert_ne by congruence.
  destruct (String.eqb k "Subject") eqn:E6.
  { apply String.eqb_eq in E6. subst k. now rewrite lookup_insert_eq. }
  apply String.eqb_neq in E6. now rewrite lookup_insert_ne by congruence.
Qed.

(** X29: whatever order the runtime iterates the header map in, the
    article [EncodeBytes] builds starts with one line per header name, no
    name twice; the Subject, From, Newsgroups, Message-ID and Date lines
    carry the values of the article even when a custom header has the
    same name, the X-Nxg line carries the article's value when that is
    not empty, and every custom header with another name is kept. The
    lines are followed by the yEnc header, the encoded body and the
    trailer. *)
Theorem X29_EncodeBytes_headers
        (rfc1123 : Z -> string) (now : Z)
        (range : gmap string string -> list (string * string))
        (encoder : string -> string) (a : articleData) :
  Permutation (range (buildHeaders rfc1123 now a))
              (map_to_list (buildHeaders rfc1123 now a)) ->
  let lines := range (buildHeaders rfc1123 now a) in
  EncodeBytes rfc1123 now range encoder a
  = headerLines lines +:+ yencHeader a +:+ encoder (body a)
      +:+ yendFooter a (CRC32.ChecksumIEEE (body a)) /\
  NoDup (map fst lines) /\
  In ("Subject", Subject a) lines /\
  In ("From", Poster a) lines /\
  In ("Newsgroups", String.concat "," (Groups a)) lines /\
  In ("Message-ID", "<" +:+ MsgId a +:+ ">") lines /\
  In ("Date", rfc1123 (dateOf now a)) lines /\
  (XNxgHeader a <> "" -> In ("X-Nxg", XNxgHeader a) lines) /\
  (forall k v, customOf a !! k = Some v -> ~ In k ownHeaders -> In (k, v) lines).
Proof.
  intros Hperm lines.
  assert (Hin : forall k v, buildHeaders rfc1123 now a !! k = Some v -> In (k, v) lines).
  { intros k v H. apply list_elem_of_In. subst lines. rewrite Hperm.
    now apply elem_of_map_to_list. }
  split.
  { unfold EncodeBytes. fold lines. now rewrite !StringFacts.append_assoc. }
  split.
  { subst lines. rewrite Hperm. apply NoDup_fst_map_to_list. }
  repeat split; try (apply Hin; rewrite buildHeaders_lookup; reflexivity).
  - intros Hx. apply Hin. rewrite buildHeaders_lookup. cbn.
    apply String.eqb_neq in Hx. now rewrite Hx.
  - intros k v Hc Hk. apply Hin. rewrite buildHeaders_lookup.
    assert (Hne : forall n, In n ownHeaders -> String.eqb k n = false).
    { intros n Hn. apply String.eqb_neq. intros ->. now apply Hk. }
    rewrite !Hne by (cbn; tauto). exact Hc.
Qed.

Lemma X29_EncodeBytes_headers_witness :
  In ("Subject", "the real subject")
     (map_to_list
        (buildHeaders (fun t => pretty t) 0
           (mkArticle 1 1 3 0 3 1 1 3 "the real subject" "poster" ["alt.test"]
                      "id@x.y" "" "a.bin"
                      (Some (<["Subject" := "forged"]> ∅)) None "abc"))).
Proof.
  exact (proj1 (proj2 (proj2
    (X29_EncodeBytes_headers (fun t => pretty t) 0 map_to_list (fun b => b)
       (mkArticle 1 1 3 0 3 1 1 3 "the real subject" "poster" ["alt.test"]
                  "id@x.y" "" "a.bin"
                  (Some (<["Subject" := "forged"]> ∅)) None "abc")
       (Permutation_refl _))))).
Defined.

End ArticleHeaderFacts.

(** ** No job is left in processing *)

Module QueueInvariantFacts.

Import Queue QueueOps QueueInvariant.

Lemma Forall_map_step (P : Job -> Prop) (g : Job -> Job) (l : list Job) :
  (forall j, In j l -> P (g j)) -> Forall P (map g l).
Proof.
  intros H. apply List.Forall_forall. intros j' Hj'.
  apply in_map_iff in Hj' as (j & <- & Hj). now apply H.
Qed.

Lemma AddJob_noneProcessing flt t filePath relativePath now :
  noneProcessing t -> noneProcessing (fst (AddJob flt t filePath relativePath now)).
Proof.
  intros Ht. unfold AddJob, commit.
  destruct (beginErr flt); [exact Ht|]. destruct (queryErr flt); [exact Ht|].
  destruct (selectByFilepath (rows t) filePath) as [row|].
  - destruct (String.eqb (Status row) StatusFailed
              || String.eqb (Status row) StatusCompleted).
    + destruct (execErr flt); [exact Ht|]. destruct (commitErr flt); [exact Ht|].
      cbn [fst]. unfold noneProcessing, updateByFilepath. cbn [rows].
      apply Forall_map_step. intros j Hj.
      destruct (String.eqb (FilePath j) filePath); [discriminate|].
      exact (proj1 (List.Forall_forall _ _) Ht j Hj).
    + destruct (commitErr flt); exact Ht.
  - destruct (execErr flt); [exact Ht|]. destruct (commitErr flt); [exact Ht|].
    cbn [fst]. unfold noneProcessing, insertJob. cbn [rows].
    apply Forall_app. split; [exact Ht|]. repeat constructor. discriminate.
Qed.

Lemma Cleanup_noneProcessing flt rowsAffectedErr t now :
  execErr flt = None ->
  noneProcessing (fst (fst (CleanupProcessingJobs flt rowsAffectedErr t now))).
Proof.
  intros He. unfold CleanupProcessingJobs. rewrite He.
  assert (H : Forall (fun j => Status j <> StatusProcessing)
                (map (fun j => if isProcessing j then setPending now j else j) (rows t))).
  { apply Forall_map_step. intros j _. unfold isProcessing.
    destruct (String.eqb (Status j) StatusProcessing) eqn:E; [discriminate|].
    now apply String.eqb_neq. }
  destruct rowsAffectedErr; exact H.
Qed.

(** The job taken is settled by the update that ends the turn. *)
Lemma settle_noneProcessing t id status msg now1 now2 :
  status <> StatusProcessing ->
  noneProcessing t ->
  noneProcessing (fst (UpdateJobStatus noFaults (updateByID t id (setProcessing now1))
                                       id status msg now2)).
Proof.
  intros Hs Ht. unfold UpdateJobStatus, noneProcessing. cbn [noFaults execErr fst].
  unfold updateByID. cbn [rows]. rewrite map_map.
  apply Forall_map_step. intros j Hj.
  destruct (ID j =? id) eqn:E.
  - cbn [setProcessing ID]. rewrite E.
    destruct (String.eqb status StatusFailed); exact Hs.
  - rewrite E. exact (proj1 (List.Forall_forall _ _) Ht j Hj).
Qed.

(** X30: no job is left marked as processing. A successful
    [CleanupProcessingJobs] leaves none; [AddJob] never creates one; and
    without driver faults a turn of the worker that starts with none ends
    with none, whether the job it took was rejected, failed or repaired. *)
Theorem X30_no_job_left_processing :
  (forall flt rowsAffectedErr t now,
     execErr flt = None ->
     noneProcessing (fst (fst (CleanupProcessingJobs flt rowsAffectedErr t now)))) /\
  (forall flt t filePath relativePath now,
     noneProcessing t -> noneProcessing (fst (AddJob flt t filePath relativePath now))) /\
  (forall quote mkdirAll repairNzb now1 now2 outputBaseDir absTmpDir t,
     noneProcessing t ->
     noneProcessing (fst (Worker.workerTurn quote mkdirAll repairNzb noFaults now1 now2
                                            outputBaseDir absTmpDir t))).
Proof.
  split; [exact Cleanup_noneProcessing|]. split; [exact AddJob_noneProcessing|].
  intros quote mkdirAll repairNzb now1 now2 outputBaseDir absTmpDir t Ht.
  unfold Worker.workerTurn.
  destruct (GetNextJob noFaults t now1) as [q next] eqn:Eg.
  destruct next as [|e|job].
  - unfold GetNextJob in Eg. cbn in Eg.
    destruct (selectOldestPending (rows t)); [discriminate|].
    injection Eg as <-. exact Ht.
  - unfold GetNextJob in Eg. cbn in Eg.
    destruct (selectOldestPending (rows t)); discriminate.
  - apply QueueOpsFacts.GetNextJob_Next in Eg as (row & _ & -> & ->).
    unfold App.calculateJobOutputPath. cbn [scannedJob ID RelativePath FilePath].
    destruct (Filepath.HasPrefix (Filepath.Clean (RelativePath row)) ".."
              || String.eqb (Filepath.Clean (RelativePath row)) "."
              || String.eqb (Filepath.Clean (RelativePath row)) ""
              || Filepath.IsAbs (Filepath.Clean (RelativePath row))).
    { cbn [fst]. now apply settle_noneProcessing. }
    destruct (mkdirAll _) as [err|].
    { cbn [fst]. now apply settle_noneProcessing. }
    destruct (repairNzb _ _ _) as [errMsg|]; cbn [fst];
      now apply settle_noneProcessing.
Qed.

End QueueInvariantFacts.
